(** * sh3redux: archive access and texture decoding

    A shallow embedding of the archive reader ([mft], [subarc]), the generic
    [resource] accessor and the decoding part of [sh3_texture::Load] of
    sh3redux, together with the properties of these components.

    Conventions.
    - Fixed-width unsigned integers are [Z] values; every C++ operation that
      wraps is written with an explicit reduction ([u8], [u16], [u32]).
    - Signed [int] arithmetic that overflows is undefined in C++ and yields
      [Undefined] here.
    - Byte buffers ([std::vector<std::uint8_t>], mapped files) are [list Z].
    - Iterators into a vector are [Z] positions, counted from [begin()];
      a position before [begin()] or past [end()] is undefined behaviour.
    - A function that can abort returns an [outcome]. *)

From Stdlib Require Import ZArith Lia Bool Ascii String.
From stdpp Require Import base list strings gmap.

Local Open Scope Z_scope.

(** ** Outcomes of a call *)

Inductive outcome (A : Type) : Type :=
| Ok (a : A)      (* the call returns *)
| AssertFail      (* an [ASSERT] / [assert] does not hold *)
| Undefined       (* undefined behaviour: out-of-range access, signed overflow *)
| Fatal           (* [die] was called *)
| Thrown          (* a C++ exception leaves the call *)
| OutOfFuel.      (* the step budget of the model ran out; not a behaviour of the program *)

Arguments Ok {A} a.
Arguments AssertFail {A}.
Arguments Undefined {A}.
Arguments Fatal {A}.
Arguments Thrown {A}.
Arguments OutOfFuel {A}.

Definition obind {A B : Type} (c : outcome A) (k : A -> outcome B) : outcome B :=
  match c with
  | Ok a => k a
  | AssertFail => AssertFail
  | Undefined => Undefined
  | Fatal => Fatal
  | Thrown => Thrown
  | OutOfFuel => OutOfFuel
  end.

Notation "'let*' x ':=' c 'in' k" := (obind c (fun x => k))
  (at level 10, x pattern, c at level 200, k at level 200).

(** Modelled from the spec: the macro [ASSERT] of [SH3/system/assert.hpp]
    (section 7: invariant violations are assertions, expected never to
    trigger).  A violated assertion stops the program. *)
Definition ASSERT (c : bool) : outcome unit :=
  if c then Ok tt else AssertFail.

(** ** Machine integers *)

Definition u8 (v : Z) : Z := v mod 2 ^ 8.
Definition u16 (v : Z) : Z := v mod 2 ^ 16.
Definition u32 (v : Z) : Z := v mod 2 ^ 32.
Definition u64 (v : Z) : Z := v mod 2 ^ 64.

Definition INT_MAX : Z := 2 ^ 31 - 1.
Definition INT_MIN : Z := - 2 ^ 31.

(** [static_cast<int>] of an unsigned 32-bit value. *)
Definition to_int (v : Z) : Z :=
  let m := u32 v in if m <? 2 ^ 31 then m else m - 2 ^ 32.

(** Multiplication of two [int] operands. *)
Definition int_mul (a b : Z) : outcome Z :=
  let p := a * b in
  if (INT_MIN <=? p) && (p <=? INT_MAX) then Ok p else Undefined.

Definition len {A : Type} (l : list A) : Z := Z.of_nat (length l).

(** Little-endian 32-bit load at byte offset [off] of a mapped range. *)
Definition read_u32 (bytes : list Z) (off : Z) : outcome Z :=
  if (0 <=? off) && (off + 4 <=? len bytes) then
    match drop (Z.to_nat off) bytes with
    | b0 :: b1 :: b2 :: b3 :: _ =>
        Ok (b0 + 2 ^ 8 * b1 + 2 ^ 16 * b2 + 2 ^ 24 * b3)
    | _ => Undefined
    end
  else Undefined.

Definition le32 (v : Z) : list Z :=
  [v mod 256; (v / 2 ^ 8) mod 256; (v / 2 ^ 16) mod 256; (v / 2 ^ 24) mod 256].

(** ** The master file table reader ([mft]) *)

Module mft.

(** [mft::read_result] *)
Inductive read_result : Type :=
| SUCCESS
| END_OF_FILE
| PARTIAL_READ
| GZ_ERROR.

(** [mft::read_error] *)
Record read_error : Type := {
  result : read_result;
  zlib_err : Z;
  os_err : Z
}.

Definition Z_OK : Z := 0.
Definition Z_ERRNO : Z := -1.

(** The state of a [gzFile]: the uncompressed bytes it can still deliver,
    and the error recorded in the handle (zlib error code, [errno]); while
    an error is recorded, [gzread] fails. *)
Record gz_stream : Type := {
  gz_avail : list Z;
  gz_fault : option (Z * Z)
}.

(** zlib's guarantees about a recorded fault, which [set_error] asserts. *)
Definition gz_wf (s : gz_stream) : Prop :=
  match gz_fault s with
  | Some (ze, oe) => ze <> Z_OK /\ (ze = Z_ERRNO -> oe <> 0)
  | None => True
  end.

(** [gzread]: the number of uncompressed bytes actually read, less than
    [n] at the end of the file, or -1 for an error. *)
Definition gzread (s : gz_stream) (n : Z) : Z * list Z * gz_stream :=
  match gz_fault s with
  | Some _ => (-1, [], s)
  | None =>
      let got := take (Z.to_nat n) (gz_avail s) in
      (len got, got,
       {| gz_avail := drop (Z.to_nat n) (gz_avail s); gz_fault := None |})
  end.

(** [gzerror] *)
Definition gzerror (s : gz_stream) : Z :=
  match gz_fault s with
  | Some (ze, _) => ze
  | None => Z_OK
  end.

Definition errno (s : gz_stream) : Z :=
  match gz_fault s with
  | Some (_, oe) => oe
  | None => 0
  end.

(** [mft::read_error::set_error] *)
Definition set_error (res : read_result) (file : option gz_stream)
  : outcome read_error :=
  match res with
  | GZ_ERROR =>
      match file with
      | None => AssertFail
      | Some f =>
          let ze := gzerror f in
          let* _ := ASSERT (negb (ze =? Z_OK)) in
          if ze =? Z_ERRNO then
            let oe := errno f in
            let* _ := ASSERT (negb (oe =? 0)) in
            Ok {| result := res; zlib_err := ze; os_err := oe |}
          else Ok {| result := res; zlib_err := ze; os_err := 0 |}
      end
  | _ => Ok {| result := res; zlib_err := Z_OK; os_err := 0 |}
  end.

(** What a call of [ReadData] leaves behind: the returned count, the bytes
    stored at [destination], the error object, and the stream. *)
Record read_data : Type := {
  rd_count : Z;
  rd_bytes : list Z;
  rd_error : read_error;
  rd_stream : gz_stream
}.

(** [mft::ReadData] *)
Definition ReadData (gzHandle : gz_stream) (n : Z) : outcome read_data :=
  let* _ := ASSERT (n <=? INT_MAX) in
  let ilen := n in
  let '(res, dest, s') := gzread gzHandle ilen in
  let* _ := ASSERT (res <=? ilen) in
  let* (res, e) :=
    (if res =? ilen then
       let* e := set_error SUCCESS None in Ok (res, e)
     else if 0 <? res then
       let* e := set_error PARTIAL_READ None in Ok (res, e)
     else if res =? 0 then
       let* e := set_error END_OF_FILE None in Ok (res, e)
     else
       let* e := set_error GZ_ERROR (Some gzHandle) in Ok (0, e)) in
  let* _ := ASSERT (0 <=? res) in
  Ok {| rd_count := res; rd_bytes := dest; rd_error := e; rd_stream := s' |}.


(** Modelled from the spec: [mft::ReadObject] of [SH3/arc/mft.hpp]
    ("readObject(T) ... read exactly the requested byte count"): [ReadData]
    into the bytes of the object; what is not read keeps its value. *)
Definition ReadObject (gzHandle : gz_stream) (object : list Z)
  : outcome (list Z * read_error * gz_stream) :=
  let* d := ReadData gzHandle (len object) in
  Ok (rd_bytes d ++ drop (length (rd_bytes d)) object, rd_error d, rd_stream d).

(** [mft::ReadString]; the string is the list of its bytes. *)
Definition ReadString (gzHandle : gz_stream) (n : Z)
  : outcome (Z * list Z * read_error * gz_stream) :=
  let* _ := ASSERT (n <=? INT_MAX) in
  let buf := replicate (Z.to_nat n) 0 in
  let* d := ReadData gzHandle (len buf) in
  let buf := rd_bytes d ++ drop (length (rd_bytes d)) buf in
  let res := rd_count d in
  let* _ := ASSERT (res <=? len buf) in
  let destination := take (Z.to_nat res) buf in
  let* _ := ASSERT (len destination =? res) in
  Ok (res, destination, rd_error d, rd_stream d).

(** *** The classification of reads, as the specification words it *)

(** The bytes a read of [n] bytes gets out of the stream [s]. *)
Definition bytes_read (s : gz_stream) (n : Z) : Z :=
  len (snd (fst (gzread s n))).

(** The underlying read fails. *)
Definition read_failed (s : gz_stream) : Prop := gz_fault s <> None.

(** The stream has come to its end. *)
Definition exhausted (s : gz_stream) : Prop :=
  gz_avail s = [] /\ gz_fault s = None.

(** The classification of a read of [n] bytes from [s] with result [d]. *)
Definition classified (s : gz_stream) (n : Z) (d : read_data) : Prop :=
  let e := rd_error d in
  (result e = SUCCESS <-> bytes_read s n = n)
  /\ (result e = PARTIAL_READ <-> 1 <= bytes_read s n <= n - 1)
  /\ (result e = END_OF_FILE <-> bytes_read s n = 0 /\ exhausted s)
  /\ (result e = GZ_ERROR <-> read_failed s)
  /\ (result e = GZ_ERROR ->
      zlib_err e = gzerror s /\ zlib_err e <> Z_OK
      /\ (zlib_err e = Z_ERRNO -> os_err e = errno s /\ os_err e <> 0))
  /\ (result e = SUCCESS -> rd_count d = n)
  /\ (result e = PARTIAL_READ -> 1 <= rd_count d <= n - 1)
  /\ (result e = END_OF_FILE -> rd_count d = 0)
  /\ (result e = GZ_ERROR -> rd_count d = 0)
  /\ (len (gz_avail s) < n -> result e <> SUCCESS).

End mft.

(** [LogLevel] of [SH3/system/log.hpp]; a log is the list of the levels of
    the messages written, oldest first. *)
Inductive LogLevel : Type := INFO | WARN | ERROR.

(** ** The per-section file table built by [mft::ReadNextSection] *)

Module section.

Import mft.

(** The bytes of a [std::string] as a string. *)
Definition chars (bytes : list Z) : string :=
  string_of_list_ascii (map (fun c => ascii_of_N (Z.to_N c)) bytes).

(** The bytes of a string. *)
Definition bytes_of (name : string) : list Z :=
  map (fun c => Z.of_N (N_of_ascii c)) (list_ascii_of_string name).

(** [while(file.fname.back() == '\0') file.fname.pop_back();] on the
    reversed name.  [back()] of an empty string is undefined. *)
Fixpoint pop_trailing_NUL (reversed : list Z) : outcome (list Z) :=
  match reversed with
  | [] => Undefined
  | c :: r => if c =? 0 then pop_trailing_NUL r else Ok reversed
  end.

(** The name handling of one loop iteration: the NUL terminator is
    required ([die] E00008 otherwise), then every trailing NUL goes. *)
Definition trimmed_name (fname : list Z) : outcome string :=
  match rev fname with
  | [] => Undefined
  | c :: r =>
      if negb (c =? 0) then Fatal
      else
        let* t := pop_trailing_NUL (c :: r) in
        Ok (chars (rev t))
  end.

(** [sectionName.find_last_not_of('\0') + 1] on the reversed name: what
    is left of the name without its trailing NULs.  For a name of NULs
    only the search returns [npos], and [npos + 1] is 0. *)
Fixpoint without_trailing_NUL (reversed : list Z) : list Z :=
  match reversed with
  | [] => []
  | c :: r => if c =? 0 then without_trailing_NUL r else reversed
  end.

(** The handling of the section name: the NUL terminator is required
    ([die] E00007 otherwise), then
    [sectionName.resize(sectionName.find_last_not_of('\0') + 1)]. *)
Definition trimmed_section_name (sectionName : list Z) : outcome string :=
  match rev sectionName with
  | [] => Undefined
  | c :: r =>
      if negb (c =? 0) then Fatal
      else Ok (chars (rev (without_trailing_NUL (c :: r))))
  end.

Section layout.

(** The header of [sh3_arc_file_entry_t] ([SH3/arc/types.hpp]): its size
    and the two fields that the loop reads, as functions of its bytes. *)
Variable sizeof_header : Z.
Variable header_arcIndex : list Z -> Z.
Variable header_fileSize : list Z -> Z.

(** The loop over [section.fileEntries] of [mft::ReadNextSection], for
    [numFiles] entries; [readError] is not looked at.  The body ends with
    [section.fileList[file.fname] = file.header.arcIndex]. *)
Fixpoint ReadNextSection_files (numFiles : nat) (gzHandle : gz_stream)
    (fileList : gmap string Z) : outcome (gmap string Z * gz_stream) :=
  match numFiles with
  | O => Ok (fileList, gzHandle)
  | S numFiles' =>
      let* (header, _, gzHandle) :=
        ReadObject gzHandle (replicate (Z.to_nat sizeof_header) 0) in
      let* (_, fname, _, gzHandle) :=
        ReadString gzHandle (u64 (header_fileSize header - sizeof_header)) in
      let* name := trimmed_name fname in
      ReadNextSection_files numFiles' gzHandle
        (<[name := header_arcIndex header]> fileList)
  end.

(** One file entry as [arc.arc] holds it: the bytes of the header and the
    bytes of the name. *)
Record file_entry : Type := {
  header : list Z;
  fname : list Z
}.

Definition arcIndex (e : file_entry) : Z := header_arcIndex (header e).

(** The entry is one that the loop reads without a failure. *)
Definition well_formed (e : file_entry) : Prop :=
  len (header e) = sizeof_header
  /\ header_fileSize (header e) = sizeof_header + len (fname e)
  /\ len (fname e) <= INT_MAX
  /\ exists name : string, trimmed_name (fname e) = Ok name.

(** The bytes of a list of entries, in the order of the file. *)
Definition encode (entries : list file_entry) : list Z :=
  flat_map (fun e => header e ++ fname e) entries.

(** The entries stored under [name], in reading order. *)
Definition has_name (name : string) (e : file_entry) : bool :=
  match trimmed_name (fname e) with
  | Ok n => String.eqb n name
  | _ => false
  end.

Definition named (name : string) (entries : list file_entry) : list file_entry :=
  List.filter (has_name name) entries.

End layout.

(** A header of two 16-bit fields, [arcIndex] and [fileSize], for the
    examples. *)
Definition two_fields_arcIndex (header : list Z) : Z :=
  match header with
  | b0 :: b1 :: _ => b0 + 2 ^ 8 * b1
  | _ => 0
  end.

Definition two_fields_fileSize (header : list Z) : Z :=
  match header with
  | _ :: _ :: b2 :: b3 :: _ => b2 + 2 ^ 8 * b3
  | _ => 0
  end.

(** An entry with this header, for a name that gets its NUL terminator. *)
Definition two_fields_entry (index : Z) (name : string) : file_entry :=
  let fname := bytes_of name ++ [0] in
  {| header := [index mod 2 ^ 8; index / 2 ^ 8;
                (4 + len fname) mod 2 ^ 8; (4 + len fname) / 2 ^ 8];
     fname := fname |}.

End section.

(** ** The sub-archive ([subarc]) *)

Module subarc.

Definition arcFileNotFound : Z := -1.

Definition sizeof_subarc_header : Z := 16.
Definition sizeof_subarc_file_entry : Z := 16.
Definition magic : Z := 0x20030507.

(** [subarc_file_entry] *)
Record subarc_file_entry : Type := {
  offset : Z;
  fileID : Z;
  length : Z;
  length2 : Z
}.

(** [class subarc]: [file] is [None] while the mapping is closed. *)
Record subarc : Type := {
  path : string;
  file : option (list Z);
  files : gmap string Z
}.

(** The directory [data/]: the content of each file that can be opened. *)
Definition disk : Type := string -> option (list Z).

(** [boost::iostreams::mapped_file_source::open(path)] of Boost.Iostreams,
    which is not code of this repository.  It reports every failure by an
    exception ([std::ios_base::failure]): when the object holds an open
    mapping already, when the file cannot be opened, and when it cannot be
    mapped, as a file of no bytes cannot.  When it returns, the mapping is
    open and holds the bytes of the file. *)
Definition mapped_file_open (d : disk) (file : option (list Z)) (path : string)
  : outcome (option (list Z)) :=
  match file with
  | Some _ => Thrown
  | None =>
      match d path with
      | None => Thrown
      | Some [] => Thrown
      | Some bytes => Ok (Some bytes)
      end
  end.

(** [subarc::Reopen]: [file.open(path)], the test [if(!file)], then the
    test of [header.magic], read from [file.data()]. *)
Definition Reopen (d : disk) (s : subarc) : outcome (subarc * list LogLevel) :=
  let* file := mapped_file_open d (file s) (path s) in
  match file with
  | None => Ok ({| path := path s; file := None; files := files s |}, [ERROR])
  | Some bytes =>
      let* m := read_u32 bytes 0 in
      if negb (m =? magic) then
        Ok ({| path := path s; file := None; files := files s |}, [ERROR])
      else
        Ok ({| path := path s; file := Some bytes; files := files s |}, [])
  end.

(** The constructor: [path{"data/" + subarcName + ".arc"}], then [Reopen]. *)
Definition make (d : disk) (subarcName : string) (filesMap : gmap string Z)
  : outcome (subarc * list LogLevel) :=
  Reopen d {| path := String.append "data/" (String.append subarcName ".arc");
              file := None; files := filesMap |}.

(** The file entry record at [sizeof(subarc_header) + index * sizeof(fileEntry)]. *)
Definition entry_at (bytes : list Z) (index : Z) : outcome subarc_file_entry :=
  let base := sizeof_subarc_header + index * sizeof_subarc_file_entry in
  let* o := read_u32 bytes base in
  let* i := read_u32 bytes (base + 4) in
  let* l := read_u32 bytes (base + 8) in
  let* l2 := read_u32 bytes (base + 12) in
  Ok {| offset := o; fileID := i; length := l; length2 := l2 |}.

(** The range [dataBegin, dataEnd) of the mapping. *)
Definition data_range (bytes : list Z) (off n : Z) : outcome (list Z) :=
  if off + n <=? len bytes
  then Ok (take (Z.to_nat n) (drop (Z.to_nat off) bytes))
  else Undefined.

(** [std::copy(dataBegin, dataEnd, insert)] *)
Definition copy (data : list Z) (buffer : list Z) (insert : Z) : outcome (list Z) :=
  if (0 <=? insert) && (insert + len data <=? len buffer) then
    Ok (take (Z.to_nat insert) buffer ++ data
        ++ drop (Z.to_nat (insert + len data)) buffer)
  else Undefined.

(** What a call of [LoadFile] leaves behind. *)
Record loaded : Type := {
  ret : Z;
  buffer : list Z;
  insert : Z;
  log : list LogLevel
}.

(** [subarc::LoadFile(index_t, buffer, insert)].  The sum in the second
    assertion is one of two [std::uint32_t] and wraps; [buffer.resize(n)]
    cuts the vector or fills it with zeros up to [n] elements. *)
Definition LoadFile_index (s : subarc) (index : Z) (buf : list Z) (ins : Z)
  : outcome loaded :=
  match file s with
  | None => Ok {| ret := arcFileNotFound; buffer := buf; insert := ins; log := [] |}
  | Some bytes =>
      let* _ := ASSERT (sizeof_subarc_header
                        + (index + 1) * sizeof_subarc_file_entry <=? len bytes) in
      let* fileEntry := entry_at bytes index in
      let* _ := ASSERT (u32 (offset fileEntry + length fileEntry) <=? len bytes) in
      let* data := data_range bytes (offset fileEntry) (length fileEntry) in
      let space := len buf - ins in
      let* _ := ASSERT (0 <=? space) in
      let* (buf, ins) :=
        (if space <? length fileEntry then
           let buf := resize (Z.to_nat (length fileEntry - space)) 0 buf in
           let ins := len buf - length fileEntry in
           if 0 <=? ins then Ok (buf, ins) else Undefined
         else Ok (buf, ins)) in
      let* buf := copy data buf ins in
      let ins := ins + offset fileEntry in
      if ins <=? len buf then
        Ok {| ret := to_int (length fileEntry); buffer := buf; insert := ins;
              log := [] |}
      else Undefined
  end.

(** [files.equal_range(filename)] on a [std::map]: the values of the
    entries with this key, in map order. *)
Definition equal_range (m : gmap string Z) (filename : string) : list Z :=
  option_list (m !! filename).

(** [subarc::LoadFile(const std::string&, buffer, insert)] *)
Definition LoadFile (s : subarc) (filename : string) (buf : list Z) (ins : Z)
  : outcome loaded :=
  match equal_range (files s) filename with
  | [] => Ok {| ret := arcFileNotFound; buffer := buf; insert := ins; log := [] |}
  | index :: more =>
      let warned := match more with [] => [] | _ :: _ => [WARN] end in
      let* r := LoadFile_index s index buf ins in
      Ok {| ret := ret r; buffer := buffer r; insert := insert r;
            log := warned ++ log r |}
  end.

(** A section file that holds one file: header, one table entry, payload. *)
Definition one_file_arc (payload : list Z) : list Z :=
  le32 magic ++ le32 1 ++ le32 32 ++ le32 0
  ++ le32 32 ++ le32 0 ++ le32 (len payload) ++ le32 (len payload)
  ++ payload.

(** [LoadFile(index, buffer)]: [auto back = end(buffer)]. *)
Definition LoadFile_index_back (s : subarc) (index : Z) (buf : list Z)
  : outcome loaded :=
  LoadFile_index s index buf (len buf).

(** [LoadFile(filename, buffer)]: [auto back = end(buffer)]. *)
Definition LoadFile_back (s : subarc) (filename : string) (buf : list Z)
  : outcome loaded :=
  LoadFile s filename buf (len buf).

End subarc.

(** ** The resource accessor ([resource<header_type>], part of the archive code) *)

Module resource.

(** [sizeof *this] inside [resource::IsLoaded]: the object holds one
    [std::vector], three pointers on the 64-bit targets. *)
Definition sizeof_this : Z := 24.

(** [header::HeaderOffset()] *)
Definition HeaderOffset : Z := 0.

(** [resource::AssertSize] *)
Definition AssertSize (raw : list Z) (size : Z) : outcome unit :=
  ASSERT (size <=? len raw).

(** [resource::IsLoaded]:
    [return raw.empty() && (AssertSize(sizeof *this), true);] *)
Definition IsLoaded (raw : list Z) : outcome bool :=
  match raw with
  | [] => let* _ := AssertSize raw sizeof_this in Ok true
  | _ :: _ => Ok false
  end.

(** [resource::IsLoaded] as declared in [include/SH3/arc/resource.hpp]:
    [if(raw.empty()) return false; AssertSize(sizeof *this); return true;] *)
Definition IsLoaded_hpp (raw : list Z) : outcome bool :=
  match raw with
  | [] => Ok false
  | _ :: _ => let* _ := AssertSize raw sizeof_this in Ok true
  end.

Section with_header.

(** [header::Check()] on the bytes the header is read from. *)
Variable header_Check : list Z -> bool.

(** [resource::Header]: the bytes at [HeaderOffset()]. *)
Definition Header (raw : list Z) : outcome (list Z) :=
  let* loaded := IsLoaded raw in
  let* _ := ASSERT loaded in
  Ok (drop (Z.to_nat HeaderOffset) raw).

(** [resource::Check]: [IsLoaded() && Header().Check()] *)
Definition Check (raw : list Z) : outcome bool :=
  let* loaded := IsLoaded raw in
  if loaded then
    let* h := Header raw in Ok (header_Check h)
  else Ok false.

(** Modelled from the spec: [mft::LoadFile(filename, raw, e)] of
    [SH3/arc/mft.hpp], which "delegates byte retrieval to the Archive
    Locator by filename"; the locator appends at the end of [raw]. *)
Definition mft_LoadFile (locator : subarc.subarc) (filename : string)
    (raw : list Z) : outcome (list Z) :=
  let* r := subarc.LoadFile_back locator filename raw in
  Ok (subarc.buffer r).

(** [resource::LoadFromFile] *)
Definition LoadFromFile (locator : subarc.subarc) (filename : string)
    (raw : list Z) : outcome (list Z) :=
  let* loaded := IsLoaded raw in
  let* _ := ASSERT (negb loaded) in
  let* raw := mft_LoadFile locator filename raw in
  let* loaded := IsLoaded raw in
  if loaded then
    let* h := Header raw in
    if negb (header_Check h) then Ok [] else Ok raw
  else Ok raw.

(** [resource::Header] and [resource::LoadFromFile] as declared in
    [include/SH3/arc/resource.hpp]; they differ from the above in
    [IsLoaded] only. *)
Definition Header_hpp (raw : list Z) : outcome (list Z) :=
  let* loaded := IsLoaded_hpp raw in
  let* _ := ASSERT loaded in
  Ok raw.

Definition LoadFromFile_hpp (locator : subarc.subarc) (filename : string)
    (raw : list Z) : outcome (list Z) :=
  let* loaded := IsLoaded_hpp raw in
  let* _ := ASSERT (negb loaded) in
  let* raw := mft_LoadFile locator filename raw in
  let* loaded := IsLoaded_hpp raw in
  if loaded then
    let* h := Header_hpp raw in
    if negb (header_Check h) then Ok [] else Ok raw
  else Ok raw.

End with_header.

(** [std::numeric_limits<std::ptrdiff_t>::max()] *)
Definition PTRDIFF_MAX : Z := 2 ^ 63 - 1.

(** [resource::Convert<T>(std::size_t offset)]: a copy of the bytes from
    [offset] to the end of [raw]. *)
Definition Convert (raw : list Z) (offset : Z) : outcome (list Z) :=
  let* _ := AssertSize raw offset in
  let* _ := ASSERT (offset <=? PTRDIFF_MAX) in
  Ok (drop (Z.to_nat offset) raw).

Section with_accessors.

(** [header::SubHeader<T>()], [header::DataOffset()] and
    [header::DataSize(maxSize)] on the bytes the header is read from; all
    three return a [std::size_t]. *)
Variable header_SubHeader : list Z -> outcome Z.
Variable header_DataOffset : list Z -> outcome Z.
Variable header_DataSize : list Z -> Z -> outcome Z.

(** [resource::SubHeader<T>] *)
Definition SubHeader (raw : list Z) : outcome (list Z) :=
  let* loaded := IsLoaded raw in
  let* _ := ASSERT loaded in
  let* h := Header raw in
  let* offset := header_SubHeader h in
  Convert raw offset.

(** [resource::RawData] *)
Definition RawData (raw : list Z) : outcome (list Z) :=
  let* loaded := IsLoaded raw in
  let* _ := ASSERT loaded in
  let* h := Header raw in
  let* offset := header_DataOffset h in
  let* _ := ASSERT ((0 <=? offset) && (offset <=? len raw)) in
  let* _ := ASSERT (offset <=? PTRDIFF_MAX) in
  let left := len raw - offset in
  let* _ := ASSERT (0 <=? left) in
  let* h := Header raw in
  let* size := header_DataSize h left in
  let* _ := ASSERT ((0 <=? size) && (size <=? PTRDIFF_MAX)
                    && (u64 (offset + size) <=? len raw)) in
  Ok (take (Z.to_nat size) (drop (Z.to_nat offset) raw)).

End with_accessors.

End resource.

(** ** Texture and palette headers, and the decoder ([sh3_graphics]) *)

Module texture.

(** [struct rgba] *)
Record rgba : Type := {
  r : Z;
  g : Z;
  b : Z;
  a : Z
}.

(** *** The palette ([palette_info], [palette_info_resource]) *)

(** The fields of [palette_info] that the code reads. *)
Record palette_info : Type := {
  paletteSize : Z;
  bytes_per_pixel : Z;
  entrySize : Z
}.

Definition sizeof_palette_info : Z := 48.
Definition sizeof_rgba : Z := 4.

(** Unsigned division; a zero divisor is undefined. *)
Definition udiv (x y : Z) : outcome Z :=
  if y =? 0 then Undefined else Ok (x / y).

(** [palette_info::GetBlockCount] *)
Definition GetBlockCount (h : palette_info) : outcome Z :=
  let* q := udiv (paletteSize h) (entrySize h) in
  udiv q (bytes_per_pixel h).

(** [palette_info::GetColorsPerBlock] *)
Definition GetColorsPerBlock (h : palette_info) : outcome Z :=
  udiv (entrySize h) (bytes_per_pixel h).

(** [palette_info::DataOffset(idx)] *)
Definition palette_DataOffset (idx : Z) : Z := sizeof_palette_info + 256 * idx.

(** [palette_info::DataSize(maxSize, idx)] *)
Definition palette_DataSize (h : palette_info) : outcome Z :=
  let* c := GetColorsPerBlock h in Ok (c * sizeof_rgba).

(** A byte range seen through [strided(sizeof(rgba))] and the
    [reinterpret_cast<const rgba&>]. *)
Fixpoint as_rgba (bytes : list Z) : outcome (list rgba) :=
  match bytes with
  | [] => Ok []
  | r0 :: g0 :: b0 :: a0 :: rest =>
      let* more := as_rgba rest in
      Ok ({| r := r0; g := g0; b := b0; a := a0 |} :: more)
  | _ => Undefined
  end.

Definition swapDistance : Z := 32.
Definition swapSize : Z := 8.

(** One exchange of [std::swap_ranges]. *)
Definition iter_swap {A : Type} (l : list A) (i j : nat) : list A :=
  match l !! i, l !! j with
  | Some x, Some y => <[i := y]> (<[j := x]> l)
  | _, _ => l
  end.

(** [std::swap_ranges(first1, last1, first2)] *)
Definition swap_ranges {A : Type} (l : list A) (first1 last1 first2 : Z) : list A :=
  foldl (fun acc k => iter_swap acc (Z.to_nat first1 + k) (Z.to_nat first2 + k))
        l (seq 0 (Z.to_nat (last1 - first1))).

(** The [for] loop of [palette_info_resource::Data] that swaps colours;
    [iter] is the position of the loop iterator. *)
Fixpoint swap_loop {A : Type} (fuel : nat) (palette : list A) (iter : Z)
  : outcome (list A * list LogLevel) :=
  if swapDistance <? len palette - iter then
    match fuel with
    | O => OutOfFuel
    | S fuel' =>
        let swapBlock := iter + swapSize in
        if len palette - swapBlock <? swapSize then Ok (palette, [WARN])
        else swap_loop fuel' (swap_ranges palette iter swapBlock swapBlock)
                       (iter + swapDistance)
    end
  else Ok (palette, []).

(** The swap step of [palette_info_resource::Data]. *)
Definition swap_colors {A : Type} (palette : list A) : outcome (list A * list LogLevel) :=
  if 8 <? len palette then swap_loop (length palette) palette 8
  else Ok (palette, []).

(** A palette of [n] colours, told apart by their red component. *)
Definition numbered (n : nat) : list rgba :=
  map (fun i => {| r := Z.of_nat i; g := 0; b := 0; a := 0x80 |}) (seq 0 n).

(** The loop of [Data] that collects the blocks; [RawData] is the
    accessor of the resource. *)
Fixpoint collect_blocks (RawData : Z -> outcome (list Z)) (colorsPerBlock : Z)
    (blocks : list Z) (palette : list rgba) : outcome (list rgba) :=
  match blocks with
  | [] => Ok palette
  | i :: more =>
      let* bytes := RawData i in
      let* block := as_rgba bytes in
      let* _ := ASSERT (len block =? colorsPerBlock) in
      collect_blocks RawData colorsPerBlock more (palette ++ block)
  end.

(** [palette_info_resource::Data] *)
Definition Data (header : palette_info) (RawData : Z -> outcome (list Z))
  : outcome (list rgba * list LogLevel) :=
  let* perBlock := GetColorsPerBlock header in
  let* count := GetBlockCount header in
  let blocks := map Z.of_nat (seq 0 (Z.to_nat count)) in
  let* palette := collect_blocks RawData perBlock blocks [] in
  swap_colors palette.

(** *** The texture header ([sh3_texture_header]) *)

(** The fields of [sh3_texture_header] that the code reads. *)
Record sh3_texture_header : Type := {
  batchHeaderSize : Z;
  texWidth : Z;
  texHeight : Z;
  bpp : Z;
  texSize : Z;
  texFileSize : Z
}.

Definition sizeof_sh3_texture_header : Z := 128.

(** The ranges of the field types. *)
Definition header_wf (h : sh3_texture_header) : bool :=
  (0 <=? batchHeaderSize h) && (batchHeaderSize h <? 2 ^ 32)
  && (0 <=? texWidth h) && (texWidth h <? 2 ^ 16)
  && (0 <=? texHeight h) && (texHeight h <? 2 ^ 16)
  && (0 <=? bpp h) && (bpp h <? 2 ^ 8)
  && (0 <=? texSize h) && (texSize h <? 2 ^ 32)
  && (0 <=? texFileSize h) && (texFileSize h <? 2 ^ 32).

(** [enum PixelFormat] *)
Definition RGBA : Z := 32.
Definition BGR : Z := 24.
Definition RGBA16 : Z := 16.
Definition PALETTE : Z := 8.

(** [sh3_texture_header::GetRealBPP] *)
Definition GetRealBPP (h : sh3_texture_header) : outcome Z :=
  let* p := int_mul (texWidth h) (texHeight h) in
  Ok (if texSize h =? u32 (u32 p * 4) then 32 else bpp h).

(** [sh3_texture_header::Check] *)
Definition Check (h : sh3_texture_header) : outcome bool :=
  let* p := int_mul (texWidth h) (texHeight h) in
  let* real := GetRealBPP h in
  let* q := int_mul p real in
  Ok (texSize h =? u32 q / 8).

(** [sh3_texture_header::DataOffset] *)
Definition DataOffset (h : sh3_texture_header) : outcome Z :=
  let* real := GetRealBPP h in
  Ok (if real =? PALETTE then u32 (texFileSize h - texSize h)
      else sizeof_sh3_texture_header).

(** [sh3_texture_header::DataSize] *)
Definition DataSize (h : sh3_texture_header) : Z := texSize h.

(** [sh3_texture_header::SubHeader<palette_info>] *)
Definition SubHeader_palette_info (h : sh3_texture_header) : Z :=
  u32 (batchHeaderSize h + texFileSize h).

(** A header of 32768 x 32768 pixels at 8 bits that declares 0 bytes. *)
Definition wrapped_header : sh3_texture_header :=
  {| batchHeaderSize := 32; texWidth := 32768; texHeight := 32768; bpp := 8;
     texSize := 0; texFileSize := 96 |}.

(** A header of 64 x 32 pixels that declares 8 bits and 64 * 32 * 4 bytes. *)
Definition mislabelled_header : sh3_texture_header :=
  {| batchHeaderSize := 32; texWidth := 64; texHeight := 32; bpp := 8;
     texSize := 8192; texFileSize := 8192 + 96 |}.

(** A paletted texture of 128 x 64 pixels. *)
Definition distorted_header : sh3_texture_header :=
  {| batchHeaderSize := 32; texWidth := 128; texHeight := 64; bpp := 8;
     texSize := 8192; texFileSize := 8192 + 96 |}.

(** A paletted texture of 112 x 4 pixels. *)
Definition narrow_distorted_header : sh3_texture_header :=
  {| batchHeaderSize := 32; texWidth := 112; texHeight := 4; bpp := 8;
     texSize := 448; texFileSize := 448 + 96 |}.

(** A paletted texture of 16 x 4 pixels. *)
Definition plain_header : sh3_texture_header :=
  {| batchHeaderSize := 32; texWidth := 16; texHeight := 4; bpp := 8;
     texSize := 64; texFileSize := 64 + 96 |}.

(** [n] index bytes that run through 0, 1, ..., 255 again and again. *)
Definition ramp (n : Z) : list Z :=
  map (fun i => Z.of_nat i mod 256) (seq 0 (Z.to_nat n)).

(** *** The decoder ([sh3_texture::Load]) *)

(** [xoffset] for position [i] of a group of 32 indices. *)
Definition xoffset_of (i : Z) (offsetFlipper : bool) : Z :=
  let xoffset := u8 (Z.land (Z.shiftl i 2) 0xf + Z.land (Z.shiftr i 2) 0xf) in
  let xoffset :=
    if (16 <? i) && Z.odd i then Z.land (u8 (Z.lxor xoffset 8)) 0xf
    else xoffset in
  if offsetFlipper then u8 (Z.lxor xoffset 4) else xoffset.

(** The destination [idx] of the index at position [i]. *)
Definition idx_of (w x y : Z) (offsetFlipper : bool) (i : Z) : Z :=
  let tempx := u32 (x + xoffset_of i offsetFlipper) in
  let tempy := u32 (y + (if Z.odd i then 2 else 0)) in
  u32 (u32 (w * tempy) + tempx mod w).

(** The loop [for(unsigned i = 0; i < 32; ++i)], entered at [i] with
    [count] iterations to go; [it] is what the iterator has not passed
    yet. *)
Fixpoint tile (count : nat) (i : Z) (w x y : Z) (offsetFlipper : bool)
    (it iBuffer : list Z) : outcome (list Z * list Z) :=
  match count with
  | O => Ok (it, iBuffer)
  | S count' =>
      match it with
      | [] => Undefined
      | index :: it' =>
          if w =? 0 then Undefined
          else
            let idx := idx_of w x y offsetFlipper i in
            let* _ := ASSERT (idx <=? len iBuffer) in
            if idx <? len iBuffer then
              tile count' (i + 1) w x y offsetFlipper it'
                   (<[Z.to_nat idx := index]> iBuffer)
            else Undefined
      end
  end.

(** The loop [while(true)] over the groups of 32 indices. *)
Fixpoint distortion_loop (fuel : nat) (w h x y : Z) (offsetFlipper : bool)
    (it iBuffer : list Z) : outcome (list Z * list Z) :=
  match fuel with
  | O => OutOfFuel
  | S fuel' =>
      let* (it, iBuffer) := tile 32 0 w x y offsetFlipper it iBuffer in
      let x := u32 (x + 16) in
      if x <? w then distortion_loop fuel' w h x y offsetFlipper it iBuffer
      else
        let x := 0 in
        let y := u32 (y + 1) in
        if y mod 2 =? 0 then
          let y := u32 (y + 2) in
          if h <=? y then Ok (it, iBuffer)
          else
            let offsetFlipper := negb offsetFlipper in
            if y =? h then Ok (it, iBuffer)
            else distortion_loop fuel' w h x y offsetFlipper it iBuffer
        else
          if y =? h then Ok (it, iBuffer)
          else distortion_loop fuel' w h x y offsetFlipper it iBuffer
  end.

(** The loop over [iBuffer] after the distortion loop (texture.cpp:219). *)
Fixpoint lookup_distorted (palette : list rgba) (indices : list Z)
  : outcome (list Z) :=
  match indices with
  | [] => Ok []
  | index :: more =>
      let* _ := ASSERT (index <=? len palette) in
      match palette !! Z.to_nat index with
      | None => Undefined
      | Some pixel =>
          let* data := lookup_distorted palette more in
          Ok (r pixel :: g pixel :: b pixel :: data)
      end
  end.

(** The loop over [RawData()] without distortion (texture.cpp:232). *)
Fixpoint lookup_plain (palette : list rgba) (indices : list Z)
  : outcome (list Z) :=
  match indices with
  | [] => Ok []
  | index :: more =>
      let* _ := ASSERT (len palette <=? index) in
      match palette !! Z.to_nat index with
      | None => Undefined
      | Some pixel =>
          let* data := lookup_plain palette more in
          Ok (r pixel :: g pixel :: b pixel :: data)
      end
  end.

(** The width and height as clamped before the distortion loop. *)
Definition clamp_width (w : Z) : Z :=
  if negb (w mod 16 =? 0) then u16 (w - w mod 16) else w.

Definition clamp_height (h : Z) : Z :=
  if negb (h mod 4 =? 0) then u16 (h - h mod 4) else h.

(** The distorted case: [iBuffer], the clamping, the loop and the
    assertion that the iterator is at the end of [RawData()]. *)
Definition distorted_indices (fuel : nat) (header : sh3_texture_header)
    (RawData : list Z) : outcome (list Z) :=
  let iBuffer := replicate (Z.to_nat (texSize header)) 0 in
  let w := clamp_width (texWidth header) in
  let h := clamp_height (texHeight header) in
  let* (it, iBuffer) := distortion_loop fuel w h 0 0 false RawData iBuffer in
  let* _ := ASSERT (match it with [] => true | _ :: _ => false end) in
  Ok iBuffer.

(** The destination [idx] that the distortion loop computes for the
    [n]-th index of the data when width and height are aligned: the index
    belongs to group [n / 32], where it is number [n mod 32]; the groups
    fill a pass of [w / 16] groups from left to right, and the passes
    begin at the rows 0, 1, 4, 5, 8, 9, ..., with [offsetFlipper] set in
    every second pair of passes. *)
Definition distorted_position (w n : Z) : Z :=
  let group := n / 32 in
  let pass := group / (w / 16) in
  let x := 16 * (group mod (w / 16)) in
  let y := 4 * (pass / 2) + pass mod 2 in
  idx_of w x y (Z.odd (pass / 2)) (n mod 32).

(** *** The image dump and the upload *)

Definition le16 (v : Z) : list Z := [v mod 256; (v / 2 ^ 8) mod 256].

(** [struct tga_header], packed: 18 bytes, with its default member
    initialisers. *)
Definition TYPE_RGB24 : Z := 2.
Definition FLAGS_FLIP : Z := 0x20.

Definition tga_header (width height bpp : Z) : list Z :=
  [0; 0; TYPE_RGB24; 0; 0; 0; 0; 0]
  ++ le16 0 ++ le16 0 ++ le16 width ++ le16 height ++ [bpp; FLAGS_FLIP].

(** [std::numeric_limits<std::streamsize>::max()] *)
Definition STREAMSIZE_MAX : Z := 2 ^ 63 - 1.

(** [DumpRGB2Bitmap]: what is written to [output.tga], which the
    [std::ofstream] has opened and emptied, and what is logged.  [width]
    and [height] are [std::uint32_t]; [data.front()] needs an element. *)
Definition DumpRGB2Bitmap (width height : Z) (data : list Z) (bpp : Z)
  : outcome (list Z * list LogLevel) :=
  let* _ := ASSERT (width <=? 2 ^ 16 - 1) in
  let* _ := ASSERT (height <=? 2 ^ 16 - 1) in
  if (bpp =? 16) || (bpp =? 24) || (bpp =? 32) then
    let* _ := ASSERT (len data <=? STREAMSIZE_MAX / 1) in
    match data with
    | [] => Undefined
    | _ :: _ => Ok (tga_header (u16 width) (u16 height) bpp ++ data, [])
    end
  else Ok ([], [WARN]).

(** The formats of OpenGL that [UploadTexture] chooses from. *)
Inductive GLformat : Type := GL_RGBA | GL_RGB | GL_BGR.
Inductive GLtype : Type := GL_UNSIGNED_BYTE | GL_UNSIGNED_SHORT_5_5_5_1.

(** The [switch(bpp)] of [sh3_texture::UploadTexture]: [srcFormat],
    [dstFormat] and [type]. *)
Definition UploadTexture_formats (bpp : Z)
  : outcome (GLformat * GLformat * GLtype) :=
  if bpp =? RGBA then Ok (GL_RGBA, GL_RGBA, GL_UNSIGNED_BYTE)
  else if bpp =? BGR then Ok (GL_BGR, GL_RGB, GL_UNSIGNED_BYTE)
  else if bpp =? RGBA16 then Ok (GL_RGBA, GL_RGBA, GL_UNSIGNED_SHORT_5_5_5_1)
  else if bpp =? PALETTE then Ok (GL_RGB, GL_RGB, GL_UNSIGNED_BYTE)
  else Fatal.

(** What the end of [sh3_texture::Load] gives to its two consumers: the
    pixel bytes, the sizes and the [bpp] given to [UploadTexture], and the
    [bpp] given to [DumpRGB2Bitmap]. *)
Record uploaded : Type := {
  pixels : list Z;
  width : Z;
  height : Z;
  format : Z;
  dumped : Z
}.

(** The part of [sh3_texture::Load] behind [auto header =
    header_rc.Header()], texture.cpp:124-265, for the copy [header] of the
    header.  The two accessors of [header_rc] that this part calls are
    parameters, each with the outcome of its call: [RawData] stands for
    [header_rc.RawData()] and [palette] for
    [header_rc.SubHeader<palette_info>().Data()].  What comes before
    (texture.cpp:96-121: the two [LoadFromFile], [Check], [die] and
    [Header()]) is not part of this definition.  Of [UploadTexture] the
    [switch] is embedded, the calls of OpenGL are not. *)
Definition Load_from_header (fuel : nat) (header : sh3_texture_header)
    (RawData : outcome (list Z)) (palette : outcome (list rgba))
  : outcome uploaded :=
  let* real := GetRealBPP header in
  if real =? PALETTE then
    let* palette := palette in
    let* _ := ASSERT (len palette <=? 255 + 1) in
    let* _ := int_mul (texWidth header) (texHeight header) in
    let* (data, w, h) :=
      (if 96 <? texWidth header then
         let* RawData := RawData in
         let* iBuffer := distorted_indices fuel header RawData in
         let* data := lookup_distorted palette iBuffer in
         Ok (data, clamp_width (texWidth header),
             clamp_height (texHeight header))
       else
         let* RawData := RawData in
         let* data := lookup_plain palette RawData in
         Ok (data, texWidth header, texHeight header)) in
    let* _ := DumpRGB2Bitmap w h data 24 in
    let* _ := UploadTexture_formats (bpp header) in
    Ok {| pixels := data; width := w; height := h;
          format := bpp header; dumped := 24 |}
  else
    let* dumped :=
      (if real =? RGBA then
         let* data := RawData in
         let* _ := DumpRGB2Bitmap (texWidth header) (texHeight header) data 32 in
         Ok 32
       else if real =? BGR then
         let* data := RawData in
         let* _ := DumpRGB2Bitmap (texWidth header) (texHeight header) data 24 in
         Ok 24
       else if real =? RGBA16 then
         let* data := RawData in
         let* _ := DumpRGB2Bitmap (texWidth header) (texHeight header) data 16 in
         Ok 16
       else Fatal) in
    let* data := RawData in
    match data with
    | [] => Undefined
    | _ :: _ =>
        let* _ := UploadTexture_formats real in
        Ok {| pixels := data; width := texWidth header;
              height := texHeight header; format := real; dumped := dumped |}
    end.

End texture.

(** * Properties *)

(** ** Auxiliary facts *)

Lemma len_nonneg {A : Type} (l : list A) : 0 <= len l.
Proof. unfold len. lia. Qed.

Lemma len_nil {A : Type} : len (@nil A) = 0.
Proof. reflexivity. Qed.

Lemma len_cons {A : Type} (x : A) (l : list A) : len (x :: l) = len l + 1.
Proof. unfold len. cbn [length]. lia. Qed.

Lemma len_app {A : Type} (l k : list A) : len (l ++ k) = len l + len k.
Proof. unfold len. rewrite length_app. lia. Qed.

Lemma len_take {A : Type} (n : Z) (l : list A) :
  0 <= n -> len (take (Z.to_nat n) l) = Z.min n (len l).
Proof. intros Hn. unfold len. rewrite length_take. lia. Qed.

Lemma len_drop {A : Type} (n : Z) (l : list A) :
  0 <= n -> len (drop (Z.to_nat n) l) = Z.max 0 (len l - n).
Proof. intros Hn. unfold len. rewrite length_drop. lia. Qed.

Lemma len_zero_nil {A : Type} (l : list A) : len l = 0 -> l = [].
Proof. destruct l; [reflexivity | rewrite len_cons; pose proof (len_nonneg l); lia]. Qed.

Lemma ASSERT_true (c : bool) : c = true -> ASSERT c = Ok tt.
Proof. intros ->. reflexivity. Qed.

(** In a run [H] that returns, the call bound first has returned too. *)
Tactic Notation "returned" hyp(H) "as" ident(x) ident(E) :=
  match type of H with
  | obind ?c _ = Ok _ =>
      destruct c as [x | | | | |] eqn:E; try discriminate H; cbn [obind] in H
  end.

(** ** [mft::ReadData] *)

Section ReadData_properties.

Import mft.

Lemma gzread_no_fault (s : gz_stream) (n : Z) :
  gz_fault s = None -> 0 <= n ->
  gzread s n = (Z.min n (len (gz_avail s)), take (Z.to_nat n) (gz_avail s),
                {| gz_avail := drop (Z.to_nat n) (gz_avail s); gz_fault := None |}).
Proof.
  intros Hf Hn. unfold gzread. rewrite Hf. now rewrite len_take.
Qed.

Lemma gzread_fault (s : gz_stream) (n : Z) (f : Z * Z) :
  gz_fault s = Some f -> gzread s n = (-1, [], s).
Proof. intros Hf. unfold gzread. now rewrite Hf. Qed.

Lemma ReadData_no_fault (s : gz_stream) (n : Z) :
  gz_fault s = None -> 0 <= n <= INT_MAX ->
  ReadData s n =
    Ok {| rd_count := Z.min n (len (gz_avail s));
          rd_bytes := take (Z.to_nat n) (gz_avail s);
          rd_error :=
            {| result := if Z.min n (len (gz_avail s)) =? n then SUCCESS
                         else if 0 <? Z.min n (len (gz_avail s)) then PARTIAL_READ
                         else END_OF_FILE;
               zlib_err := Z_OK; os_err := 0 |};
          rd_stream := {| gz_avail := drop (Z.to_nat n) (gz_avail s);
                          gz_fault := None |} |}.
Proof.
  intros Hf Hn. unfold ReadData.
  rewrite (ASSERT_true (n <=? INT_MAX)) by lia. cbn [obind].
  rewrite gzread_no_fault by (auto; lia).
  pose proof (len_nonneg (gz_avail s)) as Hl.
  set (m := Z.min n (len (gz_avail s))).
  assert (Hm : 0 <= m <= n) by (unfold m; lia).
  rewrite (ASSERT_true (m <=? n)) by lia. cbn [obind].
  destruct (Z.eqb_spec m n) as [E | E].
  - cbn. rewrite (ASSERT_true (0 <=? m)) by lia. reflexivity.
  - destruct (Z.ltb_spec 0 m) as [P | P].
    + cbn. rewrite (ASSERT_true (0 <=? m)) by lia. reflexivity.
    + assert (m = 0) as -> by lia. reflexivity.
Qed.

Lemma ReadData_fault (s : gz_stream) (n ze oe : Z) :
  gz_fault s = Some (ze, oe) -> gz_wf s -> 0 <= n <= INT_MAX ->
  ReadData s n =
    Ok {| rd_count := 0; rd_bytes := [];
          rd_error := {| result := GZ_ERROR; zlib_err := ze;
                         os_err := if ze =? Z_ERRNO then oe else 0 |};
          rd_stream := s |}.
Proof.
  intros Hf Hwf Hn. unfold ReadData.
  rewrite (ASSERT_true (n <=? INT_MAX)) by lia. cbn [obind].
  rewrite (gzread_fault s n _ Hf).
  rewrite (ASSERT_true (-1 <=? n)) by lia. cbn [obind].
  destruct (Z.eqb_spec (-1) n) as [E | _]; [lia |].
  change (0 <? -1) with false. change (-1 =? 0) with false. cbv iota.
  unfold gz_wf in Hwf. rewrite Hf in Hwf. destruct Hwf as [Hze Hoe].
  unfold set_error, gzerror, errno. rewrite Hf.
  rewrite (ASSERT_true (negb (ze =? Z_OK))) by (apply negb_true_iff, Z.eqb_neq, Hze).
  cbn [obind].
  destruct (Z.eqb_spec ze Z_ERRNO) as [E | E].
  - rewrite (ASSERT_true (negb (oe =? 0))) by (apply negb_true_iff, Z.eqb_neq; auto).
    reflexivity.
  - reflexivity.
Qed.

End ReadData_properties.

Section ReadData_classification.

Import mft.

(** C6, as amended.  A read of [n >= 1] bytes is classified as exactly
    what happened: [SUCCESS] iff [n] bytes were read, [PARTIAL_READ] iff
    between 1 and [n - 1] bytes were read, [END_OF_FILE] iff no byte was
    read and the stream is exhausted, [GZ_ERROR] (with the zlib code and,
    for [Z_ERRNO], the OS error) iff the underlying read failed; a
    stream shorter than [n] never gives [SUCCESS], and the returned
    count agrees with the class.  A read of 0 bytes from a stream
    without a fault is [SUCCESS] with count 0. *)
Theorem ReadData_classification (s : gz_stream) (n : Z) :
  gz_wf s -> 0 <= n <= INT_MAX ->
  exists d, ReadData s n = Ok d
    /\ (1 <= n -> classified s n d)
    /\ (n = 0 -> gz_fault s = None ->
        result (rd_error d) = SUCCESS /\ rd_count d = 0).
Proof.
  intros Hwf Hn. pose proof (len_nonneg (gz_avail s)) as Hl.
  destruct (gz_fault s) as [[ze oe] |] eqn:Hf.
  - eexists. split; [apply (ReadData_fault s n ze oe Hf Hwf Hn) |].
    split; [| intros _ [=]].
    intros Hpos. unfold classified, bytes_read, read_failed, exhausted.
    rewrite (gzread_fault s n _ Hf), Hf. cbn [rd_error rd_count result zlib_err os_err fst snd].
    rewrite len_nil. unfold gz_wf in Hwf. rewrite Hf in Hwf. destruct Hwf as [Hze Hoe].
    unfold gzerror, errno. rewrite Hf.
    repeat split; try congruence; try lia; try (intros; lia).
    + intros [_ [_ [=]]].
    + destruct (Z.eqb_spec ze Z_ERRNO); [reflexivity | contradiction].
    + destruct (Z.eqb_spec ze Z_ERRNO); [auto | contradiction].
  - eexists. split; [apply (ReadData_no_fault s n Hf Hn) |].
    split.
    + intros Hpos. unfold classified, bytes_read, read_failed, exhausted.
      rewrite (gzread_no_fault s n Hf) by lia. rewrite Hf.
      cbn [rd_error rd_count result zlib_err os_err fst snd].
      rewrite len_take by lia.
      set (m := Z.min n (len (gz_avail s))).
      assert (Hm : 0 <= m <= n) by (unfold m; lia).
      destruct (Z.eqb_spec m n) as [E | E];
        [| destruct (Z.ltb_spec 0 m) as [P | P]];
        repeat split; try congruence; try lia; try (intros; lia);
        try (intros [? ?]; lia); try (intros [? [? ?]]; lia).
      apply len_zero_nil. unfold m in *. lia.
    + intros -> _. cbn [rd_error rd_count result].
      assert (Z.min 0 (len (gz_avail s)) = 0) as -> by lia. now cbn.
Qed.

(** The theorem at a stream that holds 3 bytes, read with [n = 8]. *)
Lemma ReadData_classification_witness :
  exists d, ReadData {| gz_avail := [1; 2; 3]; gz_fault := None |} 8 = Ok d
    /\ (1 <= 8 -> classified {| gz_avail := [1; 2; 3]; gz_fault := None |} 8 d)
    /\ (8 = 0 -> @None (Z * Z) = None ->
        result (rd_error d) = SUCCESS /\ rd_count d = 0).
Proof.
  apply (ReadData_classification {| gz_avail := [1; 2; 3]; gz_fault := None |} 8).
  - exact I.
  - unfold INT_MAX. lia.
Defined.

(** C6 as stated fails for a read of 0 bytes at the end of the stream:
    no byte is read and the stream is exhausted, yet the result is
    [SUCCESS], not [END_OF_FILE]. *)
Lemma ReadData_zero_bytes_at_end :
  exists d, ReadData {| gz_avail := []; gz_fault := None |} 0 = Ok d
    /\ result (rd_error d) = SUCCESS
    /\ ~ classified {| gz_avail := []; gz_fault := None |} 0 d.
Proof.
  eexists. split; [reflexivity |]. split; [reflexivity |].
  intros (_ & _ & [_ H] & _).
  assert (E : SUCCESS = END_OF_FILE) by (apply H; repeat split).
  discriminate E.
Qed.

End ReadData_classification.

(** ** Duplicate file names: [mft::ReadNextSection] and [subarc::LoadFile] *)

Section duplicate_names.

Import mft section subarc.

Variable sizeof_header : Z.
Variable header_arcIndex : list Z -> Z.
Variable header_fileSize : list Z -> Z.
Hypothesis sizeof_header_int : 0 <= sizeof_header <= INT_MAX.

Lemma ReadObject_whole (gz : gz_stream) (object bytes rest : list Z) :
  gz_fault gz = None ->
  gz_avail gz = bytes ++ rest ->
  len object = len bytes -> len bytes <= INT_MAX ->
  exists e : read_error,
    ReadObject gz object = Ok (bytes, e, {| gz_avail := rest; gz_fault := None |}).
Proof.
  intros Hf Ha Hlen Hint. pose proof (len_nonneg bytes) as Hnn.
  unfold ReadObject. rewrite ReadData_no_fault by (auto; lia).
  cbn [obind rd_bytes rd_error rd_stream]. rewrite Ha, Hlen.
  assert (Hnat : Z.to_nat (len bytes) = List.length bytes) by (unfold len; lia).
  rewrite Hnat, take_app_length, drop_app_length.
  rewrite drop_ge by (unfold len in Hlen; lia). rewrite app_nil_r.
  eexists. reflexivity.
Qed.

Lemma ReadString_whole (gz : gz_stream) (bytes rest : list Z) :
  gz_fault gz = None ->
  gz_avail gz = bytes ++ rest ->
  len bytes <= INT_MAX ->
  exists e : read_error,
    ReadString gz (len bytes)
    = Ok (len bytes, bytes, e, {| gz_avail := rest; gz_fault := None |}).
Proof.
  intros Hf Ha Hint. pose proof (len_nonneg bytes) as Hnn.
  unfold ReadString. rewrite ASSERT_true by lia. cbn [obind].
  assert (Hbuf : len (replicate (Z.to_nat (len bytes)) 0) = len bytes).
  { unfold len. rewrite length_replicate. lia. }
  rewrite Hbuf. rewrite ReadData_no_fault by (auto; lia).
  cbn [obind rd_bytes rd_error rd_stream rd_count]. rewrite Ha.
  assert (Hnat : Z.to_nat (len bytes) = List.length bytes) by (unfold len; lia).
  rewrite Hnat, take_app_length, drop_app_length.
  rewrite drop_ge by (rewrite length_replicate; lia).
  rewrite app_nil_r, len_app.
  pose proof (len_nonneg rest) as Hrest.
  replace (Z.min (len bytes) (len bytes + len rest)) with (len bytes) by lia.
  rewrite ASSERT_true by lia. cbn [obind].
  rewrite Hnat, firstn_all.
  rewrite ASSERT_true by (apply Z.eqb_refl). cbn [obind].
  eexists. reflexivity.
Qed.

Lemma named_cons (name : string) (e : file_entry) (entries : list file_entry) :
  named name (e :: entries) =
    if has_name name e then e :: named name entries else named name entries.
Proof. reflexivity. Qed.

(** The table after the loop, for a stream that holds the entries: an
    entry read later replaces the one read before under the same name. *)
Lemma ReadNextSection_files_lookup (entries : list file_entry) :
  forall (gz : gz_stream) (m : gmap string Z) (rest : list Z),
    Forall (well_formed sizeof_header header_fileSize) entries ->
    gz_fault gz = None ->
    gz_avail gz = encode entries ++ rest ->
    exists fileList : gmap string Z,
      ReadNextSection_files sizeof_header header_arcIndex header_fileSize
        (List.length entries) gz m
      = Ok (fileList, {| gz_avail := rest; gz_fault := None |})
      /\ forall name : string,
           fileList !! name =
             match last (named name entries) with
             | Some e => Some (arcIndex header_arcIndex e)
             | None => m !! name
             end.
Proof using sizeof_header_int.
  induction entries as [| e entries IH]; intros gz m rest Hall Hf Ha.
  - exists m. split; [| reflexivity].
    destruct gz as [avail fault]. cbn in *. now subst.
  - apply Forall_cons in Hall as [(Hh & Hsize & Hname & n & Hn) Hrest].
    cbn [List.length ReadNextSection_files].
    change (encode (e :: entries)) with ((header e ++ fname e) ++ encode entries) in Ha.
    rewrite <- !app_assoc in Ha.
    destruct (ReadObject_whole gz (replicate (Z.to_nat sizeof_header) 0)
                (header e) _ Hf Ha) as (e1 & ->).
    { unfold len at 1. rewrite length_replicate. lia. }
    { lia. }
    cbn [obind]. cbv beta iota.
    pose proof (len_nonneg (fname e)) as Hnn.
    replace (u64 (header_fileSize (header e) - sizeof_header)) with (len (fname e))
      by (rewrite Hsize; unfold u64; rewrite Z.mod_small;
          [lia | unfold INT_MAX in *; lia]).
    destruct (ReadString_whole {| gz_avail := fname e ++ encode entries ++ rest;
                                  gz_fault := None |}
                (fname e) (encode entries ++ rest) eq_refl eq_refl Hname)
      as (e2 & ->).
    cbn [obind]. cbv beta iota. rewrite Hn. cbn [obind].
    destruct (IH {| gz_avail := encode entries ++ rest; gz_fault := None |}
                (<[n := header_arcIndex (header e)]> m) rest Hrest eq_refl eq_refl)
      as (fileList & Hrun & Hlook).
    exists fileList. split; [exact Hrun |].
    intros name. rewrite Hlook, named_cons. unfold has_name at 1. rewrite Hn.
    destruct (String.eqb_spec n name) as [-> | Hne].
    + rewrite last_cons. destruct (last (named name entries)); [reflexivity |].
      apply lookup_insert_eq.
    + destruct (last (named name entries)); [reflexivity |].
      now apply lookup_insert_ne.
Qed.

Lemma LoadFile_found (s : subarc) (filename : string) (index : Z)
    (buf : list Z) (ins : Z) :
  files s !! filename = Some index ->
  LoadFile s filename buf ins = LoadFile_index s index buf ins.
Proof.
  intros Hm. unfold LoadFile, equal_range. rewrite Hm.
  change (option_list (Some index)) with [index]. cbv iota.
  destruct (LoadFile_index s index buf ins) as [[? ? ? ?] | | | | |]; reflexivity.
Qed.

Lemma LoadFile_missing (s : subarc) (filename : string) (buf : list Z) (ins : Z) :
  files s !! filename = None ->
  LoadFile s filename buf ins =
    Ok {| ret := arcFileNotFound; buffer := buf; insert := ins; log := [] |}.
Proof. intros Hm. unfold LoadFile, equal_range. now rewrite Hm. Qed.

(** What the code does with a name that occurs more than once, in
    general: reading the entries does not fail, the map keeps the index of
    the entry that was read last under the name, and [subarc::LoadFile] on
    a sub-archive with this map finds exactly one match and loads that
    entry. *)
Lemma duplicate_names_resolve_to_last (entries : list file_entry)
    (gz : gz_stream) (rest : list Z) (name : string) :
  Forall (well_formed sizeof_header header_fileSize) entries ->
  gz_fault gz = None ->
  gz_avail gz = encode entries ++ rest ->
  (2 <= List.length (named name entries))%nat ->
  exists (fileList : gmap string Z) (e : file_entry),
    ReadNextSection_files sizeof_header header_arcIndex header_fileSize
      (List.length entries) gz ∅
    = Ok (fileList, {| gz_avail := rest; gz_fault := None |})
    /\ last (named name entries) = Some e
    /\ fileList !! name = Some (arcIndex header_arcIndex e)
    /\ equal_range fileList name = [arcIndex header_arcIndex e]
    /\ forall (p : string) (f : option (list Z)) (buf : list Z) (ins : Z),
         LoadFile {| path := p; file := f; files := fileList |} name buf ins
         = LoadFile_index {| path := p; file := f; files := fileList |}
                          (arcIndex header_arcIndex e) buf ins.
Proof using sizeof_header_int.
  intros Hall Hf Ha Hdup.
  destruct (ReadNextSection_files_lookup entries gz ∅ rest Hall Hf Ha)
    as (fileList & Hrun & Hlook).
  specialize (Hlook name).
  destruct (last (named name entries)) as [e |] eqn:Hlast.
  - exists fileList, e. repeat split; auto.
    + unfold equal_range. now rewrite Hlook.
    + intros p f buf ins. now apply LoadFile_found.
  - apply last_None in Hlast. rewrite Hlast in Hdup. cbn in Hdup. lia.
Qed.

End duplicate_names.

Section duplicate_names_examples.

Import mft section subarc.

(** C1 at its failing input.  A section lists [pic/a.tex] twice, first
    with the index 1 and then with the index 2.  [subarc::LoadFile] takes
    the first entry of the matching range and warns when the range holds
    more; but the map was filled by assignment, so the second entry has
    replaced the first: the range holds the index 2 alone, no warning is
    logged, and entry 2 is loaded where the claim says entry 1. *)
Theorem duplicate_names_first_entry_replaced :
  exists fileList : gmap string Z,
    ReadNextSection_files 4 two_fields_arcIndex two_fields_fileSize 2
      {| gz_avail := encode [two_fields_entry 1 "pic/a.tex";
                             two_fields_entry 2 "pic/a.tex"];
         gz_fault := None |} ∅
    = Ok (fileList, {| gz_avail := []; gz_fault := None |})
    /\ arcIndex two_fields_arcIndex
         <$> head (named "pic/a.tex" [two_fields_entry 1 "pic/a.tex";
                                      two_fields_entry 2 "pic/a.tex"])
       = Some 1
    /\ fileList !! "pic/a.tex" = Some 2
    /\ fileList !! "pic/a.tex" <> Some 1
    /\ equal_range fileList "pic/a.tex" = [2]
    /\ (forall (p : string) (f : option (list Z)) (buf : list Z) (ins : Z),
          LoadFile {| path := p; file := f; files := fileList |}
                   "pic/a.tex" buf ins
          = LoadFile_index {| path := p; file := f; files := fileList |}
                           2 buf ins).
Proof.
  exists (<["pic/a.tex" := 2]> (<["pic/a.tex" := 1]> (∅ : gmap string Z))).
  split; [vm_compute; reflexivity |].
  split; [vm_compute; reflexivity |].
  assert (H2 : (<["pic/a.tex" := 2]> (<["pic/a.tex" := 1]> (∅ : gmap string Z)))
               !! "pic/a.tex" = Some 2) by apply lookup_insert_eq.
  split; [exact H2 |].
  split; [rewrite H2; discriminate |].
  split; [unfold equal_range; now rewrite H2 |].
  intros p f buf ins. now apply LoadFile_found.
Qed.

End duplicate_names_examples.

(** ** A sub-archive that could not be opened *)

Section unusable_subarc.

Import subarc.

Lemma LoadFile_index_closed (s : subarc) (index : Z) (buf : list Z) (ins : Z) :
  file s = None ->
  LoadFile_index s index buf ins =
    Ok {| ret := arcFileNotFound; buffer := buf; insert := ins; log := [] |}.
Proof. intros Hc. unfold LoadFile_index. now rewrite Hc. Qed.

Lemma LoadFile_closed (s : subarc) (filename : string) (buf : list Z) (ins : Z) :
  file s = None ->
  LoadFile s filename buf ins =
    Ok {| ret := arcFileNotFound; buffer := buf; insert := ins; log := [] |}.
Proof.
  intros Hc. unfold LoadFile, equal_range.
  destruct (files s !! filename) as [index |].
  - change (option_list (Some index)) with [index]. cbv iota.
    now rewrite (LoadFile_index_closed s index buf ins Hc).
  - reflexivity.
Qed.

(** C9.  A sub-archive whose file cannot be opened is not left closed:
    [file.open] reports the failure by an exception, which leaves
    [Reopen] and the constructor, and the test [if(!file)] with its error
    message is never reached.  When the file opens and its first four
    bytes are not the magic number 0x20030507, [Reopen] does leave the
    mapping closed, and from then on [LoadFile], by name and by index,
    returns [arcFileNotFound] and leaves the buffer and the insertion
    iterator of the caller as they were. *)
Theorem failed_open_throws (d : disk) (s : subarc) :
  (d (path s) = None -> Reopen d s = Thrown)
  /\ (forall (subarcName : string) (filesMap : gmap string Z),
        d (String.append "data/" (String.append subarcName ".arc")) = None ->
        make d subarcName filesMap = Thrown)
  /\ (forall (bytes : list Z) (m : Z),
        file s = None -> d (path s) = Some bytes ->
        read_u32 bytes 0 = Ok m -> m <> magic ->
        exists s' : subarc,
          Reopen d s = Ok (s', [ERROR])
          /\ file s' = None
          /\ forall (filename : string) (index : Z) (buf : list Z) (ins : Z),
               LoadFile s' filename buf ins =
                 Ok {| ret := arcFileNotFound; buffer := buf; insert := ins;
                       log := [] |}
               /\ LoadFile_index s' index buf ins =
                 Ok {| ret := arcFileNotFound; buffer := buf; insert := ins;
                       log := [] |}).
Proof.
  split; [| split].
  - intros Hopen. unfold Reopen, mapped_file_open. rewrite Hopen.
    now destruct (file s).
  - intros subarcName filesMap Hopen. unfold make, Reopen, mapped_file_open.
    cbn [path file]. now rewrite Hopen.
  - intros bytes m Hclosed Hopen Hread Hm.
    exists {| path := path s; file := None; files := files s |}.
    split.
    + unfold Reopen, mapped_file_open. rewrite Hclosed, Hopen.
      destruct bytes as [| b0 bytes]; [discriminate Hread |].
      cbn [obind]. rewrite Hread. cbn [obind].
      apply Z.eqb_neq in Hm. now rewrite Hm.
    + split; [reflexivity |].
      intros filename index buf ins. split.
      * now apply LoadFile_closed.
      * now apply LoadFile_index_closed.
Qed.

(** The theorem at a directory without files, and at a file whose header
    starts with the magic number of [arc.arc], 0x20030417. *)
Lemma failed_open_throws_witness :
  Reopen (fun _ => None)
         {| path := "data/pic.arc"; file := None;
            files := {[ "pic/a.tex" := 0 ]} |} = Thrown
  /\ make (fun _ => None) "pic" {[ "pic/a.tex" := 0 ]} = Thrown
  /\ exists s' : subarc,
       Reopen (fun _ => Some (le32 0x20030417 ++ le32 1 ++ le32 32 ++ le32 0))
              {| path := "data/pic.arc"; file := None;
                 files := {[ "pic/a.tex" := 0 ]} |} = Ok (s', [ERROR])
       /\ file s' = None
       /\ forall (filename : string) (index : Z) (buf : list Z) (ins : Z),
            LoadFile s' filename buf ins =
              Ok {| ret := arcFileNotFound; buffer := buf; insert := ins;
                    log := [] |}
            /\ LoadFile_index s' index buf ins =
              Ok {| ret := arcFileNotFound; buffer := buf; insert := ins;
                    log := [] |}.
Proof.
  split; [| split].
  - apply (proj1 (failed_open_throws (fun _ => None)
                    {| path := "data/pic.arc"; file := None;
                       files := {[ "pic/a.tex" := 0 ]} |})).
    reflexivity.
  - apply (proj1 (proj2 (failed_open_throws (fun _ => None)
                           {| path := "data/pic.arc"; file := None;
                              files := ∅ |}))).
    reflexivity.
  - apply (proj2 (proj2 (failed_open_throws
                           (fun _ => Some (le32 0x20030417 ++ le32 1
                                           ++ le32 32 ++ le32 0))
                           {| path := "data/pic.arc"; file := None;
                              files := {[ "pic/a.tex" := 0 ]} |}))
                 (le32 0x20030417 ++ le32 1 ++ le32 32 ++ le32 0) 0x20030417);
      [reflexivity | reflexivity | vm_compute; reflexivity | unfold magic; lia].
Defined.

End unusable_subarc.

(** ** [subarc::LoadFile] by index *)

Section LoadFile_by_index.

Import subarc.

(** Where a call that returns leaves the insertion iterator, and what
    it returns. *)
Lemma LoadFile_index_returns (s : subarc) (bytes : list Z) (index : Z)
    (e : subarc_file_entry) (buf : list Z) (ins : Z) (res : loaded) :
  file s = Some bytes ->
  entry_at bytes index = Ok e ->
  LoadFile_index s index buf ins = Ok res ->
  length e <= len buf - ins ->
  ret res = to_int (length e)
  /\ insert res = ins + offset e
  /\ len (buffer res) = len buf.
Proof.
  intros Hfile Hentry Hrun Hspace. unfold LoadFile_index in Hrun.
  rewrite Hfile, Hentry in Hrun.
  returned Hrun as u1 Hsize. returned Hrun as u2 Hend.
  returned Hrun as data Hdata. returned Hrun as u3 Hsp.
  destruct (Z.ltb_spec (len buf - ins) (length e)) as [Hlt | _]; [lia |].
  cbn [obind] in Hrun. returned Hrun as buf' Hcopy.
  destruct (_ <=? _) in Hrun; [| discriminate Hrun].
  injection Hrun as <-. cbn [ret insert buffer]. repeat split.
  unfold copy in Hcopy.
  destruct (Z.leb_spec 0 ins); [| discriminate Hcopy].
  destruct (Z.leb_spec (ins + len data) (len buf)); [| discriminate Hcopy].
  injection Hcopy as <-. pose proof (len_nonneg data).
  rewrite !len_app, len_take, len_drop by lia. lia.
Qed.

(** The size of the buffer after a call that had to resize it: the
    shortfall itself. *)
Lemma LoadFile_index_resized (s : subarc) (bytes : list Z) (index : Z)
    (e : subarc_file_entry) (buf : list Z) (ins : Z) (res : loaded) :
  file s = Some bytes ->
  entry_at bytes index = Ok e ->
  LoadFile_index s index buf ins = Ok res ->
  len buf - ins < length e ->
  len (buffer res) = length e - (len buf - ins).
Proof.
  intros Hfile Hentry Hrun Hspace. unfold LoadFile_index in Hrun.
  rewrite Hfile, Hentry in Hrun.
  returned Hrun as u1 Hsize. returned Hrun as u2 Hend.
  returned Hrun as data Hdata. returned Hrun as u3 Hsp.
  destruct (Z.ltb_spec (len buf - ins) (length e)) as [_ | Hge]; [| lia].
  set (buf' := resize (Z.to_nat (length e - (len buf - ins))) 0 buf) in Hrun.
  assert (Hlen : len buf' = length e - (len buf - ins)).
  { unfold buf', len at 1. rewrite length_resize. lia. }
  destruct (Z.leb_spec 0 (len buf' - length e)) as [Hins | _];
    [| discriminate Hrun].
  cbn [obind] in Hrun. returned Hrun as buf'' Hcopy.
  destruct (_ <=? _) in Hrun; [| discriminate Hrun].
  injection Hrun as <-. cbn [buffer].
  unfold copy in Hcopy.
  destruct (Z.leb_spec (len buf' - length e + len data) (len buf'));
    [| rewrite andb_false_r in Hcopy; discriminate Hcopy].
  destruct (0 <=? len buf' - length e); [| discriminate Hcopy].
  injection Hcopy as <-. pose proof (len_nonneg data).
  rewrite !len_app, len_take, len_drop by lia. lia.
Qed.

(** C2 at a failing input.  The section file holds one file of 4 bytes
    at offset 32; the buffer has 64 bytes and the insertion iterator is
    at its start.  The 4 bytes are copied and 4 is returned, but the
    iterator ends at position 32, the offset of the entry in the section
    file, not at position 4. *)
Theorem LoadFile_index_advances_by_offset :
  LoadFile_index {| path := "data/pic.arc";
                    file := Some (one_file_arc [0xDE; 0xAD; 0xBE; 0xEF]);
                    files := ∅ |}
                 0 (replicate 64 0) 0
  = Ok {| ret := 4;
          buffer := [0xDE; 0xAD; 0xBE; 0xEF] ++ replicate 60 0;
          insert := 32;
          log := [] |}.
Proof. vm_compute. reflexivity. Qed.

(** C3 at a failing input.  The buffer holds 6 bytes and the insertion
    iterator is at its end; the entry has 40 bytes.  The shortfall is 40,
    and the buffer is resized to 40 bytes, not to 6 + 40: the 6 bytes
    stored before are overwritten by the file. *)
Theorem LoadFile_index_resizes_to_shortfall :
  LoadFile_index {| path := "data/pic.arc";
                    file := Some (one_file_arc (replicate 40 0xAB));
                    files := ∅ |}
                 0 [1; 2; 3; 4; 5; 6] 6
  = Ok {| ret := 40;
          buffer := replicate 40 0xAB;
          insert := 32;
          log := [] |}.
Proof. vm_compute. reflexivity. Qed.

End LoadFile_by_index.

(** ** [resource::IsLoaded] and [resource::LoadFromFile] *)

Section resource_loading.

Import resource.

(** The header of [include/SH3/arc/resource.hpp] reports a filled buffer
    as loaded and an empty one as not loaded. *)
Lemma IsLoaded_hpp_spec (raw : list Z) :
  sizeof_this <= len raw \/ raw = [] ->
  IsLoaded_hpp raw = Ok (negb (len raw =? 0)).
Proof.
  intros [Hsize | ->]; [| reflexivity].
  destruct raw as [| x raw]; [reflexivity |].
  unfold IsLoaded_hpp, AssertSize. rewrite ASSERT_true by lia. cbn [obind].
  rewrite len_cons in *. pose proof (len_nonneg raw).
  destruct (Z.eqb_spec (len raw + 1) 0); [lia | reflexivity].
Qed.

(** With [IsLoaded] as in [include/SH3/arc/resource.hpp], [LoadFromFile]
    on an unloaded resource keeps what the locator delivers if the header
    check passes, and clears it otherwise. *)
Lemma LoadFromFile_hpp_checks (header_Check : list Z -> bool)
    (locator : subarc.subarc) (filename : string) (raw : list Z) :
  mft_LoadFile locator filename [] = Ok raw ->
  sizeof_this <= len raw ->
  LoadFromFile_hpp header_Check locator filename []
  = Ok (if header_Check raw then raw else []).
Proof.
  intros Hload Hsize. unfold LoadFromFile_hpp. cbn [IsLoaded_hpp obind ASSERT negb].
  rewrite Hload. cbn [obind].
  rewrite IsLoaded_hpp_spec by (now left).
  assert (Hne : (len raw =? 0) = false)
    by (apply Z.eqb_neq; unfold sizeof_this in Hsize; lia).
  rewrite Hne. cbn [negb obind]. unfold Header_hpp.
  rewrite IsLoaded_hpp_spec by (now left). rewrite Hne. cbn [negb obind ASSERT].
  now destruct (header_Check raw).
Qed.

(** C5 at its failing inputs.  [IsLoaded] answers [false] for every
    buffer that holds bytes, and for the empty buffer it runs into the
    size assertion; so [LoadFromFile] on an unloaded resource stops at its
    first assertion, for every header check, locator and file name, and
    never gets to load or to check anything. *)
Theorem IsLoaded_inverted :
  (forall (x : Z) (raw : list Z), IsLoaded (x :: raw) = Ok false)
  /\ IsLoaded [] = AssertFail
  /\ (forall (header_Check : list Z -> bool) (locator : subarc.subarc)
             (filename : string),
        LoadFromFile header_Check locator filename [] = AssertFail)
  /\ (forall (header_Check : list Z -> bool) (x : Z) (raw : list Z),
        Check header_Check (x :: raw) = Ok false).
Proof. repeat split. Qed.

End resource_loading.

(** ** The colour swap of [palette_info_resource::Data] *)

Section palette_swap.

Import texture.

(** C4 at its failing input, and below it.  A palette of at most 40
    colours leaves the swap step as it entered it, without a log entry:
    with 40 colours the loop iterator at position 8 has 32 colours in
    front of it, and the loop runs only while there are more than 32. *)
Theorem swap_colors_up_to_40 {A : Type} (palette : list A) :
  len palette <= 40 ->
  swap_colors palette = Ok (palette, []).
Proof.
  intros Hlen. unfold swap_colors.
  destruct (Z.ltb_spec 8 (len palette)) as [_ | _]; [| reflexivity].
  assert (Hstop : (swapDistance <? len palette - 8) = false)
    by (apply Z.ltb_ge; unfold swapDistance; lia).
  destruct (List.length palette); cbn [swap_loop]; now rewrite Hstop.
Qed.

(** The theorem at the palette of 40 numbered colours. *)
Lemma swap_colors_up_to_40_witness :
  swap_colors (numbered 40) = Ok (numbered 40, []).
Proof. apply (swap_colors_up_to_40 (numbered 40)). vm_compute. discriminate. Defined.

(** With 41 colours the ranges [8,16) and [16,24) are exchanged once. *)
Lemma swap_colors_41 :
  swap_colors (numbered 41) =
    Ok (take 8 (numbered 41) ++ take 8 (drop 16 (numbered 41))
        ++ take 8 (drop 8 (numbered 41)) ++ drop 24 (numbered 41), []).
Proof. vm_compute. reflexivity. Qed.

(** With 256 colours the exchange happens in the runs that start at
    8, 40, ..., 200; the colours from 224 on stay where they are. *)
Lemma swap_colors_256 :
  exists swapped : list rgba,
    swap_colors (numbered 256) = Ok (swapped, [])
    /\ take 8 (drop 8 swapped) = take 8 (drop 16 (numbered 256))
    /\ take 8 (drop 200 swapped) = take 8 (drop 208 (numbered 256))
    /\ drop 224 swapped = drop 224 (numbered 256).
Proof. eexists. split; [vm_compute; reflexivity |]. repeat split. Qed.

End palette_swap.

(** ** The real bit depth *)

Section real_bpp.

Import texture.

Lemma header_wf_ranges (h : sh3_texture_header) :
  header_wf h = true ->
  0 <= texWidth h < 2 ^ 16 /\ 0 <= texHeight h < 2 ^ 16
  /\ 0 <= bpp h < 2 ^ 8 /\ 0 <= texSize h < 2 ^ 32.
Proof.
  unfold header_wf. rewrite !andb_true_iff, !Z.leb_le, !Z.ltb_lt. lia.
Qed.

Lemma int_mul_in_range (x y : Z) :
  0 <= x * y <= INT_MAX -> int_mul x y = Ok (x * y).
Proof.
  intros Hr. unfold int_mul.
  destruct (Z.leb_spec INT_MIN (x * y)); [| unfold INT_MIN in *; lia].
  destruct (Z.leb_spec (x * y) INT_MAX); [reflexivity | lia].
Qed.

Lemma size_of_texture_nonneg (h : sh3_texture_header) :
  header_wf h = true -> 0 <= texWidth h * texHeight h < 2 ^ 32.
Proof.
  intros Hwf. apply header_wf_ranges in Hwf. nia.
Qed.

Lemma GetRealBPP_defined (h : sh3_texture_header) :
  header_wf h = true ->
  texWidth h * texHeight h <= INT_MAX ->
  GetRealBPP h =
    Ok (if texSize h =? (texWidth h * texHeight h * 4) mod 2 ^ 32 then 32 else bpp h).
Proof.
  intros Hwf Hint. pose proof (size_of_texture_nonneg h Hwf) as Hp.
  unfold GetRealBPP. rewrite int_mul_in_range by lia. cbn [obind].
  unfold u32. now rewrite Z.mul_mod_idemp_l by lia.
Qed.

(** C7, as amended.  [GetRealBPP] returns 32 whenever the declared size
    equals width x height x 4, whatever the declared bpp, and for such a
    texture the part of [sh3_texture::Load] behind the header takes the
    32-bit RGBA branch: it dumps the raw bytes with 32 bits and uploads
    them as RGBA, and it asks neither for the palette nor for the
    distortion loop.  [GetRealBPP] returns 32 as well when the declared
    size equals width x height x 4 only modulo 2^32, and the declared bpp
    in every other case (for a width x height that an [int] holds). *)
Theorem GetRealBPP_override (h : sh3_texture_header) :
  header_wf h = true ->
  (texSize h = texWidth h * texHeight h * 4 ->
     GetRealBPP h = Ok 32
     /\ forall (fuel : nat) (RawData : outcome (list Z))
               (palette : outcome (list rgba)),
          Load_from_header fuel h RawData palette =
            let* data := RawData in
            let* _ := DumpRGB2Bitmap (texWidth h) (texHeight h) data 32 in
            match data with
            | [] => Undefined
            | _ :: _ =>
                Ok {| pixels := data; width := texWidth h; height := texHeight h;
                      format := RGBA; dumped := 32 |}
            end)
  /\ (texWidth h * texHeight h <= INT_MAX ->
      GetRealBPP h =
        Ok (if texSize h =? (texWidth h * texHeight h * 4) mod 2 ^ 32
            then 32 else bpp h)).
Proof.
  intros Hwf. split; [| apply (GetRealBPP_defined h Hwf)].
  intros Hsize. pose proof (header_wf_ranges h Hwf) as (_ & _ & _ & Hs).
  pose proof (size_of_texture_nonneg h Hwf) as Hp.
  assert (Hreal : GetRealBPP h = Ok 32).
  { rewrite GetRealBPP_defined by (auto; unfold INT_MAX; lia).
    rewrite Z.mod_small by lia. now rewrite Hsize, Z.eqb_refl. }
  split; [exact Hreal |].
  intros fuel RawData palette. unfold Load_from_header. rewrite Hreal.
  cbn [obind]. change (32 =? PALETTE) with false. change (32 =? RGBA) with true.
  cbv iota. destruct RawData as [data | | | | |]; try reflexivity.
  cbn [obind].
  destruct (DumpRGB2Bitmap (texWidth h) (texHeight h) data 32)
    as [written | | | | |]; reflexivity.
Qed.

(** The theorem at a header of 64 x 32 pixels with bpp = 8 and 8192 bytes. *)
Lemma GetRealBPP_override_witness :
  GetRealBPP mislabelled_header = Ok 32
  /\ (forall (fuel : nat) (RawData : outcome (list Z))
             (palette : outcome (list rgba)),
        Load_from_header fuel mislabelled_header RawData palette =
          let* data := RawData in
          let* _ := DumpRGB2Bitmap (texWidth mislabelled_header)
                                   (texHeight mislabelled_header) data 32 in
          match data with
          | [] => Undefined
          | _ :: _ =>
              Ok {| pixels := data; width := texWidth mislabelled_header;
                    height := texHeight mislabelled_header;
                    format := RGBA; dumped := 32 |}
          end)
  /\ GetRealBPP mislabelled_header =
       Ok (if texSize mislabelled_header
              =? (texWidth mislabelled_header * texHeight mislabelled_header * 4)
                 mod 2 ^ 32
           then 32 else bpp mislabelled_header).
Proof.
  destruct (GetRealBPP_override mislabelled_header eq_refl) as [Hexact Hwrapped].
  destruct (Hexact eq_refl) as [Hreal Hbranch].
  split; [exact Hreal |]. split; [exact Hbranch |].
  apply Hwrapped. vm_compute. discriminate.
Defined.

(** C7 as stated fails in its second half: for 32768 x 32768 pixels the
    product width x height x 4 is 2^32, the declared size 0 differs from
    it, and [GetRealBPP] still returns 32 and not the declared 8. *)
Lemma GetRealBPP_wrapped_size :
  header_wf wrapped_header = true
  /\ texSize wrapped_header
     <> texWidth wrapped_header * texHeight wrapped_header * 4
  /\ bpp wrapped_header = 8
  /\ GetRealBPP wrapped_header = Ok 32
  /\ GetRealBPP wrapped_header <> Ok (bpp wrapped_header).
Proof. repeat split; try discriminate. Qed.

End real_bpp.

(** ** The distortion loop *)

Section distortion.

Import texture.

Lemma u32_small (v : Z) : 0 <= v < 2 ^ 32 -> u32 v = v.
Proof. intros Hv. unfold u32. now apply Z.mod_small. Qed.

(** The clamped width [w] and height [h]: [W] groups of 16 columns and
    [H] groups of 4 rows. *)
Variables w h W H : Z.
Hypothesis w_tiles : w = 16 * W.
Hypothesis h_rows : h = 4 * H.
Hypothesis W_pos : 0 < W.
Hypothesis H_pos : 0 < H.
Hypothesis w_u16 : w < 2 ^ 16.
Hypothesis h_u16 : h < 2 ^ 16.

Lemma area_u32 : 0 < w * h < 2 ^ 32.
Proof using w_tiles h_rows W_pos H_pos w_u16 h_u16. nia. Qed.

(** Every destination index computed for a row [y] with [y + 2 < h]
    lies inside the [w * h] indices (texture.cpp:181). *)
Lemma idx_of_in_range (x y : Z) (offsetFlipper : bool) (i : Z) :
  0 <= y -> y + 2 < h ->
  0 <= idx_of w x y offsetFlipper i < w * h.
Proof using w_tiles h_rows W_pos H_pos w_u16 h_u16.
  intros Hy0 Hy2. unfold idx_of.
  set (tempx := u32 (x + xoffset_of i offsetFlipper)).
  set (c := if Z.odd i then 2 else 0).
  assert (Hc : 0 <= c <= 2) by (unfold c; destruct (Z.odd i); lia).
  assert (Hw : 0 < w) by lia.
  pose proof (Z.mod_pos_bound tempx w Hw) as Hm.
  pose proof area_u32 as Ha.
  rewrite (u32_small (y + c)) by lia.
  assert (Hrow : 0 <= w * (y + c) <= w * (h - 1)) by nia.
  rewrite (u32_small (w * (y + c))) by nia.
  rewrite u32_small by nia. nia.
Qed.

(** One group of 32 indices: the loop passes [count] indices and leaves
    the size of [iBuffer] as it is. *)
Lemma tile_runs (x y : Z) (offsetFlipper : bool) (count : nat) :
  0 <= y -> y + 2 < h ->
  forall (i : Z) (it iBuffer : list Z),
    (count <= List.length it)%nat ->
    w * h <= len iBuffer ->
    exists iBuffer' : list Z,
      tile count i w x y offsetFlipper it iBuffer = Ok (drop count it, iBuffer')
      /\ List.length iBuffer' = List.length iBuffer.
Proof using w_tiles h_rows W_pos H_pos w_u16 h_u16.
  intros Hy0 Hy2. induction count as [| count IH]; intros i it iBuffer Hit Hbuf.
  - exists iBuffer. split; reflexivity.
  - destruct it as [| index it]; [cbn in Hit; lia |].
    cbn [tile]. destruct (Z.eqb_spec w 0) as [E | _]; [lia |].
    pose proof (idx_of_in_range x y offsetFlipper i Hy0 Hy2) as Hidx.
    rewrite ASSERT_true by lia. cbn [obind].
    destruct (Z.ltb_spec (idx_of w x y offsetFlipper i) (len iBuffer)) as [_ | Hge];
      [| lia].
    destruct (IH (i + 1) it (<[Z.to_nat (idx_of w x y offsetFlipper i) := index]> iBuffer))
      as (iBuffer' & Hrun & Hlen).
    + cbn in Hit. lia.
    + unfold len. rewrite length_insert. exact Hbuf.
    + exists iBuffer'. split; [exact Hrun |].
      now rewrite Hlen, length_insert.
Qed.

(** The loop from the group in column [16 * c] of row [4 * q + s]
    ([s] is 0 or 1): it returns after [W * (2 * (H - q) - s) - c] groups,
    each of 32 indices. *)
Lemma distortion_loop_runs (fuel : nat) :
  forall (c q s : Z) (offsetFlipper : bool) (it iBuffer : list Z),
    0 <= c < W -> 0 <= q < H -> 0 <= s <= 1 ->
    W * (2 * (H - q) - s) - c <= Z.of_nat fuel ->
    32 * (W * (2 * (H - q) - s) - c) <= len it ->
    w * h <= len iBuffer ->
    exists iBuffer' : list Z,
      distortion_loop fuel w h (16 * c) (4 * q + s) offsetFlipper it iBuffer
        = Ok (drop (Z.to_nat (32 * (W * (2 * (H - q) - s) - c))) it, iBuffer')
      /\ List.length iBuffer' = List.length iBuffer.
Proof using w_tiles h_rows W_pos H_pos w_u16 h_u16.
  induction fuel as [| fuel IH];
    intros c q s offsetFlipper it iBuffer Hc Hq Hs Hfuel Hit Hbuf.
  - exfalso. nia.
  - assert (Hleft : 1 <= W * (2 * (H - q) - s) - c) by nia.
    cbn [distortion_loop].
    destruct (tile_runs (16 * c) (4 * q + s) offsetFlipper 32
                ltac:(lia) ltac:(lia) 0 it iBuffer) as (iB1 & Hrun & Hlen1).
    { unfold len in Hit. lia. }
    { exact Hbuf. }
    rewrite Hrun. cbn [obind]. cbv beta iota.
    assert (Hbuf1 : w * h <= len iB1) by (unfold len in *; rewrite Hlen1; exact Hbuf).
    rewrite (u32_small (16 * c + 16)) by lia.
    destruct (Z.ltb_spec (16 * c + 16) w) as [Hin | Hout].
    + (* the next group of the same row *)
      replace (16 * c + 16) with (16 * (c + 1)) by lia.
      destruct (IH (c + 1) q s offsetFlipper (drop 32 it) iB1
                  ltac:(lia) ltac:(lia) ltac:(lia) ltac:(lia))
        as (iB2 & Hrest & Hlen2).
      { unfold len in *. rewrite length_drop. lia. }
      { exact Hbuf1. }
      exists iB2. split; [| congruence].
      rewrite Hrest, drop_drop. do 3 f_equal. lia.
    + (* the row is complete *)
      assert (c = W - 1) as -> by lia.
      rewrite (u32_small (4 * q + s + 1)) by lia.
      assert (s = 0 \/ s = 1) as [-> | ->] by lia.
      * replace ((4 * q + 0 + 1) mod 2) with 1
          by (symmetry; Z.div_mod_to_equations; lia).
        change (1 =? 0) with false. cbv iota.
        destruct (Z.eqb_spec (4 * q + 0 + 1) h) as [E | _]; [lia |].
        replace (4 * q + 0 + 1) with (4 * q + 1) by lia.
        change 0 with (16 * 0) at 1.
        destruct (IH 0 q 1 offsetFlipper (drop 32 it) iB1
                    ltac:(lia) ltac:(lia) ltac:(lia) ltac:(lia))
          as (iB2 & Hrest & Hlen2).
        { unfold len in *. rewrite length_drop. lia. }
        { exact Hbuf1. }
        exists iB2. split; [| congruence].
        rewrite Hrest, drop_drop. do 3 f_equal. lia.
      * replace ((4 * q + 1 + 1) mod 2) with 0
          by (symmetry; Z.div_mod_to_equations; lia).
        change (0 =? 0) with true. cbv iota.
        rewrite (u32_small (4 * q + 1 + 1 + 2)) by lia.
        destruct (Z.leb_spec h (4 * q + 1 + 1 + 2)) as [Hend | Hmore].
        -- exists iB1. split; [| exact Hlen1].
           do 3 f_equal. nia.
        -- destruct (Z.eqb_spec (4 * q + 1 + 1 + 2) h) as [E | _]; [lia |].
           replace (4 * q + 1 + 1 + 2) with (4 * (q + 1) + 0) by lia.
           change 0 with (16 * 0) at 1.
           destruct (IH 0 (q + 1) 0 (negb offsetFlipper) (drop 32 it) iB1
                       ltac:(lia) ltac:(lia) ltac:(lia) ltac:(lia))
             as (iB2 & Hrest & Hlen2).
           { unfold len in *. rewrite length_drop. lia. }
           { exact Hbuf1. }
           exists iB2. split; [| congruence].
           rewrite Hrest, drop_drop. do 3 f_equal. lia.
Qed.

End distortion.

Section distortion_budget.

Import texture.

Lemma distortion_loop_S (fuel : nat) (w h x y : Z) (offsetFlipper : bool)
    (it iBuffer : list Z) :
  distortion_loop (S fuel) w h x y offsetFlipper it iBuffer =
    let* (it, iBuffer) := tile 32 0 w x y offsetFlipper it iBuffer in
    let x := u32 (x + 16) in
    if x <? w then distortion_loop fuel w h x y offsetFlipper it iBuffer
    else
      let x := 0 in
      let y := u32 (y + 1) in
      if y mod 2 =? 0 then
        let y := u32 (y + 2) in
        if h <=? y then Ok (it, iBuffer)
        else
          let offsetFlipper := negb offsetFlipper in
          if y =? h then Ok (it, iBuffer)
          else distortion_loop fuel w h x y offsetFlipper it iBuffer
      else
        if y =? h then Ok (it, iBuffer)
        else distortion_loop fuel w h x y offsetFlipper it iBuffer.
Proof. reflexivity. Qed.

(** A larger budget does not change what the loop returns. *)
Lemma distortion_loop_more_fuel (fuel : nat) :
  forall (w h x y : Z) (offsetFlipper : bool) (it iBuffer : list Z)
         (res : list Z * list Z),
    distortion_loop fuel w h x y offsetFlipper it iBuffer = Ok res ->
    distortion_loop (S fuel) w h x y offsetFlipper it iBuffer = Ok res.
Proof.
  induction fuel as [| fuel IH]; intros w h x y offsetFlipper it iBuffer res Hrun;
    [discriminate Hrun |].
  rewrite distortion_loop_S in Hrun. rewrite distortion_loop_S.
  destruct (tile 32 0 w x y offsetFlipper it iBuffer) as [[it1 iB1] | | | | |];
    try discriminate Hrun.
  cbn [obind] in *. cbv beta iota zeta in *.
  repeat match goal with
         | |- context [if ?c then _ else _] => destruct c
         end; auto.
Qed.

Lemma distortion_loop_fuel_le (fuel fuel' : nat) :
  (fuel <= fuel')%nat ->
  forall (w h x y : Z) (offsetFlipper : bool) (it iBuffer : list Z)
         (res : list Z * list Z),
    distortion_loop fuel w h x y offsetFlipper it iBuffer = Ok res ->
    distortion_loop fuel' w h x y offsetFlipper it iBuffer = Ok res.
Proof.
  induction 1 as [| fuel' _ IH]; intros w h x y offsetFlipper it iBuffer res Hrun.
  - exact Hrun.
  - apply distortion_loop_more_fuel, IH, Hrun.
Qed.

(** Two runs of the loop on the same input return the same, whatever
    their budgets. *)
Lemma distortion_loop_deterministic (fuel1 fuel2 : nat) (w h x y : Z)
    (offsetFlipper : bool) (it iBuffer : list Z) (res1 res2 : list Z * list Z) :
  distortion_loop fuel1 w h x y offsetFlipper it iBuffer = Ok res1 ->
  distortion_loop fuel2 w h x y offsetFlipper it iBuffer = Ok res2 ->
  res1 = res2.
Proof.
  intros H1 H2.
  apply (distortion_loop_fuel_le fuel1 (Nat.max fuel1 fuel2)) in H1; [| lia].
  apply (distortion_loop_fuel_le fuel2 (Nat.max fuel1 fuel2)) in H2; [| lia].
  congruence.
Qed.

End distortion_budget.

(** ** The distorted texture as a whole *)

Section distorted_texture.

Import texture.

Lemma int_mul_Ok (x y p : Z) :
  int_mul x y = Ok p -> p = x * y /\ INT_MIN <= p <= INT_MAX.
Proof.
  unfold int_mul.
  destruct (Z.leb_spec INT_MIN (x * y)); [| discriminate].
  destruct (Z.leb_spec (x * y) INT_MAX); [| discriminate].
  cbn. intros [= <-]. lia.
Qed.

(** A header that passes [Check] with a real bit depth of 8 declares
    exactly one byte per pixel. *)
Lemma paletted_size (header : sh3_texture_header) :
  header_wf header = true ->
  Check header = Ok true ->
  GetRealBPP header = Ok PALETTE ->
  texSize header = texWidth header * texHeight header.
Proof.
  intros Hwf Hcheck Hreal. unfold Check in Hcheck. rewrite Hreal in Hcheck.
  destruct (int_mul (texWidth header) (texHeight header)) as [p | | | | |] eqn:Hp;
    try discriminate Hcheck.
  cbn [obind] in Hcheck.
  destruct (int_mul p PALETTE) as [q | | | | |] eqn:Hq; try discriminate Hcheck.
  cbn [obind] in Hcheck. injection Hcheck as Hcheck.
  apply Z.eqb_eq in Hcheck.
  apply int_mul_Ok in Hp as [-> _]. apply int_mul_Ok in Hq as [-> Hq].
  pose proof (size_of_texture_nonneg header Hwf) as Hnn.
  unfold PALETTE, INT_MAX in *.
  rewrite u32_small in Hcheck by lia.
  rewrite Hcheck. apply Z.div_mul. lia.
Qed.

Lemma clamp_width_aligned (w : Z) : w mod 16 = 0 -> clamp_width w = w.
Proof. intros Hw. unfold clamp_width. now rewrite Hw. Qed.

Lemma clamp_height_aligned (h : Z) : h mod 4 = 0 -> clamp_height h = h.
Proof. intros Hh. unfold clamp_height. now rewrite Hh. Qed.

(** The distortion loop on a paletted texture with aligned sizes: under
    every sufficient budget it returns with the iterator at the end of the
    index range. *)
Lemma distortion_loop_aligned (header : sh3_texture_header) (RawData : list Z) :
  header_wf header = true ->
  96 < texWidth header -> texWidth header mod 16 = 0 ->
  texHeight header <> 0 -> texHeight header mod 4 = 0 ->
  texSize header = texWidth header * texHeight header ->
  len RawData = texWidth header * texHeight header ->
  exists iBuffer : list Z,
    len iBuffer = texWidth header * texHeight header
    /\ forall fuel : nat,
         texWidth header * texHeight header <= 32 * Z.of_nat fuel ->
         distortion_loop fuel (texWidth header) (texHeight header) 0 0 false
           RawData (replicate (Z.to_nat (texSize header)) 0) = Ok ([], iBuffer).
Proof.
  intros Hwf Hw96 Hw16 Hh0 Hh4 Hsize Hraw.
  pose proof (header_wf_ranges header Hwf) as (Hw & Hh & _ & _).
  set (w := texWidth header) in *. set (h := texHeight header) in *.
  set (W := w / 16). set (H := h / 4).
  assert (HwW : w = 16 * W) by (unfold W; Z.div_mod_to_equations; lia).
  assert (HhH : h = 4 * H) by (unfold H; Z.div_mod_to_equations; lia).
  assert (HW : 0 < W) by lia.
  assert (HH : 0 < H) by lia.
  set (iBuffer0 := replicate (Z.to_nat (texSize header)) 0).
  assert (Hbuf0 : len iBuffer0 = w * h).
  { unfold iBuffer0, len. rewrite length_replicate. nia. }
  set (fuel0 := Z.to_nat (2 * W * H)).
  destruct (distortion_loop_runs w h W H HwW HhH HW HH ltac:(lia) ltac:(lia)
              fuel0 0 0 0 false RawData iBuffer0
              ltac:(lia) ltac:(lia) ltac:(lia))
    as (iBuffer & Hrun & Hlen).
  { unfold fuel0. nia. }
  { rewrite Hraw. nia. }
  { lia. }
  change (16 * 0) with 0 in Hrun. change (4 * 0 + 0) with 0 in Hrun.
  rewrite drop_ge in Hrun by (unfold len in Hraw; nia).
  exists iBuffer. split; [unfold len in *; lia |].
  intros fuel Hfuel.
  apply (distortion_loop_fuel_le fuel0 fuel); [unfold fuel0; nia | exact Hrun].
Qed.

(** With aligned sizes nothing is clamped. *)
Lemma distorted_indices_unclamped (fuel : nat) (header : sh3_texture_header)
    (RawData : list Z) :
  texWidth header mod 16 = 0 -> texHeight header mod 4 = 0 ->
  distorted_indices fuel header RawData =
    let* (it, iBuffer) :=
      distortion_loop fuel (texWidth header) (texHeight header) 0 0 false
        RawData (replicate (Z.to_nat (texSize header)) 0) in
    let* _ := ASSERT (match it with [] => true | _ :: _ => false end) in
    Ok iBuffer.
Proof.
  intros Hw16 Hh4. unfold distorted_indices.
  now rewrite (clamp_width_aligned _ Hw16), (clamp_height_aligned _ Hh4).
Qed.

End distorted_texture.

(** ** The palette lookups of [sh3_texture::Load] *)

Section palette_lookup.

Import texture.

(** With 256 colours, the assertion of the distorted case
    (texture.cpp:221) holds for every byte, and the subscript is inside
    the palette. *)
Lemma lookup_distorted_in_bounds (palette : list rgba) (indices : list Z) :
  len palette = 256 ->
  Forall (fun index => 0 <= index < 256) indices ->
  exists data : list Z,
    lookup_distorted palette indices = Ok data
    /\ len data = 3 * len indices.
Proof.
  intros Hpal. induction 1 as [| index more Hindex _ (data & Hrun & Hlen)].
  - exists []. split; reflexivity.
  - cbn [lookup_distorted]. rewrite ASSERT_true by lia. cbn [obind].
    destruct (palette !! Z.to_nat index) as [pixel |] eqn:Hpix.
    + rewrite Hrun. cbn [obind]. eexists. split; [reflexivity |].
      rewrite !len_cons. lia.
    + apply lookup_ge_None in Hpix. unfold len in Hpal. lia.
Qed.

(** The assertion of the plain case (texture.cpp:234) fails for every
    index that is a subscript inside the palette. *)
Lemma lookup_plain_in_bounds_fails (palette : list rgba) (index : Z)
    (more : list Z) :
  index < len palette ->
  lookup_plain palette (index :: more) = AssertFail.
Proof.
  intros Hin. cbn [lookup_plain].
  destruct (Z.leb_spec (len palette) index); [lia | reflexivity].
Qed.

(** The plain case returns for an empty index range only. *)
Lemma lookup_plain_returns (palette : list rgba) (indices data : list Z) :
  Forall (fun index => 0 <= index) indices ->
  lookup_plain palette indices = Ok data -> indices = [].
Proof.
  intros Hpos Hrun. destruct indices as [| index more]; [reflexivity |].
  exfalso. inversion Hpos as [| ? ? Hindex _]; subst.
  cbn [lookup_plain] in Hrun.
  destruct (Z.leb_spec (len palette) index) as [Hout | _];
    [| discriminate Hrun].
  cbn [ASSERT obind] in Hrun.
  destruct (palette !! Z.to_nat index) as [pixel |] eqn:Hpix;
    [| discriminate Hrun].
  apply lookup_lt_Some in Hpix. unfold len in Hout. lia.
Qed.

(** The indices in [iBuffer] are bytes when the index range holds bytes. *)
Lemma tile_keeps_bytes (count : nat) :
  forall (i w x y : Z) (offsetFlipper : bool) (it iBuffer it' iBuffer' : list Z),
    tile count i w x y offsetFlipper it iBuffer = Ok (it', iBuffer') ->
    Forall (fun index => 0 <= index < 256) it ->
    Forall (fun index => 0 <= index < 256) iBuffer ->
    Forall (fun index => 0 <= index < 256) it'
    /\ Forall (fun index => 0 <= index < 256) iBuffer'.
Proof.
  induction count as [| count IH];
    intros i w x y offsetFlipper it iBuffer it' iBuffer' Hrun Hit Hbuf.
  - cbn in Hrun. injection Hrun as <- <-. now split.
  - cbn [tile] in Hrun. destruct it as [| index it]; [discriminate Hrun |].
    destruct (w =? 0); [discriminate Hrun |].
    destruct (ASSERT (idx_of w x y offsetFlipper i <=? len iBuffer));
      try discriminate Hrun.
    cbn [obind] in Hrun.
    destruct (idx_of w x y offsetFlipper i <? len iBuffer); [| discriminate Hrun].
    apply Forall_cons in Hit as [Hindex Hit].
    apply (IH _ _ _ _ _ _ _ _ _ Hrun Hit). now apply Forall_insert.
Qed.

Lemma distortion_loop_keeps_bytes (fuel : nat) :
  forall (w h x y : Z) (offsetFlipper : bool) (it iBuffer it' iBuffer' : list Z),
    distortion_loop fuel w h x y offsetFlipper it iBuffer = Ok (it', iBuffer') ->
    Forall (fun index => 0 <= index < 256) it ->
    Forall (fun index => 0 <= index < 256) iBuffer ->
    Forall (fun index => 0 <= index < 256) iBuffer'.
Proof.
  induction fuel as [| fuel IH];
    intros w h x y offsetFlipper it iBuffer it' iBuffer' Hrun Hit Hbuf;
    [discriminate Hrun |].
  rewrite distortion_loop_S in Hrun.
  destruct (tile 32 0 w x y offsetFlipper it iBuffer) as [[it1 iB1] | | | | |] eqn:Htile;
    try discriminate Hrun.
  destruct (tile_keeps_bytes _ _ _ _ _ _ _ _ _ _ Htile Hit Hbuf) as [Hit1 Hbuf1].
  cbn [obind] in Hrun. cbv beta iota zeta in Hrun.
  repeat match type of Hrun with
         | (if ?c then _ else _) = _ => destruct c
         end;
    try (injection Hrun as <- <-; exact Hbuf1);
    apply (IH _ _ _ _ _ _ _ _ _ Hrun Hit1 Hbuf1).
Qed.

(** C10 at its failing input.  A paletted texture of 16 x 4 pixels, not
    wider than 96, with a palette of 256 colours, both accessors
    returning: [Load] stops at the assertion of the plain case,
    [ASSERT(palette.size() <= index)], at the first index, which is inside
    the palette. *)
Theorem Load_plain_assertion_fails :
  Load_from_header 0 plain_header (Ok (ramp 64)) (Ok (numbered 256))
  = AssertFail.
Proof. vm_compute. reflexivity. Qed.

End palette_lookup.

(** * Further properties of the archive reader *)

(** ** Reads from the compressed stream *)

Section stream_reads.

Import mft.

(** Reading [n] bytes and then [m] bytes delivers the same bytes, the same
    total count and the same stream as reading [n + m] bytes at once, and
    no byte of the stream is lost: what is read, followed by what is left,
    is what was there. *)
Theorem ReadData_in_two_steps (s : gz_stream) (n m : Z) :
  gz_fault s = None ->
  0 <= n -> 0 <= m -> n + m <= INT_MAX ->
  exists d1 d2 d : read_data,
    ReadData s n = Ok d1
    /\ ReadData (rd_stream d1) m = Ok d2
    /\ ReadData s (n + m) = Ok d
    /\ rd_bytes d = rd_bytes d1 ++ rd_bytes d2
    /\ rd_count d = rd_count d1 + rd_count d2
    /\ rd_stream d = rd_stream d2
    /\ rd_bytes d ++ gz_avail (rd_stream d) = gz_avail s.
Proof.
  intros Hf Hn Hm Hint. pose proof (len_nonneg (gz_avail s)) as Hl.
  do 3 eexists.
  split; [apply ReadData_no_fault; [exact Hf | lia] |].
  split; [apply ReadData_no_fault; [reflexivity | lia] |].
  split; [apply ReadData_no_fault; [exact Hf | lia] |].
  cbn [rd_bytes rd_count rd_stream gz_avail].
  rewrite !Z2Nat.inj_add by lia.
  rewrite take_take_drop, drop_drop, take_drop, len_drop by lia.
  repeat split. lia.
Qed.

(** The theorem at a stream of 5 bytes, read in steps of 2 and 4 bytes. *)
Lemma ReadData_in_two_steps_witness :
  exists d1 d2 d : read_data,
    ReadData {| gz_avail := [1; 2; 3; 4; 5]; gz_fault := None |} 2 = Ok d1
    /\ ReadData (rd_stream d1) 4 = Ok d2
    /\ ReadData {| gz_avail := [1; 2; 3; 4; 5]; gz_fault := None |} (2 + 4) = Ok d
    /\ rd_bytes d = rd_bytes d1 ++ rd_bytes d2
    /\ rd_count d = rd_count d1 + rd_count d2
    /\ rd_stream d = rd_stream d2
    /\ rd_bytes d ++ gz_avail (rd_stream d) = [1; 2; 3; 4; 5].
Proof.
  apply (ReadData_in_two_steps {| gz_avail := [1; 2; 3; 4; 5]; gz_fault := None |} 2 4);
    [reflexivity | lia | lia | unfold INT_MAX; lia].
Defined.

(** [ReadString] returns whenever [ReadData] does, none of its own
    assertions fails, and the string is what [ReadData] stored: its
    length is the returned count, which is at most [n]. *)
Theorem ReadString_agrees_with_ReadData (s : gz_stream) (n : Z) :
  gz_wf s -> 0 <= n <= INT_MAX ->
  exists d : read_data,
    ReadData s n = Ok d
    /\ ReadString s n = Ok (rd_count d, rd_bytes d, rd_error d, rd_stream d)
    /\ len (rd_bytes d) = rd_count d
    /\ rd_count d <= n.
Proof.
  intros Hwf Hn. pose proof (len_nonneg (gz_avail s)) as Hl.
  assert (Hbuf : len (replicate (Z.to_nat n) 0) = n).
  { unfold len. rewrite length_replicate. lia. }
  unfold ReadString. rewrite ASSERT_true by lia. cbn [obind]. rewrite Hbuf.
  destruct (gz_fault s) as [[ze oe] |] eqn:Hf.
  - rewrite (ReadData_fault s n ze oe Hf Hwf Hn). eexists. split; [reflexivity |].
    cbn [obind rd_bytes rd_count rd_error rd_stream length app].
    rewrite drop_0, Hbuf, ASSERT_true by lia. cbn. repeat split; lia.
  - rewrite (ReadData_no_fault s n Hf Hn). eexists. split; [reflexivity |].
    cbn [obind rd_bytes rd_count rd_error rd_stream].
    set (got := take (Z.to_nat n) (gz_avail s)).
    assert (Hgot : len got = Z.min n (len (gz_avail s)))
      by (unfold got; apply len_take; lia).
    rewrite <- Hgot.
    assert (Hall : len (got ++ drop (length got) (replicate (Z.to_nat n) 0)) = n).
    { rewrite len_app. unfold len in *. rewrite length_drop, length_replicate. lia. }
    rewrite Hall, ASSERT_true by lia. cbn [obind].
    assert (Htake : take (Z.to_nat (len got))
                      (got ++ drop (length got) (replicate (Z.to_nat n) 0)) = got).
    { unfold len. rewrite Nat2Z.id. apply take_app_length. }
    rewrite Htake, ASSERT_true by (apply Z.eqb_refl). cbn [obind].
    repeat split. lia.
Qed.

(** The theorem at a stream of 3 bytes and a string of 8. *)
Lemma ReadString_agrees_with_ReadData_witness :
  exists d : read_data,
    ReadData {| gz_avail := [97; 98; 0]; gz_fault := None |} 8 = Ok d
    /\ ReadString {| gz_avail := [97; 98; 0]; gz_fault := None |} 8
       = Ok (rd_count d, rd_bytes d, rd_error d, rd_stream d)
    /\ len (rd_bytes d) = rd_count d
    /\ rd_count d <= 8.
Proof.
  apply (ReadString_agrees_with_ReadData
           {| gz_avail := [97; 98; 0]; gz_fault := None |} 8);
    [exact I | unfold INT_MAX; lia].
Defined.

End stream_reads.

(** ** File names in the section table *)

Section file_names.

Import mft section.

Lemma chars_bytes_of (name : string) : chars (bytes_of name) = name.
Proof.
  unfold chars, bytes_of. rewrite map_map.
  rewrite (map_ext _ (fun c => c)), map_id.
  - apply string_of_list_ascii_of_string.
  - intros c. rewrite N2Z.id. apply ascii_N_embedding.
Qed.

Lemma rev_replicate {A : Type} (n : nat) (x : A) :
  rev (replicate n x) = replicate n x.
Proof.
  induction n as [| n IH]; [reflexivity |].
  cbn [replicate rev]. rewrite IH. symmetry. apply replicate_S_end.
Qed.

Lemma pop_trailing_NUL_zeros (k : nat) (c : Z) (t : list Z) :
  c <> 0 -> pop_trailing_NUL (replicate k 0 ++ c :: t) = Ok (c :: t).
Proof.
  intros Hc. induction k as [| k IH]; cbn.
  - apply Z.eqb_neq in Hc. now rewrite Hc.
  - exact IH.
Qed.

(** What the loop makes of a reversed name: all bytes are NUL and there
    is nothing left to ask [back()] for, or the NULs in front go. *)
Lemma pop_trailing_NUL_cases (reversed : list Z) :
  (Forall (fun c => c = 0) reversed /\ pop_trailing_NUL reversed = Undefined)
  \/ exists (k : nat) (c : Z) (t : list Z),
       reversed = replicate k 0 ++ c :: t /\ c <> 0
       /\ pop_trailing_NUL reversed = Ok (c :: t).
Proof.
  induction reversed as [| c r IH].
  - left. split; [constructor | reflexivity].
  - cbn [pop_trailing_NUL]. destruct (Z.eqb_spec c 0) as [-> | Hc].
    + destruct IH as [[Hall Hrun] | (k & c' & t & -> & Hc' & Hrun)].
      * left. split; [now constructor | exact Hrun].
      * right. exists (S k), c', t. repeat split; auto.
    + right. exists 0%nat, c, r. repeat split; auto.
Qed.

(** A name stored with one or more NUL bytes behind it comes back as it
    is, whatever the number of NULs, if it is not empty and does not end in
    NUL itself. *)
Theorem trimmed_name_of_stored (name : string) (k : nat) (c : Z) :
  last (bytes_of name) = Some c -> c <> 0 ->
  trimmed_name (bytes_of name ++ replicate (S k) 0) = Ok name.
Proof.
  intros Hlast Hc. apply last_Some in Hlast as [core Hcore].
  unfold trimmed_name.
  rewrite rev_app_distr, rev_replicate, Hcore, rev_app_distr.
  cbn [replicate rev app]. change (negb (0 =? 0)) with false. cbv iota.
  change (0 :: replicate k 0 ++ c :: rev core)
    with (replicate (S k) 0 ++ c :: rev core).
  rewrite pop_trailing_NUL_zeros by exact Hc. cbn [obind rev].
  rewrite rev_involutive, <- Hcore. now rewrite chars_bytes_of.
Qed.

(** The theorem at [pic/a.tex] with three NUL bytes. *)
Lemma trimmed_name_of_stored_witness :
  trimmed_name (bytes_of "pic/a.tex" ++ replicate 3 0) = Ok "pic/a.tex"%string.
Proof.
  apply (trimmed_name_of_stored "pic/a.tex" 2 120); [reflexivity | lia].
Defined.

(** The three ways the name handling can go.  A name of NUL bytes only,
    the empty one among them, runs into [back()] of an empty string; a name
    whose last byte is not NUL is fatal (E00008); every other name is a
    core that does not end in NUL, followed by NULs, and the core is what
    is stored. *)
Theorem trimmed_name_cases (fname : list Z) :
  (Forall (fun c => c = 0) fname /\ trimmed_name fname = Undefined)
  \/ (exists c : Z, last fname = Some c /\ c <> 0 /\ trimmed_name fname = Fatal)
  \/ (exists (core : list Z) (k : nat) (c : Z),
        fname = core ++ replicate (S k) 0
        /\ last core = Some c /\ c <> 0
        /\ trimmed_name fname = Ok (chars core)).
Proof.
  unfold trimmed_name.
  destruct (rev fname) as [| c0 r] eqn:Hrev.
  - left. split; [| reflexivity].
    apply (f_equal (@rev Z)) in Hrev. rewrite rev_involutive in Hrev.
    subst fname. constructor.
  - assert (Hf : fname = rev r ++ [c0]).
    { apply (f_equal (@rev Z)) in Hrev. now rewrite rev_involutive in Hrev. }
    destruct (Z.eqb_spec c0 0) as [-> | Hc0]; cbn [negb].
    + destruct (pop_trailing_NUL_cases (0 :: r))
        as [[Hall Hrun] | (k & c & t & Hsplit & Hc & Hrun)].
      * left. rewrite Hrun. split; [| reflexivity].
        rewrite Hf. apply Forall_app. split.
        -- apply Forall_cons in Hall as [_ Hall]. now apply List.Forall_rev.
        -- now repeat constructor.
      * right. right. rewrite Hrun. cbn [obind].
        destruct k as [| k]; [cbn in Hsplit; congruence |].
        cbn [replicate app] in Hsplit. injection Hsplit as Hr.
        exists (rev (c :: t)), k, c. repeat split; auto.
        -- rewrite Hf, Hr, rev_app_distr. cbn [rev]. rewrite rev_replicate.
           rewrite <- app_assoc. cbn [app].
           now rewrite (replicate_S_end k 0), app_assoc.
        -- cbn [rev]. apply last_snoc.
    + right. left. exists c0. repeat split; auto.
      rewrite Hf. apply last_snoc.
Qed.

End file_names.

(** ** The section table as a whole *)

Section section_table.

Import mft section subarc.

Variable sizeof_header : Z.
Variable header_arcIndex : list Z -> Z.
Variable header_fileSize : list Z -> Z.
Hypothesis sizeof_header_int : 0 <= sizeof_header <= INT_MAX.

Lemma named_none (name : string) (entries : list file_entry) :
  (forall e : file_entry, e ∈ entries -> trimmed_name (fname e) <> Ok name) ->
  named name entries = [].
Proof.
  induction entries as [| e rest IH]; intros Hnone; [reflexivity |].
  rewrite named_cons. unfold has_name at 1.
  destruct (trimmed_name (fname e)) as [n | | | | |] eqn:Hn;
    try (apply IH; intros e' He'; apply Hnone; now right).
  destruct (String.eqb_spec n name) as [-> | _].
  - exfalso. apply (Hnone e); [now left | exact Hn].
  - apply IH. intros e' He'. apply Hnone. now right.
Qed.

Lemma named_distinct (name : string) (entries : list file_entry) (e : file_entry) :
  NoDup (map (fun e => trimmed_name (fname e)) entries) ->
  e ∈ entries -> trimmed_name (fname e) = Ok name ->
  named name entries = [e].
Proof.
  induction entries as [| e0 rest IH]; intros Hdup He Hn.
  - inversion He.
  - cbn [map] in Hdup. apply NoDup_cons in Hdup as [Hfresh Hdup].
    rewrite named_cons. unfold has_name at 1.
    apply elem_of_cons in He as [<- | He].
    + rewrite Hn, String.eqb_refl. f_equal. apply named_none.
      intros e' He' Hn'. apply Hfresh. rewrite Hn, <- Hn'.
      apply (list_elem_of_fmap_2 (fun e => trimmed_name (fname e))), He'.
    + destruct (trimmed_name (fname e0)) as [n0 | | | | |] eqn:Hn0;
        try (now apply IH).
      destruct (String.eqb_spec n0 name) as [-> | _]; [| now apply IH].
      exfalso. apply Hfresh. rewrite <- Hn.
      apply (list_elem_of_fmap_2 (fun e => trimmed_name (fname e))), He.
Qed.

(** Round trip through the table.  When the names of a section are
    pairwise distinct, the loop reads all its entries, leaves the stream
    behind the last one, and every name then looks up to the index of its
    own entry, so that [LoadFile] by name loads the file of that index. *)
Theorem ReadNextSection_files_round_trip (entries : list file_entry)
    (gz : gz_stream) (rest : list Z) :
  Forall (well_formed sizeof_header header_fileSize) entries ->
  gz_fault gz = None ->
  gz_avail gz = encode entries ++ rest ->
  NoDup (map (fun e => trimmed_name (fname e)) entries) ->
  exists fileList : gmap string Z,
    ReadNextSection_files sizeof_header header_arcIndex header_fileSize
      (List.length entries) gz ∅
    = Ok (fileList, {| gz_avail := rest; gz_fault := None |})
    /\ forall (e : file_entry) (name : string),
         e ∈ entries -> trimmed_name (fname e) = Ok name ->
         fileList !! name = Some (arcIndex header_arcIndex e)
         /\ forall (s : subarc) (buf : list Z) (ins : Z),
              files s = fileList ->
              LoadFile s name buf ins
              = LoadFile_index s (arcIndex header_arcIndex e) buf ins.
Proof using sizeof_header_int.
  intros Hall Hf Ha Hdup.
  destruct (ReadNextSection_files_lookup sizeof_header header_arcIndex
              header_fileSize sizeof_header_int entries gz ∅ rest Hall Hf Ha)
    as (fileList & Hrun & Hlook).
  exists fileList. split; [exact Hrun |].
  intros e name He Hn.
  assert (Hfound : fileList !! name = Some (arcIndex header_arcIndex e)).
  { rewrite Hlook, (named_distinct name entries e Hdup He Hn). reflexivity. }
  split; [exact Hfound |].
  intros s buf ins Hs. apply LoadFile_found. now rewrite Hs.
Qed.

(** A name that no entry of the section carries is not in the table, and
    [LoadFile] answers [arcFileNotFound] for it without touching the buffer
    or the iterator, whether the section file is open or not. *)
Theorem unlisted_name_not_found (entries : list file_entry)
    (gz : gz_stream) (rest : list Z) (name : string) :
  Forall (well_formed sizeof_header header_fileSize) entries ->
  gz_fault gz = None ->
  gz_avail gz = encode entries ++ rest ->
  (forall e : file_entry, e ∈ entries -> trimmed_name (fname e) <> Ok name) ->
  exists fileList : gmap string Z,
    ReadNextSection_files sizeof_header header_arcIndex header_fileSize
      (List.length entries) gz ∅
    = Ok (fileList, {| gz_avail := rest; gz_fault := None |})
    /\ fileList !! name = None
    /\ forall (s : subarc) (buf : list Z) (ins : Z),
         files s = fileList ->
         LoadFile s name buf ins
         = Ok {| ret := arcFileNotFound; buffer := buf; insert := ins; log := [] |}.
Proof using sizeof_header_int.
  intros Hall Hf Ha Hnone.
  destruct (ReadNextSection_files_lookup sizeof_header header_arcIndex
              header_fileSize sizeof_header_int entries gz ∅ rest Hall Hf Ha)
    as (fileList & Hrun & Hlook).
  exists fileList. split; [exact Hrun |].
  assert (Habsent : fileList !! name = None).
  { rewrite Hlook, (named_none name entries Hnone). reflexivity. }
  split; [exact Habsent |].
  intros s buf ins Hs. apply LoadFile_missing. now rewrite Hs.
Qed.

End section_table.

Section section_table_examples.

Import mft section subarc.

Lemma two_fields_entries_well_formed :
  Forall (well_formed 4 two_fields_fileSize)
    [two_fields_entry 1 "pic/a.tex"; two_fields_entry 2 "pic/b.tex"].
Proof.
  repeat constructor; try (vm_compute; discriminate);
    eexists; vm_compute; reflexivity.
Qed.

(** The theorem at a section with the files [pic/a.tex] and [pic/b.tex]. *)
Lemma ReadNextSection_files_round_trip_witness :
  exists fileList : gmap string Z,
    ReadNextSection_files 4 two_fields_arcIndex two_fields_fileSize
      (List.length [two_fields_entry 1 "pic/a.tex"; two_fields_entry 2 "pic/b.tex"])
      {| gz_avail := encode [two_fields_entry 1 "pic/a.tex";
                             two_fields_entry 2 "pic/b.tex"] ++ [7];
         gz_fault := None |} ∅
    = Ok (fileList, {| gz_avail := [7]; gz_fault := None |})
    /\ forall (e : file_entry) (name : string),
         e ∈ [two_fields_entry 1 "pic/a.tex"; two_fields_entry 2 "pic/b.tex"] ->
         trimmed_name (fname e) = Ok name ->
         fileList !! name = Some (arcIndex two_fields_arcIndex e)
         /\ forall (s : subarc) (buf : list Z) (ins : Z),
              files s = fileList ->
              LoadFile s name buf ins
              = LoadFile_index s (arcIndex two_fields_arcIndex e) buf ins.
Proof.
  apply (ReadNextSection_files_round_trip 4 two_fields_arcIndex two_fields_fileSize
           ltac:(unfold INT_MAX; lia)
           [two_fields_entry 1 "pic/a.tex"; two_fields_entry 2 "pic/b.tex"]
           {| gz_avail := encode [two_fields_entry 1 "pic/a.tex";
                                  two_fields_entry 2 "pic/b.tex"] ++ [7];
              gz_fault := None |} [7]).
  - exact two_fields_entries_well_formed.
  - reflexivity.
  - reflexivity.
  - vm_compute. repeat constructor; intros Hin; inversion Hin as [| ? ? ? Hin'];
      inversion Hin'.
Defined.

(** The theorem at the same section and the name [pic/c.tex]. *)
Lemma unlisted_name_not_found_witness :
  exists fileList : gmap string Z,
    ReadNextSection_files 4 two_fields_arcIndex two_fields_fileSize
      (List.length [two_fields_entry 1 "pic/a.tex"; two_fields_entry 2 "pic/b.tex"])
      {| gz_avail := encode [two_fields_entry 1 "pic/a.tex";
                             two_fields_entry 2 "pic/b.tex"] ++ [7];
         gz_fault := None |} ∅
    = Ok (fileList, {| gz_avail := [7]; gz_fault := None |})
    /\ fileList !! "pic/c.tex" = None
    /\ forall (s : subarc) (buf : list Z) (ins : Z),
         files s = fileList ->
         LoadFile s "pic/c.tex" buf ins
         = Ok {| ret := arcFileNotFound; buffer := buf; insert := ins; log := [] |}.
Proof.
  apply (unlisted_name_not_found 4 two_fields_arcIndex two_fields_fileSize
           ltac:(unfold INT_MAX; lia)
           [two_fields_entry 1 "pic/a.tex"; two_fields_entry 2 "pic/b.tex"]
           {| gz_avail := encode [two_fields_entry 1 "pic/a.tex";
                                  two_fields_entry 2 "pic/b.tex"] ++ [7];
              gz_fault := None |} [7] "pic/c.tex").
  - exact two_fields_entries_well_formed.
  - reflexivity.
  - reflexivity.
  - intros e He.
    apply elem_of_cons in He as [-> | He];
      [vm_compute; discriminate |].
    apply elem_of_cons in He as [-> | He];
      [vm_compute; discriminate | inversion He].
Defined.

End section_table_examples.

(** * Further properties of the sub-archive *)

Section subarc_files.

Import subarc.

Lemma u32_le (v : Z) : 0 <= v -> u32 v <= v.
Proof. intros Hv. unfold u32. apply Z.mod_le; lia. Qed.

Lemma to_int_small (v : Z) : 0 <= v < 2 ^ 31 -> to_int v = v.
Proof.
  intros Hv. unfold to_int, u32. rewrite Z.mod_small by lia.
  destruct (Z.ltb_spec v (2 ^ 31)); [reflexivity | lia].
Qed.

Lemma data_range_len (bytes data : list Z) (off n : Z) :
  0 <= off -> 0 <= n ->
  data_range bytes off n = Ok data ->
  data = take (Z.to_nat n) (drop (Z.to_nat off) bytes) /\ len data = n.
Proof.
  intros Hoff Hn Hrun. unfold data_range in Hrun.
  destruct (Z.leb_spec (off + n) (len bytes)); [| discriminate Hrun].
  injection Hrun as <-. split; [reflexivity |].
  rewrite len_take, len_drop by lia. lia.
Qed.

(** With room for the file behind the insertion iterator, [LoadFile]
    copies the [length] bytes at [offset] of the section file to the
    iterator, leaves every other byte of the buffer and its size as they
    were, and returns [length]; the iterator moves on by [offset]. *)
Theorem LoadFile_index_copies (s : subarc) (bytes : list Z) (index : Z)
    (e : subarc_file_entry) (buf : list Z) (ins : Z) :
  file s = Some bytes ->
  sizeof_subarc_header + (index + 1) * sizeof_subarc_file_entry <= len bytes ->
  entry_at bytes index = Ok e ->
  0 <= offset e -> 0 <= length e < 2 ^ 31 ->
  offset e + length e <= len bytes ->
  0 <= ins -> length e <= len buf - ins -> ins + offset e <= len buf ->
  LoadFile_index s index buf ins
  = Ok {| ret := length e;
          buffer := take (Z.to_nat ins) buf
                    ++ take (Z.to_nat (length e)) (drop (Z.to_nat (offset e)) bytes)
                    ++ drop (Z.to_nat (ins + length e)) buf;
          insert := ins + offset e;
          log := [] |}.
Proof.
  intros Hfile Htable Hentry Hoff Hlen Hend Hins Hroom Hadv.
  unfold LoadFile_index. rewrite Hfile, ASSERT_true by lia. cbn [obind].
  rewrite Hentry. cbn [obind].
  pose proof (u32_le (offset e + length e) ltac:(lia)) as Hu.
  rewrite ASSERT_true by lia. cbn [obind].
  unfold data_range. destruct (Z.leb_spec (offset e + length e) (len bytes)); [| lia].
  cbn [obind]. rewrite ASSERT_true by lia. cbn [obind].
  destruct (Z.ltb_spec (len buf - ins) (length e)); [lia |]. cbn [obind].
  set (data := take (Z.to_nat (length e)) (drop (Z.to_nat (offset e)) bytes)).
  assert (Hdata : len data = length e).
  { unfold data. rewrite len_take, len_drop by lia. lia. }
  unfold copy. rewrite Hdata.
  destruct (Z.leb_spec 0 ins); [| lia].
  destruct (Z.leb_spec (ins + length e) (len buf)); [| lia].
  cbn [andb obind].
  match goal with |- (if ?c then _ else _) = _ => destruct c eqn:Hc end.
  - now rewrite to_int_small by lia.
  - apply Z.leb_gt in Hc. rewrite !len_app, len_take, len_drop, Hdata in Hc by lia.
    lia.
Qed.

(** The theorem at the file of 4 bytes and a buffer of 64. *)
Lemma LoadFile_index_copies_witness :
  LoadFile_index {| path := "data/pic.arc";
                    file := Some (one_file_arc [0xDE; 0xAD; 0xBE; 0xEF]);
                    files := ∅ |} 0 (replicate 64 0) 8
  = Ok {| ret := length {| offset := 32; fileID := 0; length := 4; length2 := 4 |};
          buffer := take (Z.to_nat 8) (replicate 64 0)
                    ++ take (Z.to_nat (length {| offset := 32; fileID := 0;
                                                 length := 4; length2 := 4 |}))
                         (drop (Z.to_nat (offset {| offset := 32; fileID := 0;
                                                    length := 4; length2 := 4 |}))
                               (one_file_arc [0xDE; 0xAD; 0xBE; 0xEF]))
                    ++ drop (Z.to_nat (8 + length {| offset := 32; fileID := 0;
                                                     length := 4; length2 := 4 |}))
                         (replicate 64 0);
          insert := 8 + offset {| offset := 32; fileID := 0; length := 4;
                                  length2 := 4 |};
          log := [] |}.
Proof.
  apply (LoadFile_index_copies
           {| path := "data/pic.arc";
              file := Some (one_file_arc [0xDE; 0xAD; 0xBE; 0xEF]);
              files := ∅ |}
           (one_file_arc [0xDE; 0xAD; 0xBE; 0xEF]) 0
           {| offset := 32; fileID := 0; length := 4; length2 := 4 |}
           (replicate 64 0) 8);
    first [reflexivity | vm_compute; intuition congruence].
Defined.

End subarc_files.

Section subarc_bounds.

Import subarc.

Lemma read_u32_cases (bytes : list Z) (off : Z) :
  (exists v : Z, read_u32 bytes off = Ok v) \/ read_u32 bytes off = Undefined.
Proof.
  unfold read_u32. destruct (_ && _); [| now right].
  destruct (drop _ _) as [| b0 [| b1 [| b2 [| b3 ?]]]]; eauto.
Qed.

Lemma entry_at_cases (bytes : list Z) (index : Z) :
  (exists e : subarc_file_entry, entry_at bytes index = Ok e)
  \/ entry_at bytes index = Undefined.
Proof.
  unfold entry_at.
  destruct (read_u32_cases bytes
              (sizeof_subarc_header + index * sizeof_subarc_file_entry))
    as [[o ->] | ->]; [| now right].
  destruct (read_u32_cases bytes
              (sizeof_subarc_header + index * sizeof_subarc_file_entry + 4))
    as [[i ->] | ->]; [| now right].
  destruct (read_u32_cases bytes
              (sizeof_subarc_header + index * sizeof_subarc_file_entry + 8))
    as [[l ->] | ->]; [| now right].
  destruct (read_u32_cases bytes
              (sizeof_subarc_header + index * sizeof_subarc_file_entry + 12))
    as [[l2 ->] | ->]; [| now right].
  left. eexists. reflexivity.
Qed.

(** [LoadFile] by index stops at an assertion in exactly three cases, all
    on an open sub-archive: the table entry lies beyond the section
    file; the 32-bit sum of the entry's offset and length exceeds the size
    of the section file; or the insertion iterator is behind the end of the
    buffer. *)
Theorem LoadFile_index_assertions (s : subarc) (index : Z) (buf : list Z) (ins : Z) :
  LoadFile_index s index buf ins = AssertFail
  <-> exists bytes : list Z,
        file s = Some bytes
        /\ (len bytes < sizeof_subarc_header + (index + 1) * sizeof_subarc_file_entry
            \/ exists e : subarc_file_entry,
                 sizeof_subarc_header + (index + 1) * sizeof_subarc_file_entry
                 <= len bytes
                 /\ entry_at bytes index = Ok e
                 /\ (len bytes < u32 (offset e + length e)
                     \/ (u32 (offset e + length e) <= len bytes
                         /\ offset e + length e <= len bytes
                         /\ len buf < ins))).
Proof.
  unfold LoadFile_index. split.
  - destruct (file s) as [bytes |]; [| discriminate].
    intros Hrun. exists bytes. split; [reflexivity |].
    unfold ASSERT in Hrun.
    destruct (Z.leb_spec (sizeof_subarc_header
                          + (index + 1) * sizeof_subarc_file_entry) (len bytes));
      [| now left].
    right. cbn [obind] in Hrun.
    destruct (entry_at_cases bytes index) as [[e He] | He]; rewrite He in Hrun;
      [| discriminate Hrun].
    exists e. split; [assumption |]. split; [assumption |].
    cbn [obind] in Hrun.
    destruct (Z.leb_spec (u32 (offset e + length e)) (len bytes)); [| now left].
    right. cbn [obind] in Hrun. unfold data_range in Hrun.
    destruct (Z.leb_spec (offset e + length e) (len bytes));
      [| discriminate Hrun].
    cbn [obind] in Hrun.
    destruct (Z.leb_spec 0 (len buf - ins)); [| lia].
    exfalso. cbn [obind] in Hrun.
    destruct (_ <? _) in Hrun.
    + destruct (0 <=? _) in Hrun; [| discriminate Hrun].
      cbn [obind] in Hrun. unfold copy in Hrun.
      destruct (_ && _) in Hrun; [| discriminate Hrun].
      cbn [obind] in Hrun. destruct (_ <=? _) in Hrun; discriminate Hrun.
    + cbn [obind] in Hrun. unfold copy in Hrun.
      destruct (_ && _) in Hrun; [| discriminate Hrun].
      cbn [obind] in Hrun. destruct (_ <=? _) in Hrun; discriminate Hrun.
  - intros (bytes & -> & [Hshort | (e & Htable & -> & Hcase)]); unfold ASSERT.
    + destruct (Z.leb_spec (sizeof_subarc_header
                            + (index + 1) * sizeof_subarc_file_entry) (len bytes));
        [lia | reflexivity].
    + destruct (Z.leb_spec (sizeof_subarc_header
                            + (index + 1) * sizeof_subarc_file_entry) (len bytes));
        [| lia].
      cbn [obind].
      destruct Hcase as [Hbeyond | (Hsum & Hend & Hins)].
      * destruct (Z.leb_spec (u32 (offset e + length e)) (len bytes));
          [lia | reflexivity].
      * destruct (Z.leb_spec (u32 (offset e + length e)) (len bytes)); [| lia].
        cbn [obind]. unfold data_range.
        destruct (Z.leb_spec (offset e + length e) (len bytes)); [| lia].
        cbn [obind].
        destruct (Z.leb_spec 0 (len buf - ins)); [lia | reflexivity].
Qed.

(** The second assertion compares the size of the section file with a sum
    of two 32-bit numbers.  When the sum wraps, an entry that ends beyond the
    section file passes the assertion, and the copy reads outside the
    mapping: the behaviour is undefined. *)
Theorem LoadFile_index_wrapped_sum (s : subarc) (bytes : list Z) (index : Z)
    (e : subarc_file_entry) (buf : list Z) (ins : Z) :
  file s = Some bytes ->
  sizeof_subarc_header + (index + 1) * sizeof_subarc_file_entry <= len bytes ->
  entry_at bytes index = Ok e ->
  u32 (offset e + length e) <= len bytes ->
  len bytes < offset e + length e ->
  LoadFile_index s index buf ins = Undefined.
Proof.
  intros Hfile Htable Hentry Hsum Hend. unfold LoadFile_index.
  rewrite Hfile, ASSERT_true by lia. cbn [obind]. rewrite Hentry. cbn [obind].
  rewrite ASSERT_true by lia. cbn [obind]. unfold data_range.
  destruct (Z.leb_spec (offset e + length e) (len bytes)); [lia | reflexivity].
Qed.

(** A section file of 32 bytes whose one entry has offset 0xFFFFFFF0 and
    length 32. *)
Lemma LoadFile_index_wrapped_sum_witness :
  LoadFile_index
    {| path := "data/pic.arc";
       file := Some (le32 magic ++ le32 1 ++ le32 32 ++ le32 0
                     ++ le32 0xFFFFFFF0 ++ le32 0 ++ le32 32 ++ le32 32);
       files := ∅ |} 0 [] 0 = Undefined.
Proof.
  apply (LoadFile_index_wrapped_sum
           {| path := "data/pic.arc";
              file := Some (le32 magic ++ le32 1 ++ le32 32 ++ le32 0
                            ++ le32 0xFFFFFFF0 ++ le32 0 ++ le32 32 ++ le32 32);
              files := ∅ |}
           (le32 magic ++ le32 1 ++ le32 32 ++ le32 0
            ++ le32 0xFFFFFFF0 ++ le32 0 ++ le32 32 ++ le32 32) 0
           {| offset := 0xFFFFFFF0; fileID := 0; length := 32; length2 := 32 |}
           [] 0);
    first [reflexivity | vm_compute; intuition congruence].
Defined.

Lemma LoadFile_index_back_nil (s : subarc) (bytes : list Z) (index : Z)
    (e : subarc_file_entry) :
  file s = Some bytes ->
  sizeof_subarc_header + (index + 1) * sizeof_subarc_file_entry <= len bytes ->
  entry_at bytes index = Ok e ->
  0 <= offset e -> 0 <= length e < 2 ^ 31 ->
  offset e + length e <= len bytes ->
  LoadFile_index_back s index []
  = if offset e <=? length e then
      Ok {| ret := length e;
            buffer := take (Z.to_nat (length e)) (drop (Z.to_nat (offset e)) bytes);
            insert := offset e;
            log := [] |}
    else Undefined.
Proof.
  intros Hfile Htable Hentry Hoff Hlen Hend.
  unfold LoadFile_index_back, LoadFile_index.
  rewrite Hfile, ASSERT_true by lia. cbn [obind]. rewrite Hentry. cbn [obind].
  pose proof (u32_le (offset e + length e) ltac:(lia)) as Hu.
  rewrite ASSERT_true by lia. cbn [obind]. unfold data_range.
  destruct (Z.leb_spec (offset e + length e) (len bytes)); [| lia].
  cbn [obind]. change (len (@nil Z)) with 0.
  change (0 - 0) with 0. change (ASSERT (0 <=? 0)) with (Ok tt). cbn [obind].
  rewrite Z.sub_0_r.
  set (data := take (Z.to_nat (length e)) (drop (Z.to_nat (offset e)) bytes)).
  assert (Hdata : len data = length e).
  { unfold data. rewrite len_take, len_drop by lia. lia. }
  destruct (Z.ltb_spec 0 (length e)) as [Hpos | Hzero].
  - rewrite resize_nil.
    assert (Hbuf : len (replicate (Z.to_nat (length e)) 0) = length e).
    { unfold len. rewrite length_replicate. lia. }
    rewrite Hbuf, Z.sub_diag. cbn [Z.leb Z.compare obind].
    unfold copy. rewrite Hdata, Hbuf. cbn [Z.leb Z.compare Z.add andb].
    rewrite Z.leb_refl. cbn [obind Z.to_nat take app].
    rewrite drop_ge by (rewrite length_replicate; lia).
    change (Z.to_nat 0) with 0%nat. rewrite take_0, app_nil_l.
    rewrite app_nil_r, Hdata, Z.add_0_l, to_int_small by lia. reflexivity.
  - assert (Hl : length e = 0) by lia.
    cbn [obind]. unfold copy. rewrite Hdata, Hl. change (len (@nil Z)) with 0.
    cbn [Z.leb Z.compare Z.add andb obind Z.to_nat take drop app].
    assert (Hnil : data = []) by (apply len_zero_nil; lia).
    rewrite Hnil. change (0 + 0 <=? 0) with true. cbn [obind].
    rewrite Z.add_0_l. reflexivity.
Qed.

(** Loading into an empty vector.  The vector is resized to the length
    of the file and receives exactly the file's bytes; but the iterator is
    then moved by the offset of the file in the section file, which stays
    inside the vector only when the offset is at most the length. *)
Theorem LoadFile_index_into_empty (s : subarc) (bytes : list Z) (index : Z)
    (e : subarc_file_entry) :
  file s = Some bytes ->
  sizeof_subarc_header + (index + 1) * sizeof_subarc_file_entry <= len bytes ->
  entry_at bytes index = Ok e ->
  0 <= offset e -> 0 <= length e < 2 ^ 31 ->
  offset e + length e <= len bytes ->
  LoadFile_index_back s index []
  = if offset e <=? length e then
      Ok {| ret := length e;
            buffer := take (Z.to_nat (length e)) (drop (Z.to_nat (offset e)) bytes);
            insert := offset e;
            log := [] |}
    else Undefined.
Proof. exact (LoadFile_index_back_nil s bytes index e). Qed.

(** The theorem at the file of 4 bytes, which lies at offset 32: the
    iterator would leave the vector. *)
Lemma LoadFile_index_into_empty_witness :
  LoadFile_index_back
    {| path := "data/pic.arc";
       file := Some (one_file_arc [0xDE; 0xAD; 0xBE; 0xEF]); files := ∅ |} 0 []
  = if offset {| offset := 32; fileID := 0; length := 4; length2 := 4 |}
       <=? length {| offset := 32; fileID := 0; length := 4; length2 := 4 |}
    then
      Ok {| ret := length {| offset := 32; fileID := 0; length := 4; length2 := 4 |};
            buffer := take (Z.to_nat (length {| offset := 32; fileID := 0;
                                                length := 4; length2 := 4 |}))
                        (drop (Z.to_nat (offset {| offset := 32; fileID := 0;
                                                   length := 4; length2 := 4 |}))
                              (one_file_arc [0xDE; 0xAD; 0xBE; 0xEF]));
            insert := offset {| offset := 32; fileID := 0; length := 4;
                                length2 := 4 |};
            log := [] |}
    else Undefined.
Proof.
  apply (LoadFile_index_into_empty
           {| path := "data/pic.arc";
              file := Some (one_file_arc [0xDE; 0xAD; 0xBE; 0xEF]); files := ∅ |}
           (one_file_arc [0xDE; 0xAD; 0xBE; 0xEF]) 0
           {| offset := 32; fileID := 0; length := 4; length2 := 4 |});
    first [reflexivity | vm_compute; intuition congruence].
Defined.

End subarc_bounds.

(** * Further properties of resources *)

Section resource_accessors.

Import resource.

(** With [IsLoaded] as it is written, the accessors that require a loaded
    resource stop at their first assertion on every buffer, whatever the
    header says: [Header], [SubHeader] and [RawData] never return. *)
Theorem loaded_accessors_stop
    (header_SubHeader header_DataOffset : list Z -> outcome Z)
    (header_DataSize : list Z -> Z -> outcome Z) (raw : list Z) :
  Header raw = AssertFail
  /\ SubHeader header_SubHeader raw = AssertFail
  /\ RawData header_DataOffset header_DataSize raw = AssertFail.
Proof. destruct raw; repeat split. Qed.

Lemma IsLoaded_hpp_filled (raw : list Z) :
  0 < len raw ->
  IsLoaded_hpp raw = if sizeof_this <=? len raw then Ok true else AssertFail.
Proof.
  destruct raw as [| x raw]; [intros Hlen; now apply Z.lt_irrefl in Hlen |].
  intros _.
  unfold IsLoaded_hpp, AssertSize, ASSERT. now destruct (_ <=? _).
Qed.

(** Loading a resource by name, with [IsLoaded] as declared in
    [include/SH3/arc/resource.hpp], from an open sub-archive that lists
    the name.  A file that lies further into the section file than it is
    long moves the iterator out of the vector; an empty file leaves the
    resource unloaded; a file shorter than the resource object stops at
    the size assertion; and any other file is kept if its header passes
    the check and cleared otherwise. *)
Theorem LoadFromFile_hpp_of_entry (header_Check : list Z -> bool)
    (locator : subarc.subarc) (filename : string) (bytes : list Z)
    (index : Z) (e : subarc.subarc_file_entry) :
  subarc.file locator = Some bytes ->
  subarc.files locator !! filename = Some index ->
  subarc.sizeof_subarc_header + (index + 1) * subarc.sizeof_subarc_file_entry
  <= len bytes ->
  subarc.entry_at bytes index = Ok e ->
  0 <= subarc.offset e -> 0 <= subarc.length e < 2 ^ 31 ->
  subarc.offset e + subarc.length e <= len bytes ->
  LoadFromFile_hpp header_Check locator filename []
  = if subarc.offset e <=? subarc.length e then
      if subarc.length e =? 0 then Ok []
      else if subarc.length e <? sizeof_this then AssertFail
      else
        let data := take (Z.to_nat (subarc.length e))
                         (drop (Z.to_nat (subarc.offset e)) bytes) in
        Ok (if header_Check data then data else [])
    else Undefined.
Proof.
  intros Hfile Hname Htable Hentry Hoff Hlen Hend.
  unfold LoadFromFile_hpp. cbn [IsLoaded_hpp obind ASSERT negb].
  unfold mft_LoadFile, subarc.LoadFile_back, subarc.LoadFile, subarc.equal_range.
  rewrite Hname. change (option_list (Some index)) with [index]. cbv iota.
  change (subarc.LoadFile_index locator index [] (len []))
    with (subarc.LoadFile_index_back locator index []).
  rewrite (LoadFile_index_back_nil locator bytes index e) by assumption.
  destruct (Z.leb_spec (subarc.offset e) (subarc.length e)) as [Hin | Hout];
    [| reflexivity].
  cbn [obind subarc.buffer].
  set (data := take (Z.to_nat (subarc.length e))
                    (drop (Z.to_nat (subarc.offset e)) bytes)).
  assert (Hdata : len data = subarc.length e).
  { unfold data. rewrite len_take, len_drop by lia. lia. }
  destruct (Z.eqb_spec (subarc.length e) 0) as [Hzero | Hpos].
  - assert (Hnil : data = []) by (apply len_zero_nil; lia).
    rewrite Hnil. reflexivity.
  - assert (Hfilled : 0 < len data) by lia.
    rewrite (IsLoaded_hpp_filled data Hfilled), <- Hdata.
    destruct (Z.ltb_spec (len data) sizeof_this) as [Hshort | Hlong].
    + destruct (Z.leb_spec sizeof_this (len data)); [lia | reflexivity].
    + destruct (Z.leb_spec sizeof_this (len data)); [| lia].
      cbn [obind]. unfold Header_hpp. rewrite (IsLoaded_hpp_filled data Hfilled).
      destruct (Z.leb_spec sizeof_this (len data)); [| lia].
      cbn [obind ASSERT]. now destruct (header_Check data).
Qed.

(** The theorem at a section file that holds one file of 40 bytes, under
    a header check that accepts everything. *)
Lemma LoadFromFile_hpp_of_entry_witness :
  LoadFromFile_hpp (fun _ => true)
    {| subarc.path := "data/pic.arc";
       subarc.file := Some (subarc.one_file_arc (replicate 40 7));
       subarc.files := {[ "pic/a.tex" := 0 ]} |} "pic/a.tex" []
  = if subarc.offset {| subarc.offset := 32; subarc.fileID := 0;
                        subarc.length := 40; subarc.length2 := 40 |}
       <=? subarc.length {| subarc.offset := 32; subarc.fileID := 0;
                            subarc.length := 40; subarc.length2 := 40 |}
    then
      if subarc.length {| subarc.offset := 32; subarc.fileID := 0;
                          subarc.length := 40; subarc.length2 := 40 |} =? 0
      then Ok []
      else if subarc.length {| subarc.offset := 32; subarc.fileID := 0;
                               subarc.length := 40; subarc.length2 := 40 |}
              <? sizeof_this
      then AssertFail
      else
        let data :=
          take (Z.to_nat (subarc.length {| subarc.offset := 32; subarc.fileID := 0;
                                           subarc.length := 40;
                                           subarc.length2 := 40 |}))
               (drop (Z.to_nat (subarc.offset {| subarc.offset := 32;
                                                 subarc.fileID := 0;
                                                 subarc.length := 40;
                                                 subarc.length2 := 40 |}))
                     (subarc.one_file_arc (replicate 40 7))) in
        Ok (if (fun _ : list Z => true) data then data else [])
    else Undefined.
Proof.
  apply (LoadFromFile_hpp_of_entry (fun _ => true)
           {| subarc.path := "data/pic.arc";
              subarc.file := Some (subarc.one_file_arc (replicate 40 7));
              subarc.files := {[ "pic/a.tex" := 0 ]} |} "pic/a.tex"
           (subarc.one_file_arc (replicate 40 7)) 0
           {| subarc.offset := 32; subarc.fileID := 0;
              subarc.length := 40; subarc.length2 := 40 |});
    first [reflexivity | vm_compute; intuition congruence].
Defined.

End resource_accessors.

(** * Further properties of the texture header *)

Section texture_headers.

Import texture.

(** The header check in closed form.  The products are computed in
    [int]: the check is defined only while the number of pixels times the
    real bit depth fits an [int], and then it holds exactly when the
    declared size is that product divided by 8, rounded down. *)
Theorem Check_outcome (h : sh3_texture_header) :
  header_wf h = true ->
  Check h
  = let pixels := texWidth h * texHeight h in
    let real := if texSize h =? (pixels * 4) mod 2 ^ 32 then 32 else bpp h in
    if (pixels <=? INT_MAX) && (pixels * real <=? INT_MAX)
    then Ok (texSize h =? pixels * real / 8)
    else Undefined.
Proof.
  intros Hwf. pose proof (header_wf_ranges h Hwf) as (Hw & Hh & Hb & Hs).
  pose proof (size_of_texture_nonneg h Hwf) as Hp. cbv zeta.
  unfold Check.
  destruct (Z.leb_spec (texWidth h * texHeight h) INT_MAX) as [Hfit | Hbig].
  - rewrite int_mul_in_range by lia. cbn [obind].
    rewrite GetRealBPP_defined by assumption. cbn [obind andb].
    set (real := if texSize h =? _ then 32 else bpp h).
    assert (Hreal : 0 <= real < 2 ^ 8) by (unfold real; destruct (_ =? _); lia).
    destruct (Z.leb_spec (texWidth h * texHeight h * real) INT_MAX) as [Hq | Hq].
    + rewrite int_mul_in_range by nia. cbn [obind].
      rewrite u32_small by (unfold INT_MAX in Hq; nia). reflexivity.
    + unfold int_mul.
      destruct (Z.leb_spec (texWidth h * texHeight h * real) INT_MAX); [lia |].
      now rewrite andb_false_r.
  - unfold int_mul.
    destruct (Z.leb_spec (texWidth h * texHeight h) INT_MAX); [lia |].
    now rewrite andb_false_r.
Qed.

(** The theorem at a texture of 8192 x 8192 pixels at 32 bits, declared
    with its true size: the product overflows and the check is undefined. *)
Lemma Check_outcome_witness :
  Check {| batchHeaderSize := 32; texWidth := 8192; texHeight := 8192; bpp := 32;
           texSize := 2 ^ 28; texFileSize := 2 ^ 28 + 96 |}
  = Undefined.
Proof.
  apply (Check_outcome
           {| batchHeaderSize := 32; texWidth := 8192; texHeight := 8192;
              bpp := 32; texSize := 2 ^ 28; texFileSize := 2 ^ 28 + 96 |}).
  reflexivity.
Defined.

(** Where the header places the pixels and the palette.  For a paletted
    texture whose declared size is at most the declared file size, the
    pixel data ends at [texFileSize], and the palette header begins
    [batchHeaderSize] bytes after it; for every other format the pixel
    data begins right behind the 128 bytes of the header. *)
Theorem pixel_data_placement (h : sh3_texture_header) (real : Z) :
  header_wf h = true ->
  GetRealBPP h = Ok real ->
  texSize h <= texFileSize h ->
  batchHeaderSize h + texFileSize h < 2 ^ 32 ->
  exists off : Z,
    DataOffset h = Ok off
    /\ (real = PALETTE ->
        off + DataSize h = texFileSize h
        /\ SubHeader_palette_info h = off + DataSize h + batchHeaderSize h)
    /\ (real <> PALETTE -> off = sizeof_sh3_texture_header).
Proof.
  intros Hwf Hreal Hsize Hsum.
  pose proof (header_wf_ranges h Hwf) as (Hw & Hh & Hb & Hs).
  unfold header_wf in Hwf. rewrite !andb_true_iff, !Z.leb_le, !Z.ltb_lt in Hwf.
  unfold DataOffset, DataSize, SubHeader_palette_info. rewrite Hreal. cbn [obind].
  eexists. split; [reflexivity |].
  destruct (Z.eqb_spec real PALETTE) as [-> | Hne]; split;
    try (intros; congruence); try (intros; contradiction).
  intros _. rewrite !u32_small by lia. lia.
Qed.

(** The theorem at the paletted texture of 128 x 64 pixels. *)
Lemma pixel_data_placement_witness :
  exists off : Z,
    DataOffset distorted_header = Ok off
    /\ (PALETTE = PALETTE ->
        off + DataSize distorted_header = texFileSize distorted_header
        /\ SubHeader_palette_info distorted_header
           = off + DataSize distorted_header + batchHeaderSize distorted_header)
    /\ (PALETTE <> PALETTE -> off = sizeof_sh3_texture_header).
Proof.
  apply (pixel_data_placement distorted_header PALETTE);
    first [reflexivity | vm_compute; intuition congruence].
Defined.

End texture_headers.

(** * Further properties of the decoder *)

Section decoder_lookups.

Import texture.

(** The colour lookup of the distorted case in closed form.  While the
    indices are below the size of the palette, each gives its three colour
    bytes.  The first index that is not stops the loop: at an assertion if
    it is above the size, but an index equal to the size passes the
    assertion and reads behind the palette. *)
Theorem lookup_distorted_outcome (palette : list rgba) (indices : list Z) :
  Forall (fun index => 0 <= index) indices ->
  lookup_distorted palette indices
  = match List.find (fun index => len palette <=? index) indices with
    | None =>
        Ok (flat_map
              (fun index =>
                 match palette !! Z.to_nat index with
                 | Some pixel => [r pixel; g pixel; b pixel]
                 | None => []
                 end) indices)
    | Some index => if index =? len palette then Undefined else AssertFail
    end.
Proof.
  induction 1 as [| index more Hindex _ IH]; [reflexivity |].
  cbn [lookup_distorted List.find flat_map]. unfold ASSERT.
  destruct (Z.leb_spec (len palette) index) as [Hout | Hin].
  - destruct (Z.eqb_spec index (len palette)) as [-> | Hne].
    + rewrite Z.leb_refl. cbn [obind].
      rewrite (lookup_ge_None_2 palette (Z.to_nat (len palette)));
        [reflexivity | unfold len; lia].
    + destruct (Z.leb_spec index (len palette)); [lia | reflexivity].
  - destruct (Z.leb_spec index (len palette)); [| lia]. cbn [obind].
    destruct (lookup_lt_is_Some_2 palette (Z.to_nat index)) as [pixel Hpix];
      [unfold len in Hin; lia |].
    rewrite Hpix, IH.
    destruct (List.find _ more) as [bad |]; [| reflexivity].
    now destruct (bad =? len palette).
Qed.

(** The theorem at a palette of four colours and the indices 1, 4, 9. *)
Lemma lookup_distorted_outcome_witness :
  lookup_distorted (numbered 4) [1; 4; 9]
  = match List.find (fun index => len (numbered 4) <=? index) [1; 4; 9] with
    | None =>
        Ok (flat_map
              (fun index =>
                 match numbered 4 !! Z.to_nat index with
                 | Some pixel => [r pixel; g pixel; b pixel]
                 | None => []
                 end) [1; 4; 9])
    | Some index => if index =? len (numbered 4) then Undefined else AssertFail
    end.
Proof.
  apply (lookup_distorted_outcome (numbered 4) [1; 4; 9]).
  repeat constructor; lia.
Defined.

(** Without distortion, that is for a paletted texture of at most 96
    columns whose accessors return, [Load] never gets past the first
    index: an index below the size of the palette fails the assertion, and
    every other index reads behind the palette. *)
Theorem Load_plain_stops (fuel : nat) (header : sh3_texture_header)
    (index : Z) (more : list Z) (palette : list rgba) :
  header_wf header = true ->
  GetRealBPP header = Ok PALETTE ->
  texWidth header <= 96 ->
  len palette <= 256 ->
  0 <= index ->
  Load_from_header fuel header (Ok (index :: more)) (Ok palette)
  = if index <? len palette then AssertFail else Undefined.
Proof.
  intros Hwf Hreal Hw Hpal Hindex.
  pose proof (header_wf_ranges header Hwf) as (Hw0 & Hh0 & _ & _).
  unfold Load_from_header. rewrite Hreal. cbn [obind]. rewrite Z.eqb_refl.
  cbn [obind]. rewrite ASSERT_true by lia. cbn [obind].
  rewrite int_mul_in_range by (unfold INT_MAX; nia). cbn [obind].
  destruct (Z.ltb_spec 96 (texWidth header)); [lia |].
  cbn [obind lookup_plain]. unfold ASSERT.
  destruct (Z.ltb_spec index (len palette)) as [Hin | Hout].
  - destruct (Z.leb_spec (len palette) index); [lia | reflexivity].
  - destruct (Z.leb_spec (len palette) index); [| lia]. cbn [obind].
    rewrite (lookup_ge_None_2 palette (Z.to_nat index)); [reflexivity |].
    unfold len in Hout. lia.
Qed.

(** The theorem at the paletted texture of 16 x 4 pixels, a palette of
    four colours and a first index of 7. *)
Lemma Load_plain_stops_witness :
  Load_from_header 0 plain_header (Ok (7 :: replicate 63 0)) (Ok (numbered 4))
  = if 7 <? len (numbered 4) then AssertFail else Undefined.
Proof.
  apply (Load_plain_stops 0 plain_header 7 (replicate 63 0) (numbered 4));
    first [reflexivity | vm_compute; intuition congruence].
Defined.

End decoder_lookups.

Section decoder_consumers.

Import texture.



Lemma tile_len (count : nat) :
  forall (i w x y : Z) (offsetFlipper : bool) (it iBuffer it' iBuffer' : list Z),
    tile count i w x y offsetFlipper it iBuffer = Ok (it', iBuffer') ->
    List.length iBuffer' = List.length iBuffer.
Proof.
  induction count as [| count IH];
    intros i w x y offsetFlipper it iBuffer it' iBuffer' Hrun.
  - cbn in Hrun. now injection Hrun as <- <-.
  - cbn [tile] in Hrun. destruct it as [| index it]; [discriminate Hrun |].
    destruct (w =? 0); [discriminate Hrun |].
    destruct (ASSERT (idx_of w x y offsetFlipper i <=? len iBuffer));
      try discriminate Hrun.
    cbn [obind] in Hrun.
    destruct (idx_of w x y offsetFlipper i <? len iBuffer); [| discriminate Hrun].
    rewrite (IH _ _ _ _ _ _ _ _ _ Hrun). apply length_insert.
Qed.

Lemma distortion_loop_len (fuel : nat) :
  forall (w h x y : Z) (offsetFlipper : bool) (it iBuffer it' iBuffer' : list Z),
    distortion_loop fuel w h x y offsetFlipper it iBuffer = Ok (it', iBuffer') ->
    List.length iBuffer' = List.length iBuffer.
Proof.
  induction fuel as [| fuel IH];
    intros w h x y offsetFlipper it iBuffer it' iBuffer' Hrun;
    [discriminate Hrun |].
  rewrite distortion_loop_S in Hrun.
  destruct (tile 32 0 w x y offsetFlipper it iBuffer) as [[it1 iB1] | | | | |] eqn:Htile;
    try discriminate Hrun.
  pose proof (tile_len _ _ _ _ _ _ _ _ _ _ Htile) as Hlen1.
  cbn [obind] in Hrun. cbv beta iota zeta in Hrun.
  repeat match type of Hrun with
         | (if ?c then _ else _) = _ => destruct c
         end;
    try (injection Hrun as <- <-; exact Hlen1);
    rewrite (IH _ _ _ _ _ _ _ _ _ Hrun); exact Hlen1.
Qed.






End decoder_consumers.

(** * Further properties of the palette *)

Section palette_layout.

Import texture.

Lemma iter_swap_spec {A : Type} (l : list A) (i j : nat) :
  (i < List.length l)%nat -> (j < List.length l)%nat ->
  List.length (iter_swap l i j) = List.length l
  /\ forall k : nat,
       iter_swap l i j !! k
       = if decide (k = i) then l !! j
         else if decide (k = j) then l !! i else l !! k.
Proof.
  intros Hi Hj. unfold iter_swap.
  destruct (lookup_lt_is_Some_2 l i Hi) as [x Hx].
  destruct (lookup_lt_is_Some_2 l j Hj) as [y Hy].
  rewrite Hx, Hy. split; [now rewrite !length_insert |].
  intros k. destruct (decide (k = i)) as [-> | Hki].
  - now rewrite list_lookup_insert_eq by (now rewrite length_insert).
  - rewrite list_lookup_insert_ne by congruence.
    destruct (decide (k = j)) as [-> | Hkj].
    + now rewrite list_lookup_insert_eq by assumption.
    + now rewrite list_lookup_insert_ne by congruence.
Qed.

(** [std::swap_ranges] on two ranges of [n] elements that do not overlap. *)
Lemma swap_ranges_spec {A : Type} (l : list A) (a b n : nat) :
  (a + n <= b)%nat -> (b + n <= List.length l)%nat ->
  List.length (foldl (fun acc k => iter_swap acc (a + k) (b + k)) l (seq 0 n))
  = List.length l
  /\ forall k : nat,
       foldl (fun acc k => iter_swap acc (a + k) (b + k)) l (seq 0 n) !! k
       = if decide (a <= k < a + n)%nat then l !! (k + (b - a))%nat
         else if decide (b <= k < b + n)%nat then l !! (k - (b - a))%nat
         else l !! k.
Proof.
  intros Hab Hbn. induction n as [| n IH].
  - split; [reflexivity |]. intros k. cbn [seq foldl].
    repeat case_decide; try lia; reflexivity.
  - destruct IH as [IHlen IHget]; [lia | lia |].
    rewrite seq_S, foldl_snoc. cbn [Nat.add].
    set (l' := foldl _ l (seq 0 n)) in *.
    destruct (iter_swap_spec l' (a + n) (b + n)) as [Hlen Hget]; [lia | lia |].
    split; [now rewrite Hlen |].
    intros k. rewrite Hget, !IHget.
    repeat case_decide; try lia; f_equal; lia.
Qed.

Lemma swap_ranges_lookup {A : Type} (l : list A) (iter : Z) :
  0 <= iter -> iter + 16 <= len l ->
  len (swap_ranges l iter (iter + swapSize) (iter + swapSize)) = len l
  /\ forall j : Z,
       0 <= j ->
       swap_ranges l iter (iter + swapSize) (iter + swapSize) !! Z.to_nat j
       = l !! Z.to_nat (if (iter <=? j) && (j <? iter + 8) then j + 8
                        else if (iter + 8 <=? j) && (j <? iter + 16) then j - 8
                        else j).
Proof.
  intros Hiter Hlen. unfold swap_ranges, swapSize, len in *.
  replace (iter + 8 - iter) with 8 by lia.
  destruct (swap_ranges_spec l (Z.to_nat iter) (Z.to_nat (iter + 8)) (Z.to_nat 8))
    as [Hl Hget]; [lia | lia |].
  split; [now rewrite Hl |].
  intros j Hj. rewrite Hget.
  destruct (Z.leb_spec iter j); destruct (Z.ltb_spec j (iter + 8));
    destruct (Z.leb_spec (iter + 8) j); destruct (Z.ltb_spec j (iter + 16));
    cbn [andb]; repeat case_decide; try lia; f_equal; lia.
Qed.

(** The loop that swaps colours, entered at [iter]: it returns without a
    warning, and the colour at position [j] of the result is the colour
    the palette had at the position given below. *)
Lemma swap_loop_lookup {A : Type} (fuel : nat) :
  forall (palette : list A) (iter : Z),
    0 <= iter ->
    len palette - iter <= 32 * Z.of_nat fuel ->
    exists swapped : list A,
      swap_loop fuel palette iter = Ok (swapped, [])
      /\ len swapped = len palette
      /\ forall j : Z,
           0 <= j ->
           swapped !! Z.to_nat j
           = palette !! Z.to_nat
               (if (iter <=? j)
                   && (32 <? len palette - (j - (j - iter) mod 32))
                then if (j - iter) mod 32 <? 8 then j + 8
                     else if (j - iter) mod 32 <? 16 then j - 8 else j
                else j).
Proof.
  induction fuel as [| fuel IH]; intros palette iter Hiter Hfuel.
  - exists palette. cbn [swap_loop]. unfold swapDistance.
    destruct (Z.ltb_spec 32 (len palette - iter)); [lia |].
    split; [reflexivity |]. split; [reflexivity |].
    intros j Hj. f_equal. f_equal.
    destruct (Z.leb_spec iter j); [| reflexivity].
    destruct (Z.ltb_spec 32 (len palette - (j - (j - iter) mod 32)));
      [| reflexivity].
    pose proof (Z.mod_pos_bound (j - iter) 32 ltac:(lia)).
    pose proof (Z.mod_le (j - iter) 32 ltac:(lia) ltac:(lia)). lia.
  - cbn [swap_loop]. unfold swapDistance.
    destruct (Z.ltb_spec 32 (len palette - iter)) as [Hmore | Hdone].
    + destruct (Z.ltb_spec (len palette - (iter + swapSize)) swapSize);
        [unfold swapSize in *; lia |].
      destruct (swap_ranges_lookup palette iter Hiter ltac:(lia)) as [Hlen Hget].
      destruct (IH (swap_ranges palette iter (iter + swapSize) (iter + swapSize))
                   (iter + 32) ltac:(lia) ltac:(lia))
        as (swapped & Hrun & Hlen' & Hget').
      exists swapped. split; [exact Hrun |]. split; [lia |].
      intros j Hj. rewrite (Hget' j Hj), Hlen.
      pose proof (Z.mod_pos_bound (j - iter) 32 ltac:(lia)) as Hk.
      pose proof (Z.mod_pos_bound (j - (iter + 32)) 32 ltac:(lia)) as Hk'.
      assert (Hsame : iter + 32 <= j ->
                      (j - (iter + 32)) mod 32 = (j - iter) mod 32).
      { intros _. replace (j - (iter + 32)) with (j - iter + (-1) * 32) by lia.
        apply Z.mod_add. lia. }
      assert (Hblock : iter <= j -> j < iter + 32 -> (j - iter) mod 32 = j - iter)
        by (intros; apply Z.mod_small; lia).
      assert (Hbase : iter <= j -> iter <= j - (j - iter) mod 32).
      { intros Hle. pose proof (Z.mod_le (j - iter) 32 ltac:(lia) ltac:(lia)). lia. }
      destruct (Z.leb_spec (iter + 32) j) as [Hfar | Hnear].
      * rewrite (Hsame Hfar). cbn [andb].
        destruct (Z.leb_spec iter j); [| lia]. cbn [andb].
        assert (Hbase' : iter + 32 <= j - (j - iter) mod 32).
        { rewrite <- (Hsame Hfar).
          pose proof (Z.mod_le (j - (iter + 32)) 32 ltac:(lia) ltac:(lia)). lia. }
        destruct (Z.ltb_spec 32 (len palette - (j - (j - iter) mod 32))).
        -- destruct (Z.ltb_spec ((j - iter) mod 32) 8);
             [| destruct (Z.ltb_spec ((j - iter) mod 32) 16)];
             rewrite Hget by lia;
             repeat match goal with
                    | |- context [Z.leb ?x ?y] => destruct (Z.leb_spec x y)
                    | |- context [Z.ltb ?x ?y] => destruct (Z.ltb_spec x y)
                    end; cbn [andb]; try lia; reflexivity.
        -- rewrite Hget by lia.
           repeat match goal with
                  | |- context [Z.leb ?x ?y] => destruct (Z.leb_spec x y)
                  | |- context [Z.ltb ?x ?y] => destruct (Z.ltb_spec x y)
                  end; cbn [andb]; try lia; reflexivity.
      * cbn [andb]. rewrite Hget by lia.
        destruct (Z.leb_spec iter j) as [Hin | Hbefore]; cbn [andb].
        -- rewrite (Hblock Hin Hnear).
           replace (j - (j - iter)) with iter by lia.
           destruct (Z.ltb_spec 32 (len palette - iter)); [| lia].
           repeat match goal with
                  | |- context [Z.leb ?x ?y] => destruct (Z.leb_spec x y)
                  | |- context [Z.ltb ?x ?y] => destruct (Z.ltb_spec x y)
                  end; cbn [andb]; try lia; reflexivity.
        -- repeat match goal with
                  | |- context [Z.leb ?x ?y] => destruct (Z.leb_spec x y)
                  | |- context [Z.ltb ?x ?y] => destruct (Z.ltb_spec x y)
                  end; cbn [andb]; try lia; reflexivity.
    + exists palette. split; [reflexivity |]. split; [reflexivity |].
      intros j Hj. f_equal. f_equal.
      destruct (Z.leb_spec iter j); [| reflexivity].
      destruct (Z.ltb_spec 32 (len palette - (j - (j - iter) mod 32)));
        [| reflexivity].
      pose proof (Z.mod_pos_bound (j - iter) 32 ltac:(lia)).
      pose proof (Z.mod_le (j - iter) 32 ltac:(lia) ltac:(lia)). lia.
Qed.

Lemma mod_32_shift (x d : Z) :
  0 <= x mod 32 + d < 32 -> (x + d) mod 32 = x mod 32 + d.
Proof.
  intros Hd.
  replace (x + d) with (x mod 32 + d + (x / 32) * 32)
    by (pose proof (Z.div_mod x 32 ltac:(lia)); lia).
  rewrite Z.mod_add by lia. now apply Z.mod_small.
Qed.

Lemma swap_colors_lookup {A : Type} (palette : list A) :
  exists swapped : list A,
    swap_colors palette = Ok (swapped, [])
    /\ len swapped = len palette
    /\ forall j : Z,
         0 <= j ->
         swapped !! Z.to_nat j
         = palette !! Z.to_nat
             (if (8 <=? j) && (32 <? len palette - (j - (j - 8) mod 32))
              then if (j - 8) mod 32 <? 8 then j + 8
                   else if (j - 8) mod 32 <? 16 then j - 8 else j
              else j).
Proof.
  unfold swap_colors. destruct (Z.ltb_spec 8 (len palette)) as [Hmany | Hfew].
  - apply swap_loop_lookup; unfold len; lia.
  - exists palette. split; [reflexivity |]. split; [reflexivity |].
    intros j Hj. f_equal. f_equal.
    destruct (Z.leb_spec 8 j); [| reflexivity].
    destruct (Z.ltb_spec 32 (len palette - (j - (j - 8) mod 32)));
      [| reflexivity].
    pose proof (Z.mod_le (j - 8) 32 ltac:(lia) ltac:(lia)). lia.
Qed.

(** The swap step in closed form.  It always returns, never logs the
    warning, and keeps the number of colours.  The palette is seen in
    blocks of 32 colours that begin at position 8; in every block that
    has more than 32 colours from its start to the end of the palette, the
    first 8 colours and the next 8 change places; every other colour stays
    where it is. *)
Theorem swap_colors_layout {A : Type} (palette : list A) :
  exists swapped : list A,
    swap_colors palette = Ok (swapped, [])
    /\ len swapped = len palette
    /\ forall j : Z,
         0 <= j ->
         swapped !! Z.to_nat j
         = palette !! Z.to_nat
             (if (8 <=? j) && (32 <? len palette - (j - (j - 8) mod 32))
              then if (j - 8) mod 32 <? 8 then j + 8
                   else if (j - 8) mod 32 <? 16 then j - 8 else j
              else j).
Proof. exact (swap_colors_lookup palette). Qed.

(** Swapping twice gives the palette back. *)
Theorem swap_colors_twice {A : Type} (palette : list A) :
  exists swapped : list A,
    swap_colors palette = Ok (swapped, [])
    /\ swap_colors swapped = Ok (palette, []).
Proof.
  destruct (swap_colors_lookup palette) as (swapped & Hrun & Hlen & Hget).
  destruct (swap_colors_lookup swapped) as (back & Hrun' & Hlen' & Hget').
  exists swapped. split; [exact Hrun |].
  replace palette with back; [exact Hrun' |].
  apply list_eq. intros i. rewrite <- (Nat2Z.id i).
  assert (Hj : 0 <= Z.of_nat i) by lia.
  generalize dependent (Z.of_nat i). intros j Hj.
  rewrite (Hget' j Hj), Hlen.
  pose proof (Z.mod_pos_bound (j - 8) 32 ltac:(lia)) as Hk.
  destruct (Z.leb_spec 8 j) as [Hin | Hout]; cbn [andb].
  - destruct (Z.ltb_spec 32 (len palette - (j - (j - 8) mod 32))) as [Hfull | Hlast].
    + destruct (Z.ltb_spec ((j - 8) mod 32) 8) as [Hfirst | Hrest].
      * rewrite Hget by lia.
        assert (Hk' : (j + 8 - 8) mod 32 = (j - 8) mod 32 + 8).
        { replace (j + 8 - 8) with (j - 8 + 8) by lia. apply mod_32_shift. lia. }
        rewrite Hk'.
        destruct (Z.leb_spec 8 (j + 8)); [| lia]. cbn [andb].
        replace (j + 8 - ((j - 8) mod 32 + 8)) with (j - (j - 8) mod 32) by lia.
        destruct (Z.ltb_spec 32 (len palette - (j - (j - 8) mod 32))); [| lia].
        destruct (Z.ltb_spec ((j - 8) mod 32 + 8) 8); [lia |].
        destruct (Z.ltb_spec ((j - 8) mod 32 + 8) 16); [| lia].
        f_equal. lia.
      * destruct (Z.ltb_spec ((j - 8) mod 32) 16) as [Hsecond | Hother].
        -- rewrite Hget by lia.
           assert (Hk' : (j - 8 - 8) mod 32 = (j - 8) mod 32 - 8).
           { replace (j - 8 - 8) with (j - 8 + - 8) by lia.
             rewrite mod_32_shift by lia. lia. }
           rewrite Hk'.
           assert (Hbase : 8 <= j - (j - 8) mod 32).
           { pose proof (Z.mod_le (j - 8) 32 ltac:(lia) ltac:(lia)). lia. }
           destruct (Z.leb_spec 8 (j - 8)); [| lia]. cbn [andb].
           replace (j - 8 - ((j - 8) mod 32 - 8)) with (j - (j - 8) mod 32) by lia.
           destruct (Z.ltb_spec 32 (len palette - (j - (j - 8) mod 32))); [| lia].
           destruct (Z.ltb_spec ((j - 8) mod 32 - 8) 8); [| lia].
           f_equal. lia.
        -- rewrite Hget by lia.
           destruct (Z.leb_spec 8 j); [| lia]. cbn [andb].
           destruct (Z.ltb_spec 32 (len palette - (j - (j - 8) mod 32))); [| lia].
           destruct (Z.ltb_spec ((j - 8) mod 32) 8); [lia |].
           destruct (Z.ltb_spec ((j - 8) mod 32) 16); [lia | reflexivity].
    + rewrite Hget by lia.
      destruct (Z.leb_spec 8 j); [| lia]. cbn [andb].
      destruct (Z.ltb_spec 32 (len palette - (j - (j - 8) mod 32)));
        [lia | reflexivity].
  - rewrite Hget by lia.
    destruct (Z.leb_spec 8 j); [lia | reflexivity].
Qed.

End palette_layout.

Section palette_blocks.

Import texture.

Lemma as_rgba_len (n : nat) :
  forall (bytes : list Z) (block : list rgba),
    (List.length bytes <= n)%nat ->
    as_rgba bytes = Ok block -> len bytes = 4 * len block.
Proof.
  induction n as [| n IH]; intros bytes block Hn Hrun.
  - destruct bytes; [| cbn in Hn; lia]. now injection Hrun as <-.
  - destruct bytes as [| r0 [| g0 [| b0 [| a0 rest]]]]; try discriminate Hrun.
    + now injection Hrun as <-.
    + cbn [as_rgba] in Hrun. returned Hrun as more Hmore. injection Hrun as <-.
      rewrite !len_cons, (IH rest more); [lia | cbn in Hn; lia | exact Hmore].
Qed.

Lemma collect_blocks_spec (RawData : Z -> outcome (list Z)) (colorsPerBlock : Z)
    (blocks : list Z) :
  forall palette result : list rgba,
    collect_blocks RawData colorsPerBlock blocks palette = Ok result ->
    len result = len palette + colorsPerBlock * len blocks
    /\ Forall (fun i => exists bytes : list Z,
                          RawData i = Ok bytes /\ len bytes = 4 * colorsPerBlock)
              blocks.
Proof.
  induction blocks as [| i more IH]; intros palette result Hrun.
  - injection Hrun as <-. split; [rewrite len_nil; lia | constructor].
  - cbn [collect_blocks] in Hrun.
    destruct (RawData i) as [bytes | | | | |] eqn:Hraw; try discriminate Hrun.
    cbn [obind] in Hrun.
    destruct (as_rgba bytes) as [block | | | | |] eqn:Hblock; try discriminate Hrun.
    cbn [obind] in Hrun. unfold ASSERT in Hrun.
    destruct (Z.eqb_spec (len block) colorsPerBlock) as [Hsize | _];
      [| discriminate Hrun].
    cbn [obind] in Hrun. destruct (IH _ _ Hrun) as [Hlen Hall].
    split.
    + rewrite Hlen, len_app, len_cons. lia.
    + constructor; [| exact Hall]. exists bytes. split; [exact Hraw |].
      rewrite (as_rgba_len (List.length bytes) bytes block (le_n _) Hblock). lia.
Qed.

(** When [Data] returns a palette, it has read one block of four bytes
    per colour for each block that the header counts, the palette holds
    the colours of all the blocks, and nothing was logged. *)
Theorem Data_size (header : palette_info) (RawData : Z -> outcome (list Z))
    (palette : list rgba) (lg : list LogLevel) :
  0 <= paletteSize header -> 0 <= entrySize header ->
  0 <= bytes_per_pixel header ->
  Data header RawData = Ok (palette, lg) ->
  exists perBlock count : Z,
    GetColorsPerBlock header = Ok perBlock
    /\ GetBlockCount header = Ok count
    /\ 0 <= perBlock /\ 0 <= count
    /\ len palette = perBlock * count
    /\ lg = []
    /\ forall i : Z,
         0 <= i < count ->
         exists bytes : list Z,
           RawData i = Ok bytes /\ len bytes = 4 * perBlock.
Proof.
  intros Hp He Hb Hrun. unfold Data in Hrun.
  destruct (GetColorsPerBlock header) as [perBlock | | | | |] eqn:Hper;
    try discriminate Hrun.
  destruct (GetBlockCount header) as [count | | | | |] eqn:Hcount;
    try discriminate Hrun.
  cbn [obind] in Hrun.
  destruct (collect_blocks _ _ _ _) as [collected | | | | |] eqn:Hcollect;
    try discriminate Hrun.
  cbn [obind] in Hrun.
  destruct (collect_blocks_spec _ _ _ _ _ Hcollect) as [Hlen Hall].
  destruct (swap_colors_lookup collected) as (swapped & Hswap & Hlen' & _).
  rewrite Hswap in Hrun. injection Hrun as <- <-.
  assert (Hper0 : 0 <= perBlock).
  { unfold GetColorsPerBlock, udiv in Hper.
    destruct (_ =? _); [discriminate Hper |]. injection Hper as <-.
    now apply Z_div_nonneg_nonneg. }
  assert (Hcount0 : 0 <= count).
  { unfold GetBlockCount, udiv in Hcount.
    destruct (entrySize header =? 0); [discriminate Hcount |].
    cbn [obind] in Hcount.
    destruct (bytes_per_pixel header =? 0); [discriminate Hcount |].
    injection Hcount as <-.
    apply Z_div_nonneg_nonneg; [| assumption].
    now apply Z_div_nonneg_nonneg. }
  exists perBlock, count. repeat split; try assumption.
  - rewrite Hlen', Hlen, len_nil. unfold len.
    rewrite length_map, length_seq. lia.
  - intros i Hi. rewrite List.Forall_forall in Hall. apply Hall.
    apply in_map_iff. exists (Z.to_nat i). split; [lia |].
    apply in_seq. lia.
Qed.

(** The theorem at a palette of 2 blocks of 4 colours. *)
Lemma Data_size_witness :
  exists perBlock count : Z,
    GetColorsPerBlock {| paletteSize := 128; bytes_per_pixel := 4;
                         entrySize := 16 |} = Ok perBlock
    /\ GetBlockCount {| paletteSize := 128; bytes_per_pixel := 4;
                        entrySize := 16 |} = Ok count
    /\ 0 <= perBlock /\ 0 <= count
    /\ len (replicate 8 {| r := 1; g := 2; b := 3; a := 128 |})
       = perBlock * count
    /\ @nil LogLevel = []
    /\ forall i : Z,
         0 <= i < count ->
         exists bytes : list Z,
           (fun _ : Z => Ok [1; 2; 3; 128; 1; 2; 3; 128;
                             1; 2; 3; 128; 1; 2; 3; 128]) i = Ok bytes
           /\ len bytes = 4 * perBlock.
Proof.
  apply (Data_size {| paletteSize := 128; bytes_per_pixel := 4; entrySize := 16 |}
           (fun _ => Ok [1; 2; 3; 128; 1; 2; 3; 128; 1; 2; 3; 128; 1; 2; 3; 128])
           (replicate 8 {| r := 1; g := 2; b := 3; a := 128 |}) []);
    first [reflexivity | vm_compute; intuition congruence].
Defined.

End palette_blocks.

(** * Further properties of the distortion loop *)

Section distortion_clamped.

Import texture.

Lemma clamp_width_tiles (w : Z) :
  0 <= w < 2 ^ 16 -> clamp_width w = 16 * (w / 16).
Proof.
  intros Hw. unfold clamp_width, u16.
  destruct (Z.eqb_spec (w mod 16) 0) as [Hal | Hun]; cbn [negb].
  - Z.div_mod_to_equations. lia.
  - rewrite Z.mod_small by (Z.div_mod_to_equations; lia).
    Z.div_mod_to_equations. lia.
Qed.

Lemma clamp_height_rows (h : Z) :
  0 <= h < 2 ^ 16 -> clamp_height h = 4 * (h / 4).
Proof.
  intros Hh. unfold clamp_height, u16.
  destruct (Z.eqb_spec (h mod 4) 0) as [Hal | Hun]; cbn [negb].
  - Z.div_mod_to_equations. lia.
  - rewrite Z.mod_small by (Z.div_mod_to_equations; lia).
    Z.div_mod_to_equations. lia.
Qed.

(** A paletted texture that is wider than 96 pixels and whose width is
    not a multiple of 16, or whose height is not a multiple of 4, never
    loads.  The sizes are clamped, the loop runs over the clamped sizes
    and stops in front of the end of the index data, and the assertion
    that the iterator is at the end fails. *)
Theorem Load_unaligned_fails (fuel : nat) (header : sh3_texture_header)
    (RawData : list Z) (palette : list rgba) :
  header_wf header = true ->
  Check header = Ok true ->
  GetRealBPP header = Ok PALETTE ->
  96 < texWidth header -> 4 <= texHeight header ->
  texWidth header mod 16 <> 0 \/ texHeight header mod 4 <> 0 ->
  len RawData = DataSize header ->
  len palette <= 256 ->
  clamp_width (texWidth header) * clamp_height (texHeight header)
  <= 32 * Z.of_nat fuel ->
  Load_from_header fuel header (Ok RawData) (Ok palette) = AssertFail.
Proof.
  intros Hwf Hcheck Hreal Hw96 Hh4 Hun Hraw Hpal Hfuel.
  pose proof (header_wf_ranges header Hwf) as (Hw & Hh & _ & _).
  pose proof (paletted_size header Hwf Hcheck Hreal) as Hsize.
  unfold DataSize in Hraw.
  assert (Hp : int_mul (texWidth header) (texHeight header)
               = Ok (texWidth header * texHeight header)).
  { unfold Check in Hcheck.
    destruct (int_mul (texWidth header) (texHeight header)) as [p | | | | |] eqn:Hp;
      try discriminate Hcheck.
    now apply int_mul_Ok in Hp as [-> _]. }
  unfold Load_from_header. rewrite Hreal. cbn [obind]. rewrite Z.eqb_refl.
  cbn [obind]. rewrite ASSERT_true by lia. cbn [obind]. rewrite Hp. cbn [obind].
  destruct (Z.ltb_spec 96 (texWidth header)) as [_ | Hle]; [| lia].
  cbn [obind]. unfold distorted_indices.
  rewrite clamp_width_tiles, clamp_height_rows in * by assumption.
  set (w := texWidth header) in *. set (h := texHeight header) in *.
  set (W := w / 16) in *. set (H := h / 4) in *.
  assert (HW : 0 < W) by (unfold W; Z.div_mod_to_equations; lia).
  assert (HH : 0 < H) by (unfold H; Z.div_mod_to_equations; lia).
  assert (Hwc : 16 * W <= w) by (unfold W; Z.div_mod_to_equations; lia).
  assert (Hhc : 4 * H <= h) by (unfold H; Z.div_mod_to_equations; lia).
  assert (Hless : 16 * W * (4 * H) < w * h).
  { destruct Hun as [Hun | Hun].
    - assert (16 * W < w) by (unfold W; Z.div_mod_to_equations; lia). nia.
    - assert (4 * H < h) by (unfold H; Z.div_mod_to_equations; lia). nia. }
  set (iBuffer0 := replicate (Z.to_nat (texSize header)) 0).
  assert (Hbuf0 : len iBuffer0 = w * h).
  { unfold iBuffer0, len. rewrite length_replicate. nia. }
  destruct (distortion_loop_runs (16 * W) (4 * H) W H eq_refl eq_refl HW HH
              ltac:(lia) ltac:(lia)
              fuel 0 0 0 false RawData iBuffer0
              ltac:(lia) ltac:(lia) ltac:(lia))
    as (iBuffer & Hrun & Hlen).
  { nia. }
  { rewrite Hraw, Hsize. nia. }
  { lia. }
  change (16 * 0) with 0 in Hrun. change (4 * 0 + 0) with 0 in Hrun.
  rewrite Hrun. cbn [obind].
  destruct (drop _ RawData) as [| x rest] eqn:Hrest; [| reflexivity].
  exfalso. apply (f_equal (@List.length Z)) in Hrest.
  rewrite length_drop in Hrest. cbn [List.length] in Hrest.
  unfold len in Hraw. nia.
Qed.

(** The theorem at a paletted texture of 100 x 4 pixels. *)
Lemma Load_unaligned_fails_witness :
  Load_from_header 12
    {| batchHeaderSize := 32; texWidth := 100; texHeight := 4; bpp := 8;
       texSize := 400; texFileSize := 400 + 96 |}
    (Ok (ramp 400)) (Ok (numbered 256))
  = AssertFail.
Proof.
  apply (Load_unaligned_fails 12
           {| batchHeaderSize := 32; texWidth := 100; texHeight := 4; bpp := 8;
              texSize := 400; texFileSize := 400 + 96 |}
           (ramp 400) (numbered 256));
    first [reflexivity | vm_compute; intuition congruence].
Defined.

End distortion_clamped.

Section distortion_writes.

Import texture.

(** What one group of indices leaves in [iBuffer], when the destinations
    of the group are distinct. *)
Lemma tile_lookup (count : nat) :
  forall (i w x y : Z) (offsetFlipper : bool) (it iBuffer it' iBuffer' : list Z),
    tile count i w x y offsetFlipper it iBuffer = Ok (it', iBuffer') ->
    (forall a b : Z,
       i <= a -> a < b -> b < i + Z.of_nat count ->
       idx_of w x y offsetFlipper a <> idx_of w x y offsetFlipper b) ->
    (forall a : Z,
       i <= a < i + Z.of_nat count -> 0 <= idx_of w x y offsetFlipper a) ->
    (forall k : Z,
       0 <= k < Z.of_nat count ->
       iBuffer' !! Z.to_nat (idx_of w x y offsetFlipper (i + k))
       = it !! Z.to_nat k)
    /\ (forall p : nat,
          (forall k : Z,
             0 <= k < Z.of_nat count ->
             p <> Z.to_nat (idx_of w x y offsetFlipper (i + k))) ->
          iBuffer' !! p = iBuffer !! p).
Proof.
  induction count as [| count IH];
    intros i w x y offsetFlipper it iBuffer it' iBuffer' Hrun Hdist Hpos.
  - cbn in Hrun. injection Hrun as <- <-. split; [intros k Hk; lia | reflexivity].
  - cbn [tile] in Hrun. destruct it as [| index it]; [discriminate Hrun |].
    destruct (w =? 0); [discriminate Hrun |].
    destruct (ASSERT (idx_of w x y offsetFlipper i <=? len iBuffer));
      try discriminate Hrun.
    cbn [obind] in Hrun.
    destruct (Z.ltb_spec (idx_of w x y offsetFlipper i) (len iBuffer)) as [Hin | _];
      [| discriminate Hrun].
    destruct (IH _ _ _ _ _ _ _ _ _ Hrun) as [Hget Hkeep].
    { intros a b Ha Hab Hb. apply Hdist; lia. }
    { intros a Ha. apply Hpos. lia. }
    pose proof (Hpos i ltac:(lia)) as Hi0.
    split.
    + intros k Hk. destruct (Z.eq_dec k 0) as [-> | Hk0].
      * rewrite Z.add_0_r, Hkeep.
        -- rewrite list_lookup_insert_eq by (unfold len in Hin; lia). reflexivity.
        -- intros k' Hk' E. apply Z2Nat.inj in E;
             [| exact Hi0 | apply Hpos; lia].
           apply (Hdist i (i + 1 + k')); [lia | lia | lia | exact E].
      * replace (i + k) with (i + 1 + (k - 1)) by lia.
        rewrite Hget by lia.
        replace (Z.to_nat k) with (S (Z.to_nat (k - 1))) by lia. reflexivity.
    + intros p Hp. rewrite Hkeep.
      * apply list_lookup_insert_ne. intros E.
        apply (Hp 0 ltac:(lia)). rewrite Z.add_0_r. congruence.
      * intros k Hk. replace (i + 1 + k) with (i + (k + 1)) by lia.
        apply Hp. lia.
Qed.

Lemma counter_listed (i : Z) :
  0 <= i < 32 -> In i (map Z.of_nat (seq 0 32)).
Proof.
  intros Hi. apply in_map_iff. exists (Z.to_nat i).
  split; [lia | apply in_seq; lia].
Qed.

Lemma xoffset_of_range (i : Z) (offsetFlipper : bool) :
  0 <= i < 32 -> 0 <= xoffset_of i offsetFlipper < 16.
Proof.
  intros Hi.
  assert (Htable :
    forallb (fun i => forallb (fun f => (0 <=? xoffset_of i f)
                                        && (xoffset_of i f <? 16))
                              [false; true])
            (map Z.of_nat (seq 0 32)) = true) by (vm_compute; reflexivity).
  rewrite forallb_forall in Htable.
  pose proof (Htable i (counter_listed i Hi)) as Hrow.
  rewrite forallb_forall in Hrow.
  assert (Hf : In offsetFlipper [false; true])
    by (destruct offsetFlipper; cbn; auto).
  apply Hrow in Hf. apply andb_true_iff in Hf as [Hlo Hhi]. lia.
Qed.

Lemma xoffset_of_inj (i i' : Z) (offsetFlipper : bool) :
  0 <= i < 32 -> 0 <= i' < 32 ->
  Z.odd i = Z.odd i' ->
  xoffset_of i offsetFlipper = xoffset_of i' offsetFlipper ->
  i = i'.
Proof.
  intros Hi Hi' Hodd Hx.
  assert (Htable :
    forallb (fun i =>
      forallb (fun i' =>
        forallb (fun f => implb (Bool.eqb (Z.odd i) (Z.odd i')
                                 && (xoffset_of i f =? xoffset_of i' f))
                                (i =? i'))
                [false; true])
              (map Z.of_nat (seq 0 32)))
            (map Z.of_nat (seq 0 32)) = true) by (vm_compute; reflexivity).
  rewrite forallb_forall in Htable.
  pose proof (Htable i (counter_listed i Hi)) as Hrow.
  rewrite forallb_forall in Hrow.
  pose proof (Hrow i' (counter_listed i' Hi')) as Hcell.
  rewrite forallb_forall in Hcell.
  assert (Hf : In offsetFlipper [false; true])
    by (destruct offsetFlipper; cbn; auto).
  apply Hcell in Hf. rewrite Hodd, Hx, Bool.eqb_reflx, Z.eqb_refl in Hf.
  cbn in Hf. now apply Z.eqb_eq.
Qed.

End distortion_writes.

Section distortion_layout.

Import texture.

(** The clamped width [w] and height [h], as groups of 16 columns and of
    4 rows. *)
Variables w h W H : Z.
Hypothesis w_tiles : w = 16 * W.
Hypothesis h_rows : h = 4 * H.
Hypothesis W_pos : 0 < W.
Hypothesis H_pos : 0 < H.
Hypothesis w_u16 : w < 2 ^ 16.
Hypothesis h_u16 : h < 2 ^ 16.

(** Inside the image nothing wraps: the destination is column
    [16 * c + xoffset] of row [y] or [y + 2]. *)
Lemma idx_of_value (c y : Z) (offsetFlipper : bool) (i : Z) :
  0 <= c < W -> 0 <= y -> y + 2 < h -> 0 <= i < 32 ->
  idx_of w (16 * c) y offsetFlipper i
  = w * (y + (if Z.odd i then 2 else 0)) + 16 * c + xoffset_of i offsetFlipper.
Proof using w_tiles h_rows W_pos H_pos w_u16 h_u16.
  intros Hc Hy0 Hy2 Hi. unfold idx_of.
  pose proof (xoffset_of_range i offsetFlipper Hi) as Hx.
  set (xo := xoffset_of i offsetFlipper) in *.
  set (o := if Z.odd i then 2 else 0).
  assert (Ho : 0 <= o <= 2) by (unfold o; destruct (Z.odd i); lia).
  rewrite (u32_small (16 * c + xo)) by lia.
  rewrite (u32_small (y + o)) by lia.
  rewrite (Z.mod_small (16 * c + xo) w) by lia.
  assert (Hrow : 0 <= w * (y + o) <= w * (h - 1)) by nia.
  rewrite (u32_small (w * (y + o))) by nia.
  rewrite u32_small by nia. lia.
Qed.

Lemma idx_of_nonneg (x q s : Z) (offsetFlipper : bool) (i : Z) :
  0 <= q < H -> 0 <= s <= 1 ->
  0 <= idx_of w x (4 * q + s) offsetFlipper i.
Proof using w_tiles h_rows W_pos H_pos w_u16 h_u16.
  intros Hq Hs.
  apply (idx_of_in_range w h W H w_tiles h_rows W_pos H_pos w_u16 h_u16); lia.
Qed.

(** Two destinations coincide only for the same index of the same
    group. *)
Lemma idx_of_inj (c q s i c' q' s' i' : Z) :
  0 <= c < W -> 0 <= q < H -> 0 <= s <= 1 -> 0 <= i < 32 ->
  0 <= c' < W -> 0 <= q' < H -> 0 <= s' <= 1 -> 0 <= i' < 32 ->
  idx_of w (16 * c) (4 * q + s) (Z.odd q) i
  = idx_of w (16 * c') (4 * q' + s') (Z.odd q') i' ->
  c = c' /\ q = q' /\ s = s' /\ i = i'.
Proof using w_tiles h_rows W_pos H_pos w_u16 h_u16.
  intros Hc Hq Hs Hi Hc' Hq' Hs' Hi' E.
  rewrite !idx_of_value in E by lia.
  pose proof (xoffset_of_range i (Z.odd q) Hi) as Hx.
  pose proof (xoffset_of_range i' (Z.odd q') Hi') as Hx'.
  assert (Hrow : 4 * q + s + (if Z.odd i then 2 else 0)
                 = 4 * q' + s' + (if Z.odd i' then 2 else 0)).
  { destruct (Z.odd i), (Z.odd i'); nia. }
  assert (Hcol : 16 * c + xoffset_of i (Z.odd q)
                 = 16 * c' + xoffset_of i' (Z.odd q')) by nia.
  assert (Hqq : q = q') by (destruct (Z.odd i), (Z.odd i'); lia).
  subst q'.
  assert (Hodd : Z.odd i = Z.odd i') by (destruct (Z.odd i), (Z.odd i'); lia).
  assert (Hss : s = s') by (rewrite Hodd in Hrow; lia).
  assert (Hcc : c = c') by lia.
  subst s' c'. repeat split.
  apply (xoffset_of_inj i i' (Z.odd q)); [assumption | assumption | exact Hodd | lia].
Qed.

(** The last group of the image. *)
Lemma layout_last (it iBuffer iB1 : list Z) :
  (forall k : Z,
     0 <= k < 32 ->
     iB1 !! Z.to_nat (idx_of w (16 * (W - 1)) (4 * (H - 1) + 1) (Z.odd (H - 1)) k)
     = it !! Z.to_nat k) ->
  (forall p : nat,
     (forall k : Z,
        0 <= k < 32 ->
        p <> Z.to_nat (idx_of w (16 * (W - 1)) (4 * (H - 1) + 1)
                              (Z.odd (H - 1)) k)) ->
     iB1 !! p = iBuffer !! p) ->
  (forall c' q' s' i : Z,
     0 <= c' < W -> 0 <= q' < H -> 0 <= s' <= 1 -> 0 <= i < 32 ->
     W * (2 * (H - 1) + 1) + (W - 1) <= W * (2 * q' + s') + c' ->
     iB1 !! Z.to_nat (idx_of w (16 * c') (4 * q' + s') (Z.odd q') i)
     = it !! Z.to_nat (32 * (W * (2 * q' + s') + c'
                             - (W * (2 * (H - 1) + 1) + (W - 1))) + i))
  /\ (forall p : nat,
        (forall c' q' s' i : Z,
           0 <= c' < W -> 0 <= q' < H -> 0 <= s' <= 1 -> 0 <= i < 32 ->
           W * (2 * (H - 1) + 1) + (W - 1) <= W * (2 * q' + s') + c' ->
           p <> Z.to_nat (idx_of w (16 * c') (4 * q' + s') (Z.odd q') i)) ->
        iB1 !! p = iBuffer !! p).
Proof using w_tiles h_rows W_pos H_pos w_u16 h_u16.
  intros Hget1 Hkeep1. split.
  - intros c' q' s' i Hc' Hq' Hs' Hi Hge.
    assert (q' = H - 1) as -> by nia.
    assert (s' = 1) as -> by nia.
    assert (c' = W - 1) as -> by nia.
    rewrite Hget1 by assumption. f_equal. lia.
  - intros p Hp. apply Hkeep1. intros k Hk. apply Hp; lia.
Qed.

(** One group, followed by the groups behind it. *)
Lemma layout_step (c q s c2 q2 s2 : Z) (it iBuffer iB1 iB2 : list Z) :
  0 <= c < W -> 0 <= q < H -> 0 <= s <= 1 ->
  0 <= c2 < W -> 0 <= q2 < H -> 0 <= s2 <= 1 ->
  W * (2 * q2 + s2) + c2 = W * (2 * q + s) + c + 1 ->
  (forall k : Z,
     0 <= k < 32 ->
     iB1 !! Z.to_nat (idx_of w (16 * c) (4 * q + s) (Z.odd q) k)
     = it !! Z.to_nat k) ->
  (forall p : nat,
     (forall k : Z,
        0 <= k < 32 ->
        p <> Z.to_nat (idx_of w (16 * c) (4 * q + s) (Z.odd q) k)) ->
     iB1 !! p = iBuffer !! p) ->
  (forall c' q' s' i : Z,
     0 <= c' < W -> 0 <= q' < H -> 0 <= s' <= 1 -> 0 <= i < 32 ->
     W * (2 * q2 + s2) + c2 <= W * (2 * q' + s') + c' ->
     iB2 !! Z.to_nat (idx_of w (16 * c') (4 * q' + s') (Z.odd q') i)
     = drop 32 it !! Z.to_nat (32 * (W * (2 * q' + s') + c'
                                     - (W * (2 * q2 + s2) + c2)) + i)) ->
  (forall p : nat,
     (forall c' q' s' i : Z,
        0 <= c' < W -> 0 <= q' < H -> 0 <= s' <= 1 -> 0 <= i < 32 ->
        W * (2 * q2 + s2) + c2 <= W * (2 * q' + s') + c' ->
        p <> Z.to_nat (idx_of w (16 * c') (4 * q' + s') (Z.odd q') i)) ->
     iB2 !! p = iB1 !! p) ->
  (forall c' q' s' i : Z,
     0 <= c' < W -> 0 <= q' < H -> 0 <= s' <= 1 -> 0 <= i < 32 ->
     W * (2 * q + s) + c <= W * (2 * q' + s') + c' ->
     iB2 !! Z.to_nat (idx_of w (16 * c') (4 * q' + s') (Z.odd q') i)
     = it !! Z.to_nat (32 * (W * (2 * q' + s') + c'
                             - (W * (2 * q + s) + c)) + i))
  /\ (forall p : nat,
        (forall c' q' s' i : Z,
           0 <= c' < W -> 0 <= q' < H -> 0 <= s' <= 1 -> 0 <= i < 32 ->
           W * (2 * q + s) + c <= W * (2 * q' + s') + c' ->
           p <> Z.to_nat (idx_of w (16 * c') (4 * q' + s') (Z.odd q') i)) ->
        iB2 !! p = iBuffer !! p).
Proof using w_tiles h_rows W_pos H_pos w_u16 h_u16.
  intros Hc Hq Hs Hc2 Hq2 Hs2 Hnext Hget1 Hkeep1 Hget2 Hkeep2. split.
  - intros c' q' s' i Hc' Hq' Hs' Hi Hge.
    destruct (Z.eq_dec (W * (2 * q' + s') + c') (W * (2 * q + s) + c)) as [E | N].
    + assert (2 * q' + s' = 2 * q + s) by nia.
      assert (q' = q) as -> by lia.
      assert (s' = s) as -> by lia.
      assert (c' = c) as -> by lia.
      rewrite Hkeep2.
      * rewrite Hget1 by assumption. f_equal. lia.
      * intros c3 q3 s3 i3 Hc3 Hq3 Hs3 Hi3 Hge3 E3.
        apply Z2Nat.inj in E3; [| now apply idx_of_nonneg | now apply idx_of_nonneg].
        apply idx_of_inj in E3 as (-> & -> & -> & _); try assumption. lia.
    + rewrite Hget2 by (try assumption; lia).
      rewrite lookup_drop. f_equal. lia.
  - intros p Hp. rewrite Hkeep2.
    + apply Hkeep1. intros k Hk. apply Hp; try assumption; lia.
    + intros c' q' s' i Hc' Hq' Hs' Hi Hge. apply Hp; try assumption; lia.
Qed.

(** The loop from the group in column [16 * c] of row [4 * q + s]:
    every index it passes is found at its destination when the loop
    returns, and what is at no destination of a passed index is left as it
    was. *)
Lemma distortion_loop_layout (fuel : nat) :
  forall (c q s : Z) (it iBuffer : list Z),
    0 <= c < W -> 0 <= q < H -> 0 <= s <= 1 ->
    W * (2 * (H - q) - s) - c <= Z.of_nat fuel ->
    32 * (W * (2 * (H - q) - s) - c) <= len it ->
    w * h <= len iBuffer ->
    exists iBuffer' : list Z,
      distortion_loop fuel w h (16 * c) (4 * q + s) (Z.odd q) it iBuffer
        = Ok (drop (Z.to_nat (32 * (W * (2 * (H - q) - s) - c))) it, iBuffer')
      /\ (forall c' q' s' i : Z,
            0 <= c' < W -> 0 <= q' < H -> 0 <= s' <= 1 -> 0 <= i < 32 ->
            W * (2 * q + s) + c <= W * (2 * q' + s') + c' ->
            iBuffer' !! Z.to_nat (idx_of w (16 * c') (4 * q' + s') (Z.odd q') i)
            = it !! Z.to_nat (32 * (W * (2 * q' + s') + c'
                                    - (W * (2 * q + s) + c)) + i))
      /\ (forall p : nat,
            (forall c' q' s' i : Z,
               0 <= c' < W -> 0 <= q' < H -> 0 <= s' <= 1 -> 0 <= i < 32 ->
               W * (2 * q + s) + c <= W * (2 * q' + s') + c' ->
               p <> Z.to_nat (idx_of w (16 * c') (4 * q' + s') (Z.odd q') i)) ->
            iBuffer' !! p = iBuffer !! p).
Proof using w_tiles h_rows W_pos H_pos w_u16 h_u16.
  induction fuel as [| fuel IH];
    intros c q s it iBuffer Hc Hq Hs Hfuel Hit Hbuf.
  - exfalso. nia.
  - assert (Hleft : 1 <= W * (2 * (H - q) - s) - c) by nia.
    cbn [distortion_loop].
    destruct (tile_runs w h W H w_tiles h_rows W_pos H_pos w_u16 h_u16
                (16 * c) (4 * q + s) (Z.odd q) 32
                ltac:(lia) ltac:(lia) 0 it iBuffer) as (iB1 & Hrun & Hlen1).
    { unfold len in Hit. lia. }
    { exact Hbuf. }
    destruct (tile_lookup 32 0 w (16 * c) (4 * q + s) (Z.odd q) it iBuffer
                (drop 32 it) iB1 Hrun) as [Hget1 Hkeep1].
    { intros a b Ha Hab Hb E.
      apply idx_of_inj in E as (_ & _ & _ & E); try assumption; lia. }
    { intros a Ha. now apply idx_of_nonneg. }
    change (Z.of_nat 32) with 32 in Hget1, Hkeep1.
    assert (Hget1' : forall k : Z,
               0 <= k < 32 ->
               iB1 !! Z.to_nat (idx_of w (16 * c) (4 * q + s) (Z.odd q) k)
               = it !! Z.to_nat k)
      by (intros k Hk; now rewrite <- (Hget1 k Hk)).
    assert (Hkeep1' : forall p : nat,
               (forall k : Z,
                  0 <= k < 32 ->
                  p <> Z.to_nat (idx_of w (16 * c) (4 * q + s) (Z.odd q) k)) ->
               iB1 !! p = iBuffer !! p)
      by (intros p Hp; apply Hkeep1; intros k Hk; now apply Hp).
    clear Hget1 Hkeep1.
    rewrite Hrun. cbn [obind]. cbv beta iota.
    assert (Hbuf1 : w * h <= len iB1) by (unfold len in *; rewrite Hlen1; exact Hbuf).
    rewrite (u32_small (16 * c + 16)) by lia.
    destruct (Z.ltb_spec (16 * c + 16) w) as [Hin | Hout].
    + (* the next group of the same row *)
      replace (16 * c + 16) with (16 * (c + 1)) by lia.
      destruct (IH (c + 1) q s (drop 32 it) iB1
                  ltac:(lia) ltac:(lia) ltac:(lia) ltac:(lia))
        as (iB2 & Hrest & Hget2 & Hkeep2).
      { unfold len in *. rewrite length_drop. lia. }
      { exact Hbuf1. }
      exists iB2. split.
      * rewrite Hrest, drop_drop. do 3 f_equal. lia.
      * apply (layout_step c q s (c + 1) q s it iBuffer iB1 iB2);
          try assumption; lia.
    + (* the row is complete *)
      assert (c = W - 1) as -> by lia.
      rewrite (u32_small (4 * q + s + 1)) by lia.
      assert (s = 0 \/ s = 1) as [-> | ->] by lia.
      * replace ((4 * q + 0 + 1) mod 2) with 1
          by (symmetry; Z.div_mod_to_equations; lia).
        change (1 =? 0) with false. cbv iota.
        destruct (Z.eqb_spec (4 * q + 0 + 1) h) as [E | _]; [lia |].
        replace (4 * q + 0 + 1) with (4 * q + 1) by lia.
        change 0 with (16 * 0) at 1.
        destruct (IH 0 q 1 (drop 32 it) iB1
                    ltac:(lia) ltac:(lia) ltac:(lia) ltac:(lia))
          as (iB2 & Hrest & Hget2 & Hkeep2).
        { unfold len in *. rewrite length_drop. lia. }
        { exact Hbuf1. }
        exists iB2. split.
        -- rewrite Hrest, drop_drop. do 3 f_equal. lia.
        -- apply (layout_step (W - 1) q 0 0 q 1 it iBuffer iB1 iB2);
             try assumption; lia.
      * replace ((4 * q + 1 + 1) mod 2) with 0
          by (symmetry; Z.div_mod_to_equations; lia).
        change (0 =? 0) with true. cbv iota.
        rewrite (u32_small (4 * q + 1 + 1 + 2)) by lia.
        destruct (Z.leb_spec h (4 * q + 1 + 1 + 2)) as [Hend | Hmore].
        -- assert (q = H - 1) as -> by lia.
           exists iB1. split.
           ++ do 3 f_equal. nia.
           ++ apply (layout_last it iBuffer iB1); assumption.
        -- destruct (Z.eqb_spec (4 * q + 1 + 1 + 2) h) as [E | _]; [lia |].
           replace (4 * q + 1 + 1 + 2) with (4 * (q + 1) + 0) by lia.
           change 0 with (16 * 0) at 1.
           replace (negb (Z.odd q)) with (Z.odd (q + 1))
             by (rewrite Z.odd_add; cbn; now destruct (Z.odd q)).
           destruct (IH 0 (q + 1) 0 (drop 32 it) iB1
                       ltac:(lia) ltac:(lia) ltac:(lia) ltac:(lia))
             as (iB2 & Hrest & Hget2 & Hkeep2).
           { unfold len in *. rewrite length_drop. lia. }
           { exact Hbuf1. }
           exists iB2. split.
           ++ rewrite Hrest, drop_drop. do 3 f_equal. lia.
           ++ apply (layout_step (W - 1) q 1 0 (q + 1) 0 it iBuffer iB1 iB2);
                try assumption; lia.
Qed.

End distortion_layout.

Section decoder_layout.

Import texture.

(** The group, the pass and the column of the [n]-th index. *)
Lemma position_coordinates (W H n : Z) :
  0 < W -> 0 < H -> 0 <= n < 32 * (W * (2 * H)) ->
  0 <= (n / 32) mod W < W
  /\ 0 <= n / 32 / W / 2 < H
  /\ 0 <= (n / 32 / W) mod 2 <= 1
  /\ 0 <= n mod 32 < 32
  /\ 32 * (W * (2 * (n / 32 / W / 2) + (n / 32 / W) mod 2) + (n / 32) mod W)
     + n mod 32 = n.
Proof.
  intros HW HH Hn.
  set (T := n / 32). set (r := T / W).
  assert (HT : 0 <= T < W * (2 * H)).
  { unfold T. split; [apply Z.div_pos; lia |].
    apply Z.div_lt_upper_bound; lia. }
  assert (Hr : 0 <= r < 2 * H).
  { unfold r. split; [apply Z.div_pos; lia |].
    apply Z.div_lt_upper_bound; lia. }
  pose proof (Z.mod_pos_bound T W HW) as Hc.
  pose proof (Z.mod_pos_bound r 2 ltac:(lia)) as Hs.
  pose proof (Z.mod_pos_bound n 32 ltac:(lia)) as Hi.
  pose proof (Z.div_mod n 32 ltac:(lia)) as En.
  pose proof (Z.div_mod T W ltac:(lia)) as ET.
  pose proof (Z.div_mod r 2 ltac:(lia)) as Er.
  fold T in En. fold r in ET.
  assert (Hq : 0 <= r / 2 < H).
  { split; [apply Z.div_pos; lia | apply Z.div_lt_upper_bound; lia]. }
  replace (2 * (r / 2) + r mod 2) with r by lia.
  repeat split; lia.
Qed.

Lemma distorted_indices_positions (fuel : nat) (header : sh3_texture_header)
    (RawData : list Z) :
  header_wf header = true ->
  texWidth header <> 0 -> texWidth header mod 16 = 0 ->
  texHeight header <> 0 -> texHeight header mod 4 = 0 ->
  texSize header = texWidth header * texHeight header ->
  len RawData = texWidth header * texHeight header ->
  texWidth header * texHeight header <= 32 * Z.of_nat fuel ->
  exists iBuffer : list Z,
    distorted_indices fuel header RawData = Ok iBuffer
    /\ len iBuffer = texWidth header * texHeight header
    /\ (forall n : Z,
          0 <= n < texWidth header * texHeight header ->
          0 <= distorted_position (texWidth header) n
             < texWidth header * texHeight header
          /\ iBuffer !! Z.to_nat (distorted_position (texWidth header) n)
             = RawData !! Z.to_nat n)
    /\ (forall n n' : Z,
          0 <= n < texWidth header * texHeight header ->
          0 <= n' < texWidth header * texHeight header ->
          distorted_position (texWidth header) n
          = distorted_position (texWidth header) n' ->
          n = n').
Proof.
  intros Hwf Hw0 Hw16 Hh0 Hh4 Hsize Hraw Hfuel.
  pose proof (header_wf_ranges header Hwf) as (Hw & Hh & _ & _).
  rewrite distorted_indices_unclamped by assumption.
  set (w := texWidth header) in *. set (h := texHeight header) in *.
  set (W := w / 16). set (H := h / 4).
  assert (HwW : w = 16 * W) by (unfold W; Z.div_mod_to_equations; lia).
  assert (HhH : h = 4 * H) by (unfold H; Z.div_mod_to_equations; lia).
  assert (HW : 0 < W) by lia.
  assert (HH : 0 < H) by lia.
  assert (Harea : w * h = 32 * (W * (2 * H))) by nia.
  set (iBuffer0 := replicate (Z.to_nat (texSize header)) 0).
  assert (Hbuf0 : len iBuffer0 = w * h).
  { unfold iBuffer0, len. rewrite length_replicate. nia. }
  destruct (distortion_loop_layout w h W H HwW HhH HW HH ltac:(lia) ltac:(lia)
              fuel 0 0 0 RawData iBuffer0
              ltac:(lia) ltac:(lia) ltac:(lia))
    as (iBuffer & Hrun & Hget & _).
  { nia. }
  { rewrite Hraw. nia. }
  { lia. }
  change (16 * 0) with 0 in Hrun. change (4 * 0 + 0) with 0 in Hrun.
  change (Z.odd 0) with false in Hrun.
  rewrite drop_ge in Hrun by (unfold len in Hraw; nia).
  rewrite Hrun. cbn [obind ASSERT]. exists iBuffer. split; [reflexivity |].
  assert (Hlen : len iBuffer = w * h).
  { apply distortion_loop_len in Hrun. unfold len in *. lia. }
  split; [exact Hlen |].
  assert (Hpos : forall n : Z,
             0 <= n < w * h ->
             distorted_position w n
             = idx_of w (16 * ((n / 32) mod W))
                      (4 * (n / 32 / W / 2) + (n / 32 / W) mod 2)
                      (Z.odd (n / 32 / W / 2)) (n mod 32))
    by reflexivity.
  split.
  - intros n Hn.
    destruct (position_coordinates W H n HW HH ltac:(lia))
      as (Hc & Hq & Hs & Hi & En).
    rewrite (Hpos n Hn). split.
    + apply (idx_of_in_range w h W H HwW HhH HW HH ltac:(lia) ltac:(lia)); lia.
    + rewrite Hget by (try assumption; nia). f_equal. lia.
  - intros n n' Hn Hn' E.
    destruct (position_coordinates W H n HW HH ltac:(lia))
      as (Hc & Hq & Hs & Hi & En).
    destruct (position_coordinates W H n' HW HH ltac:(lia))
      as (Hc' & Hq' & Hs' & Hi' & En').
    rewrite (Hpos n Hn), (Hpos n' Hn') in E.
    apply (idx_of_inj w h W H HwW HhH HW HH ltac:(lia) ltac:(lia)) in E
      as (Ec & Eq & Es & Ei); try assumption.
    rewrite <- En, <- En', Ec, Eq, Es, Ei. reflexivity.
Qed.

(** The layout of the distortion loop.  For a texture with aligned width
    and height whose index data has one byte per pixel, the loop returns
    with the [n]-th index of the data at position [distorted_position] of
    [iBuffer]; the positions lie inside the image and no two indices
    share one, so [iBuffer] holds every index of the data exactly once. *)
Theorem distorted_indices_layout (fuel : nat) (header : sh3_texture_header)
    (RawData : list Z) :
  header_wf header = true ->
  texWidth header <> 0 -> texWidth header mod 16 = 0 ->
  texHeight header <> 0 -> texHeight header mod 4 = 0 ->
  texSize header = texWidth header * texHeight header ->
  len RawData = texWidth header * texHeight header ->
  texWidth header * texHeight header <= 32 * Z.of_nat fuel ->
  exists iBuffer : list Z,
    distorted_indices fuel header RawData = Ok iBuffer
    /\ len iBuffer = texWidth header * texHeight header
    /\ (forall n : Z,
          0 <= n < texWidth header * texHeight header ->
          0 <= distorted_position (texWidth header) n
             < texWidth header * texHeight header
          /\ iBuffer !! Z.to_nat (distorted_position (texWidth header) n)
             = RawData !! Z.to_nat n)
    /\ (forall n n' : Z,
          0 <= n < texWidth header * texHeight header ->
          0 <= n' < texWidth header * texHeight header ->
          distorted_position (texWidth header) n
          = distorted_position (texWidth header) n' ->
          n = n').
Proof. exact (distorted_indices_positions fuel header RawData). Qed.

(** The theorem at the paletted texture of 112 x 4 pixels. *)
Lemma distorted_indices_layout_witness :
  exists iBuffer : list Z,
    distorted_indices 14 narrow_distorted_header (ramp 448) = Ok iBuffer
    /\ len iBuffer = texWidth narrow_distorted_header
                     * texHeight narrow_distorted_header
    /\ (forall n : Z,
          0 <= n < texWidth narrow_distorted_header
                   * texHeight narrow_distorted_header ->
          0 <= distorted_position (texWidth narrow_distorted_header) n
             < texWidth narrow_distorted_header
               * texHeight narrow_distorted_header
          /\ iBuffer !! Z.to_nat
                          (distorted_position (texWidth narrow_distorted_header) n)
             = ramp 448 !! Z.to_nat n)
    /\ (forall n n' : Z,
          0 <= n < texWidth narrow_distorted_header
                   * texHeight narrow_distorted_header ->
          0 <= n' < texWidth narrow_distorted_header
                    * texHeight narrow_distorted_header ->
          distorted_position (texWidth narrow_distorted_header) n
          = distorted_position (texWidth narrow_distorted_header) n' ->
          n = n').
Proof.
  apply (distorted_indices_layout 14 narrow_distorted_header (ramp 448));
    first [reflexivity | vm_compute; intuition congruence].
Defined.

(** The colour bytes that the lookup emits for the index at place [k]. *)
Lemma lookup_distorted_at (palette : list rgba) (indices : list Z) :
  forall (data : list Z) (k : nat) (index : Z),
    lookup_distorted palette indices = Ok data ->
    indices !! k = Some index ->
    exists pixel : rgba,
      palette !! Z.to_nat index = Some pixel
      /\ data !! (3 * k)%nat = Some (r pixel)
      /\ data !! (3 * k + 1)%nat = Some (g pixel)
      /\ data !! (3 * k + 2)%nat = Some (b pixel).
Proof.
  induction indices as [| first more IH]; intros data k index Hrun Hk;
    [discriminate Hk |].
  cbn [lookup_distorted] in Hrun. returned Hrun as u Hassert.
  destruct (palette !! Z.to_nat first) as [pixel |] eqn:Hpix;
    [| discriminate Hrun].
  destruct (lookup_distorted palette more) as [rest | | | | |] eqn:Hrest;
    try discriminate Hrun.
  cbn [obind] in Hrun. injection Hrun as <-.
  destruct k as [| k].
  - injection Hk as <-. exists pixel. now repeat split.
  - cbn [lookup] in Hk. destruct (IH rest k index eq_refl Hk)
      as (pixel' & Hp & Hr & Hg & Hb).
    exists pixel'. split; [exact Hp |].
    replace (3 * S k)%nat with (S (S (S (3 * k)))) by lia.
    now repeat split.
Qed.

(** The distorted decoding, loop and lookup together.  For a paletted
    texture with aligned sizes, index data of one byte per pixel and a
    palette of 256 colours, the distortion loop fills [iBuffer], the lookup
    over [iBuffer] yields three bytes per pixel, and the pixel at position
    [distorted_position] of the image has the red, green and blue of the
    colour that the [n]-th index of the data selects. *)
Theorem distorted_pixels (fuel : nat) (header : sh3_texture_header)
    (RawData : list Z) (palette : list rgba) :
  header_wf header = true ->
  Check header = Ok true ->
  GetRealBPP header = Ok PALETTE ->
  96 < texWidth header -> texWidth header mod 16 = 0 ->
  texHeight header <> 0 -> texHeight header mod 4 = 0 ->
  len RawData = DataSize header ->
  Forall (fun index => 0 <= index < 256) RawData ->
  len palette = 256 ->
  texWidth header * texHeight header <= 32 * Z.of_nat fuel ->
  exists iBuffer data : list Z,
    distorted_indices fuel header RawData = Ok iBuffer
    /\ lookup_distorted palette iBuffer = Ok data
    /\ len data = 3 * (texWidth header * texHeight header)
    /\ forall n : Z,
         0 <= n < texWidth header * texHeight header ->
         exists (index : Z) (pixel : rgba),
           RawData !! Z.to_nat n = Some index
           /\ palette !! Z.to_nat index = Some pixel
           /\ data !! Z.to_nat (3 * distorted_position (texWidth header) n)
              = Some (r pixel)
           /\ data !! Z.to_nat (3 * distorted_position (texWidth header) n + 1)
              = Some (g pixel)
           /\ data !! Z.to_nat (3 * distorted_position (texWidth header) n + 2)
              = Some (b pixel).
Proof.
  intros Hwf Hcheck Hreal Hw96 Hw16 Hh0 Hh4 Hraw Hbytes Hpal Hfuel.
  pose proof (paletted_size header Hwf Hcheck Hreal) as Hsize.
  unfold DataSize in Hraw. rewrite Hsize in Hraw.
  destruct (distorted_indices_positions fuel header RawData Hwf ltac:(lia) Hw16
              Hh0 Hh4 Hsize Hraw Hfuel)
    as (iBuffer & Hloop & Hlen & Hat & _).
  assert (Hindices : Forall (fun index => 0 <= index < 256) iBuffer).
  { pose proof Hloop as Hrun.
    rewrite distorted_indices_unclamped in Hrun by assumption.
    destruct (distortion_loop fuel (texWidth header) (texHeight header) 0 0 false
                RawData (replicate (Z.to_nat (texSize header)) 0))
      as [[it iB] | | | | |] eqn:Hdl; try discriminate Hrun.
    cbn [obind] in Hrun. returned Hrun as u Hend. injection Hrun as <-.
    apply (distortion_loop_keeps_bytes _ _ _ _ _ _ _ _ _ _ Hdl Hbytes).
    apply Forall_replicate. lia. }
  destruct (lookup_distorted_in_bounds palette iBuffer Hpal Hindices)
    as (data & Hdata & Hdlen).
  exists iBuffer, data. split; [exact Hloop |]. split; [exact Hdata |].
  split; [lia |].
  intros n Hn. destruct (Hat n Hn) as [Hrange Hget].
  destruct (lookup_lt_is_Some_2 RawData (Z.to_nat n)) as [index Hindex];
    [unfold len in Hraw; lia |].
  rewrite Hindex in Hget.
  destruct (lookup_distorted_at palette iBuffer data _ index Hdata Hget)
    as (pixel & Hpixel & Hr & Hg & Hb).
  exists index, pixel. split; [exact Hindex |]. split; [exact Hpixel |].
  replace (Z.to_nat (3 * distorted_position (texWidth header) n))
    with (3 * Z.to_nat (distorted_position (texWidth header) n))%nat by lia.
  replace (Z.to_nat (3 * distorted_position (texWidth header) n + 1))
    with (3 * Z.to_nat (distorted_position (texWidth header) n) + 1)%nat by lia.
  replace (Z.to_nat (3 * distorted_position (texWidth header) n + 2))
    with (3 * Z.to_nat (distorted_position (texWidth header) n) + 2)%nat by lia.
  now repeat split.
Qed.

(** The theorem at the paletted texture of 112 x 4 pixels. *)
Lemma distorted_pixels_witness :
  exists iBuffer data : list Z,
    distorted_indices 14 narrow_distorted_header (ramp 448) = Ok iBuffer
    /\ lookup_distorted (numbered 256) iBuffer = Ok data
    /\ len data = 3 * (texWidth narrow_distorted_header
                       * texHeight narrow_distorted_header)
    /\ forall n : Z,
         0 <= n < texWidth narrow_distorted_header
                  * texHeight narrow_distorted_header ->
         exists (index : Z) (pixel : rgba),
           ramp 448 !! Z.to_nat n = Some index
           /\ numbered 256 !! Z.to_nat index = Some pixel
           /\ data !! Z.to_nat
                 (3 * distorted_position (texWidth narrow_distorted_header) n)
              = Some (r pixel)
           /\ data !! Z.to_nat
                 (3 * distorted_position (texWidth narrow_distorted_header) n + 1)
              = Some (g pixel)
           /\ data !! Z.to_nat
                 (3 * distorted_position (texWidth narrow_distorted_header) n + 2)
              = Some (b pixel).
Proof.
  apply (distorted_pixels 14 narrow_distorted_header (ramp 448) (numbered 256));
    first [reflexivity | compute_done | vm_compute; intuition congruence].
Defined.

(** What lies behind the indices of a group is handed on untouched. *)
Lemma tile_app (count : nat) :
  forall (i w x y : Z) (offsetFlipper : bool)
         (it iBuffer it' iBuffer' extra : list Z),
    tile count i w x y offsetFlipper it iBuffer = Ok (it', iBuffer') ->
    tile count i w x y offsetFlipper (it ++ extra) iBuffer
    = Ok (it' ++ extra, iBuffer').
Proof.
  induction count as [| count IH];
    intros i w x y offsetFlipper it iBuffer it' iBuffer' extra Hrun.
  - cbn in Hrun. injection Hrun as <- <-. reflexivity.
  - cbn [tile] in Hrun. destruct it as [| index it]; [discriminate Hrun |].
    change ((index :: it) ++ extra) with (index :: (it ++ extra)). cbn [tile].
    destruct (w =? 0); [discriminate Hrun |].
    destruct (ASSERT (idx_of w x y offsetFlipper i <=? len iBuffer));
      try discriminate Hrun.
    cbn [obind] in *.
    destruct (idx_of w x y offsetFlipper i <? len iBuffer); [| discriminate Hrun].
    now apply IH.
Qed.

Lemma distortion_loop_app (fuel : nat) :
  forall (w h x y : Z) (offsetFlipper : bool)
         (it iBuffer it' iBuffer' extra : list Z),
    distortion_loop fuel w h x y offsetFlipper it iBuffer = Ok (it', iBuffer') ->
    distortion_loop fuel w h x y offsetFlipper (it ++ extra) iBuffer
    = Ok (it' ++ extra, iBuffer').
Proof.
  induction fuel as [| fuel IH];
    intros w h x y offsetFlipper it iBuffer it' iBuffer' extra Hrun;
    [discriminate Hrun |].
  rewrite distortion_loop_S in Hrun. rewrite distortion_loop_S.
  destruct (tile 32 0 w x y offsetFlipper it iBuffer) as [[it1 iB1] | | | | |] eqn:Htile;
    try discriminate Hrun.
  rewrite (tile_app _ _ _ _ _ _ _ _ _ _ extra Htile).
  cbn [obind] in Hrun |- *. cbv beta iota zeta in Hrun |- *.
  repeat match goal with
         | |- context [if ?c then _ else _] => destruct c
         end;
    try (injection Hrun as <- <-; reflexivity);
    now apply IH.
Qed.

(** A group passes 32 indices, so a run of [fuel] groups passes
    [32 * fuel] indices at most. *)
Lemma tile_consumes (count : nat) :
  forall (i w x y : Z) (offsetFlipper : bool) (it iBuffer it' iBuffer' : list Z),
    tile count i w x y offsetFlipper it iBuffer = Ok (it', iBuffer') ->
    List.length it = (count + List.length it')%nat.
Proof.
  induction count as [| count IH];
    intros i w x y offsetFlipper it iBuffer it' iBuffer' Hrun.
  - cbn in Hrun. injection Hrun as <- <-. reflexivity.
  - cbn [tile] in Hrun. destruct it as [| index it]; [discriminate Hrun |].
    destruct (w =? 0); [discriminate Hrun |].
    destruct (ASSERT (idx_of w x y offsetFlipper i <=? len iBuffer));
      try discriminate Hrun.
    cbn [obind] in Hrun.
    destruct (idx_of w x y offsetFlipper i <? len iBuffer); [| discriminate Hrun].
    apply IH in Hrun. cbn [List.length]. lia.
Qed.

Lemma distortion_loop_consumes (fuel : nat) :
  forall (w h x y : Z) (offsetFlipper : bool) (it iBuffer it' iBuffer' : list Z),
    distortion_loop fuel w h x y offsetFlipper it iBuffer = Ok (it', iBuffer') ->
    (List.length it <= 32 * fuel + List.length it')%nat.
Proof.
  induction fuel as [| fuel IH];
    intros w h x y offsetFlipper it iBuffer it' iBuffer' Hrun;
    [discriminate Hrun |].
  rewrite distortion_loop_S in Hrun.
  destruct (tile 32 0 w x y offsetFlipper it iBuffer) as [[it1 iB1] | | | | |] eqn:Htile;
    try discriminate Hrun.
  apply tile_consumes in Htile.
  cbn [obind] in Hrun. cbv beta iota zeta in Hrun.
  repeat match type of Hrun with
         | (if ?c then _ else _) = _ => destruct c
         end;
    try (injection Hrun as <- <-; lia);
    apply IH in Hrun; lia.
Qed.

(** A run that has a group less to spend stops for want of budget, or
    does what the longer run does. *)
Lemma distortion_loop_fuel_cases (fuel : nat) :
  forall (w h x y : Z) (offsetFlipper : bool) (it iBuffer : list Z),
    distortion_loop fuel w h x y offsetFlipper it iBuffer = OutOfFuel
    \/ distortion_loop fuel w h x y offsetFlipper it iBuffer
       = distortion_loop (S fuel) w h x y offsetFlipper it iBuffer.
Proof.
  induction fuel as [| fuel IH]; intros w h x y offsetFlipper it iBuffer;
    [now left |].
  pose proof (distortion_loop_S (S fuel) w h x y offsetFlipper it iBuffer) as E2.
  pose proof (distortion_loop_S fuel w h x y offsetFlipper it iBuffer) as E1.
  rewrite E2, E1. clear E1 E2.
  destruct (tile 32 0 w x y offsetFlipper it iBuffer) as [[it1 iB1] | | | | |];
    cbn [obind]; try (right; reflexivity).
  cbv beta iota zeta.
  repeat match goal with
         | |- context [if ?c then _ else _] => destruct c
         end;
    try (right; reflexivity); apply IH.
Qed.

Lemma distortion_loop_fuel_le_cases (fuel fuel' : nat) :
  (fuel <= fuel')%nat ->
  forall (w h x y : Z) (offsetFlipper : bool) (it iBuffer : list Z),
    distortion_loop fuel w h x y offsetFlipper it iBuffer = OutOfFuel
    \/ distortion_loop fuel w h x y offsetFlipper it iBuffer
       = distortion_loop fuel' w h x y offsetFlipper it iBuffer.
Proof.
  induction 1 as [| fuel' _ IH]; intros w h x y offsetFlipper it iBuffer.
  - now right.
  - destruct (IH w h x y offsetFlipper it iBuffer) as [Hout | Hsame];
      [now left |].
    destruct (distortion_loop_fuel_cases fuel' w h x y offsetFlipper it iBuffer)
      as [Hout | Hnext].
    + left. congruence.
    + right. congruence.
Qed.

(** C8.  For a paletted texture whose width is a multiple of 16 above 96
    and whose height is a multiple of 4 other than 0, the index bytes
    number width x height, and the distortion loop returns under every
    budget of width x height / 32 groups or more, with the iterator at the
    end of the index range, so the assertion on the iterator holds; under
    a smaller budget it has not returned yet.  It reads exactly
    width x height bytes: the [n]-th byte of the range is found at
    position [distorted_position] of [iBuffer], no two bytes share a
    position, bytes that follow the first width x height in a longer range
    are left where they are, and on a shorter range the loop does not
    return.  Whatever budget a run has, it produces the same
    [iBuffer]. *)
Theorem distortion_decode_exact (header : sh3_texture_header) (RawData : list Z) :
  header_wf header = true ->
  Check header = Ok true ->
  GetRealBPP header = Ok PALETTE ->
  96 < texWidth header -> texWidth header mod 16 = 0 ->
  texHeight header <> 0 -> texHeight header mod 4 = 0 ->
  len RawData = DataSize header ->
  exists iBuffer : list Z,
    len RawData = texWidth header * texHeight header
    /\ len iBuffer = texWidth header * texHeight header
    /\ (forall fuel : nat,
          texWidth header * texHeight header <= 32 * Z.of_nat fuel ->
          distortion_loop fuel (texWidth header) (texHeight header) 0 0 false
            RawData (replicate (Z.to_nat (texSize header)) 0) = Ok ([], iBuffer)
          /\ distorted_indices fuel header RawData = Ok iBuffer)
    /\ (forall (fuel : nat) (res : list Z),
          distorted_indices fuel header RawData = Ok res -> res = iBuffer)
    /\ (forall fuel : nat,
          32 * Z.of_nat fuel < texWidth header * texHeight header ->
          distortion_loop fuel (texWidth header) (texHeight header) 0 0 false
            RawData (replicate (Z.to_nat (texSize header)) 0) = OutOfFuel)
    /\ (forall n : Z,
          0 <= n < texWidth header * texHeight header ->
          0 <= distorted_position (texWidth header) n
             < texWidth header * texHeight header
          /\ iBuffer !! Z.to_nat (distorted_position (texWidth header) n)
             = RawData !! Z.to_nat n)
    /\ (forall n n' : Z,
          0 <= n < texWidth header * texHeight header ->
          0 <= n' < texWidth header * texHeight header ->
          distorted_position (texWidth header) n
          = distorted_position (texWidth header) n' ->
          n = n')
    /\ (forall (fuel : nat) (extra : list Z),
          texWidth header * texHeight header <= 32 * Z.of_nat fuel ->
          distortion_loop fuel (texWidth header) (texHeight header) 0 0 false
            (RawData ++ extra) (replicate (Z.to_nat (texSize header)) 0)
          = Ok (extra, iBuffer))
    /\ (forall (fuel : nat) (short : list Z) (res : list Z * list Z),
          len short < texWidth header * texHeight header ->
          distortion_loop fuel (texWidth header) (texHeight header) 0 0 false
            short (replicate (Z.to_nat (texSize header)) 0) <> Ok res).
Proof.
  intros Hwf Hcheck Hreal Hw96 Hw16 Hh0 Hh4 Hraw.
  pose proof (paletted_size header Hwf Hcheck Hreal) as Hsize.
  pose proof (size_of_texture_nonneg header Hwf) as Harea.
  unfold DataSize in Hraw. rewrite Hsize in Hraw.
  destruct (distortion_loop_aligned header RawData Hwf Hw96 Hw16 Hh0 Hh4 Hsize Hraw)
    as (iBuffer & Hlen & Hrun).
  set (fuel1 := Z.to_nat (texWidth header * texHeight header)).
  assert (Hbig : texWidth header * texHeight header <= 32 * Z.of_nat fuel1)
    by (unfold fuel1; lia).
  assert (Hind : forall fuel : nat,
             texWidth header * texHeight header <= 32 * Z.of_nat fuel ->
             distorted_indices fuel header RawData = Ok iBuffer).
  { intros fuel Hfuel.
    rewrite distorted_indices_unclamped, (Hrun fuel Hfuel) by assumption.
    reflexivity. }
  exists iBuffer. split; [exact Hraw |]. split; [exact Hlen |].
  split; [| split; [| split; [| split; [| split; [| split]]]]].
  - intros fuel Hfuel. split; [now apply Hrun | now apply Hind].
  - intros fuel res Hres.
    rewrite distorted_indices_unclamped in Hres by assumption.
    destruct (distortion_loop fuel (texWidth header) (texHeight header) 0 0 false
                RawData (replicate (Z.to_nat (texSize header)) 0))
      as [[it iB] | | | | |] eqn:Hloop; try discriminate Hres.
    pose proof (distortion_loop_deterministic _ _ _ _ _ _ _ _ _ _ _
                  Hloop (Hrun fuel1 Hbig)) as E.
    injection E as -> ->. cbn in Hres. now injection Hres.
  - intros fuel Hfuel.
    destruct (distortion_loop_fuel_le_cases fuel (fuel + fuel1) ltac:(lia)
                (texWidth header) (texHeight header) 0 0 false RawData
                (replicate (Z.to_nat (texSize header)) 0)) as [Hout | Hsame];
      [exact Hout |].
    exfalso. rewrite (Hrun (fuel + fuel1)%nat) in Hsame by lia.
    apply distortion_loop_consumes in Hsame. cbn [List.length] in Hsame.
    unfold len in Hraw. lia.
  - intros n Hn.
    destruct (distorted_indices_positions fuel1 header RawData Hwf ltac:(lia) Hw16
                Hh0 Hh4 Hsize Hraw Hbig) as (iB & HiB & _ & Hat & _).
    rewrite (Hind fuel1 Hbig) in HiB. injection HiB as <-. now apply Hat.
  - destruct (distorted_indices_positions fuel1 header RawData Hwf ltac:(lia) Hw16
                Hh0 Hh4 Hsize Hraw Hbig) as (iB & _ & _ & _ & Hinj).
    exact Hinj.
  - intros fuel extra Hfuel.
    apply (distortion_loop_app _ _ _ _ _ _ _ _ _ _ extra (Hrun fuel Hfuel)).
  - intros fuel short [it' iB'] Hshort Hloop.
    set (pad := replicate (Z.to_nat (texWidth header * texHeight header - len short))
                          0).
    assert (Hpadded : len (short ++ pad) = texWidth header * texHeight header).
    { pose proof (len_nonneg short). rewrite len_app. unfold pad, len at 2.
      rewrite length_replicate. lia. }
    destruct (distortion_loop_aligned header (short ++ pad) Hwf Hw96 Hw16 Hh0 Hh4
                Hsize Hpadded) as (iB & _ & Hfull).
    pose proof (distortion_loop_app _ _ _ _ _ _ _ _ _ _ pad Hloop) as Hpad.
    pose proof (distortion_loop_deterministic _ _ _ _ _ _ _ _ _ _ _
                  Hpad (Hfull fuel1 Hbig)) as E.
    injection E as E _. apply (f_equal (@List.length Z)) in E.
    rewrite length_app in E. unfold pad in E. rewrite length_replicate in E.
    cbn [List.length] in E. lia.
Qed.

(** The theorem at a texture of 128 x 64 pixels. *)
Lemma distortion_decode_exact_witness :
  exists iBuffer : list Z,
    len (ramp 8192) = texWidth distorted_header * texHeight distorted_header
    /\ len iBuffer = texWidth distorted_header * texHeight distorted_header
    /\ (forall fuel : nat,
          texWidth distorted_header * texHeight distorted_header
            <= 32 * Z.of_nat fuel ->
          distortion_loop fuel (texWidth distorted_header)
            (texHeight distorted_header) 0 0 false
            (ramp 8192) (replicate (Z.to_nat (texSize distorted_header)) 0)
            = Ok ([], iBuffer)
          /\ distorted_indices fuel distorted_header (ramp 8192) = Ok iBuffer)
    /\ (forall (fuel : nat) (res : list Z),
          distorted_indices fuel distorted_header (ramp 8192) = Ok res ->
          res = iBuffer)
    /\ (forall fuel : nat,
          32 * Z.of_nat fuel
            < texWidth distorted_header * texHeight distorted_header ->
          distortion_loop fuel (texWidth distorted_header)
            (texHeight distorted_header) 0 0 false
            (ramp 8192) (replicate (Z.to_nat (texSize distorted_header)) 0)
            = OutOfFuel)
    /\ (forall n : Z,
          0 <= n < texWidth distorted_header * texHeight distorted_header ->
          0 <= distorted_position (texWidth distorted_header) n
             < texWidth distorted_header * texHeight distorted_header
          /\ iBuffer !! Z.to_nat (distorted_position (texWidth distorted_header) n)
             = ramp 8192 !! Z.to_nat n)
    /\ (forall n n' : Z,
          0 <= n < texWidth distorted_header * texHeight distorted_header ->
          0 <= n' < texWidth distorted_header * texHeight distorted_header ->
          distorted_position (texWidth distorted_header) n
          = distorted_position (texWidth distorted_header) n' ->
          n = n')
    /\ (forall (fuel : nat) (extra : list Z),
          texWidth distorted_header * texHeight distorted_header
            <= 32 * Z.of_nat fuel ->
          distortion_loop fuel (texWidth distorted_header)
            (texHeight distorted_header) 0 0 false
            (ramp 8192 ++ extra)
            (replicate (Z.to_nat (texSize distorted_header)) 0)
          = Ok (extra, iBuffer))
    /\ (forall (fuel : nat) (short : list Z) (res : list Z * list Z),
          len short < texWidth distorted_header * texHeight distorted_header ->
          distortion_loop fuel (texWidth distorted_header)
            (texHeight distorted_header) 0 0 false
            short (replicate (Z.to_nat (texSize distorted_header)) 0) <> Ok res).
Proof.
  apply (distortion_decode_exact distorted_header (ramp 8192)).
  - reflexivity.
  - reflexivity.
  - reflexivity.
  - cbn. lia.
  - reflexivity.
  - cbn. lia.
  - reflexivity.
  - vm_compute. reflexivity.
Defined.

End decoder_layout.

(** * Further properties of the section reader *)

Section section_names.

Import mft section.

Lemma without_trailing_NUL_all (reversed : list Z) :
  Forall (fun c => c = 0) reversed -> without_trailing_NUL reversed = [].
Proof.
  induction 1 as [| c r Hc _ IH]; [reflexivity |].
  cbn [without_trailing_NUL]. now rewrite Hc.
Qed.

Lemma without_trailing_NUL_zeros (k : nat) (c : Z) (t : list Z) :
  c <> 0 -> without_trailing_NUL (replicate k 0 ++ c :: t) = c :: t.
Proof.
  intros Hc. induction k as [| k IH]; cbn.
  - apply Z.eqb_neq in Hc. now rewrite Hc.
  - exact IH.
Qed.

(** The section name and the file names are trimmed by different code.
    The two agree on every name but one kind: for a name that is not
    empty and holds NUL bytes only, the section name becomes the empty
    string, while the loop over the file name asks [back()] of an empty
    string. *)
Theorem section_name_trimming (sectionName : list Z) :
  trimmed_section_name sectionName
  = match trimmed_name sectionName, sectionName with
    | Undefined, _ :: _ => Ok EmptyString
    | res, _ => res
    end.
Proof.
  unfold trimmed_section_name, trimmed_name.
  destruct (rev sectionName) as [| c0 r] eqn:Hrev.
  - apply (f_equal (@rev Z)) in Hrev. rewrite rev_involutive in Hrev.
    now subst sectionName.
  - destruct sectionName as [| x rest]; [discriminate Hrev |].
    destruct (Z.eqb_spec c0 0) as [-> | Hc0]; cbn [negb]; [| reflexivity].
    destruct (pop_trailing_NUL_cases (0 :: r))
      as [[Hall Hrun] | (k & c & t & Hsplit & Hc & Hrun)].
    + rewrite Hrun, (without_trailing_NUL_all _ Hall). reflexivity.
    + rewrite Hrun, Hsplit, (without_trailing_NUL_zeros k c t Hc). reflexivity.
Qed.

End section_names.

Section section_end.

Import mft section.

Variable sizeof_header : Z.
Variable header_arcIndex : list Z -> Z.
Variable header_fileSize : list Z -> Z.

(** The loop over the file entries does not look at the error of its
    reads.  When the stream delivers nothing, at its end or after a fault,
    the header keeps its zeros, the length of the name is computed as
    0 minus the size of the header in [std::size_t], and the loop stops at
    the overflow assertion of [ReadString]. *)
Theorem ReadNextSection_files_at_end (numFiles : nat) (gzHandle : gz_stream)
    (fileList : gmap string Z) :
  0 < sizeof_header <= INT_MAX ->
  header_fileSize (replicate (Z.to_nat sizeof_header) 0) = 0 ->
  gz_wf gzHandle ->
  gz_avail gzHandle = [] \/ gz_fault gzHandle <> None ->
  ReadNextSection_files sizeof_header header_arcIndex header_fileSize
    (S numFiles) gzHandle fileList = AssertFail.
Proof using Type.
  intros Hsize Hzero Hwf Hnothing. cbn [ReadNextSection_files].
  assert (Hlen : len (replicate (Z.to_nat sizeof_header) 0) = sizeof_header).
  { unfold len. rewrite length_replicate. lia. }
  assert (Hread : exists (e : read_error) (gz' : gz_stream),
             ReadObject gzHandle (replicate (Z.to_nat sizeof_header) 0)
             = Ok (replicate (Z.to_nat sizeof_header) 0, e, gz')).
  { unfold ReadObject. rewrite Hlen.
    destruct (gz_fault gzHandle) as [[ze oe] |] eqn:Hfault.
    - rewrite (ReadData_fault gzHandle sizeof_header ze oe Hfault Hwf) by lia.
      cbn [obind rd_bytes rd_error rd_stream List.length drop app].
      eexists. eexists. reflexivity.
    - destruct Hnothing as [Hempty | Hne]; [| congruence].
      rewrite (ReadData_no_fault gzHandle sizeof_header Hfault) by lia.
      rewrite Hempty. cbn [obind rd_bytes rd_error rd_stream].
      rewrite take_nil. cbn [List.length drop app].
      eexists. eexists. reflexivity. }
  destruct Hread as (e & gz' & ->). cbn [obind]. rewrite Hzero.
  unfold ReadString, ASSERT.
  destruct (Z.leb_spec (u64 (0 - sizeof_header)) INT_MAX) as [Hfits | _];
    [| reflexivity].
  exfalso. unfold u64, INT_MAX in *.
  replace (0 - sizeof_header) with (2 ^ 64 - sizeof_header + (-1) * 2 ^ 64) in Hfits
    by lia.
  rewrite Z.mod_add, Z.mod_small in Hfits by lia. lia.
Qed.

End section_end.

Section section_end_example.

Import mft section.

(** The theorem at the header of two 16-bit fields and an empty stream. *)
Lemma ReadNextSection_files_at_end_witness :
  ReadNextSection_files 4 two_fields_arcIndex two_fields_fileSize 1
    {| gz_avail := []; gz_fault := None |} ∅ = AssertFail.
Proof.
  apply (ReadNextSection_files_at_end 4 two_fields_arcIndex two_fields_fileSize
           0 {| gz_avail := []; gz_fault := None |} ∅);
    first [reflexivity | exact I | now left | vm_compute; intuition congruence].
Defined.

End section_end_example.
